(** * mcp-gmail: the auto-labeling rule engine and the bulk batch loops

    A shallow embedding of the rule store, the query synthesis and the
    paginated batch tools of [src/index.js], with the properties of the
    specification stated and settled against it, followed by further
    properties of these tools, of the export and import of the rules, of
    the text extraction and of the days parameter.

    Conventions of the embedding.
    - JavaScript numbers that the tools receive or count with are integers
      and are modelled by [Z].
    - A value that may be [undefined] or [null] is an [option]; an argument
      for which the code distinguishes [undefined] from [null] is an [Arg].
    - The remote mailbox is an abstract state machine ([Gmail]): read
      calls are functions of the mailbox state, mutating calls return a new
      state; every call can fail with an error message.
    - The tools run in a monad [M] over a [World] holding the mailbox, the
      rule file, the wall clock and the log of the remote calls issued.
      The rule file is read and written whole, and writing it does not
      fail; the clock is read, and does not move during a tool call.
    - A loop whose termination rests on a counter is a [Fixpoint] on the
      number of iterations left; where that number is a bound rather than
      the counter itself, running out of it is a third outcome
      ([OutOfFuel]) that the tools are proved never to produce. *)

From Stdlib Require Import ZArith Lia Permutation.
From stdpp Require Import base option list strings pretty.

Open Scope string_scope.
Open Scope Z_scope.

(** ** JavaScript values *)

(** The double-quote character, used by the template strings that quote a
    subject pattern. *)
Definition dquote : string := String (Ascii.ascii_of_nat 34) EmptyString.

(** Truthiness of a string-valued field: absent, [null] and the empty
    string are falsy. *)
Definition truthy_str (o : option string) : bool :=
  match o with
  | Some s => negb (String.eqb s EmptyString)
  | None => false
  end.

(** [x || d] on numbers: [undefined], [null] and [0] give [d]. *)
Definition num_or (o : option Z) (d : Z) : Z :=
  match o with
  | Some 0 => d
  | Some n => n
  | None => d
  end.

(** [Array.prototype.join]. *)
Fixpoint js_join (sep : string) (l : list string) : string :=
  match l with
  | [] => EmptyString
  | [x] => x
  | x :: rest => x ++ sep ++ js_join sep rest
  end.

(** [Array.prototype.includes] on strings. *)
Definition includes (l : list string) (x : string) : bool :=
  existsb (String.eqb x) l.

(** [[...new Set(l)]]: the distinct elements in order of first occurrence. *)
Fixpoint set_spread_acc (seen l : list string) : list string :=
  match l with
  | [] => []
  | x :: rest =>
      if includes seen x then set_spread_acc seen rest
      else x :: set_spread_acc (x :: seen) rest
  end.

Definition set_spread (l : list string) : list string := set_spread_acc [] l.

(** [Math.ceil(a / b)] for integers [a] and [b > 0]. *)
Definition ceil_div (a b : Z) : Z := - ((- a) / b).

(** [Math.floor(a / b)] for integers [a] and [b > 0]. *)
Definition floor_div (a b : Z) : Z := a / b.

(** [arr.slice(i, j)] for [0 <= i <= j]. *)
Definition slice {A} (i j : nat) (l : list A) : list A := take (j - i) (drop i l).

(** ** Errors *)

Inductive ErrorCode := InvalidParams | InvalidRequest | InternalError | MethodNotFound.

(** A thrown value: an [McpError] of the server, or a plain [Error] raised
    by the remote client. *)
Inductive Exn :=
| McpError (code : ErrorCode) (msg : string)
| JsError (msg : string).

Definition message (e : Exn) : string :=
  match e with
  | McpError _ m => m
  | JsError m => m
  end.

(** ** Rules and the rule file *)

Record Rule := mkRule {
  label_name : string;
  sender_pattern : option string;
  subject_pattern : option string;
  subject_contains : option (list string);
  query : option string;
  enabled : option bool;
  created : option string;
  last_run : option string;
  updated : option string
}.

Record RuleSetConfig := mkConfig {
  version : string;
  lastUpdated : string;
  rules : option (list Rule)
}.

(** ** The remote mailbox client *)

Record MessageRef := mkRef { id : string }.

Record ListParams := mkListParams {
  q : string;
  maxResults : Z;
  pageToken : option string
}.

Record ListResponse := mkListResponse {
  messages : option (list MessageRef);
  nextPageToken : option string;
  resultSizeEstimate : option Z
}.

(** What [messages.get] with [format: 'metadata'] returns, as far as the
    tools read it: the three header values [headerValue] extracts and the
    label ids. *)
Record MessageData := mkMessageData {
  from_header : string;
  subject_header : string;
  date_header : string;
  labelIds : option (list string)
}.

Record Label := mkLabel { lbl_id : string; lbl_name : string }.

Record ModifyRequest := mkModify {
  ids : list string;
  addLabelIds : option (list string);
  removeLabelIds : option (list string)
}.

Record Gmail := mkGmail {
  Mbox : Type;
  messages_list : Mbox -> ListParams -> string + ListResponse;
  messages_get : Mbox -> string -> string + MessageData;
  labels_list : Mbox -> string + option (list Label);
  messages_batchDelete : Mbox -> list string -> (string + unit) * Mbox;
  messages_batchModify : Mbox -> ModifyRequest -> (string + unit) * Mbox;
  messages_delete : Mbox -> string -> (string + unit) * Mbox;
  messages_trash : Mbox -> string -> (string + unit) * Mbox;
  labels_create : Mbox -> string -> (string + Label) * Mbox
}.

(** The remote calls, as logged. *)
Inductive Call :=
| CList (p : ListParams)
| CGet (i : string)
| CLabelsList
| CBatchDelete (l : list string)
| CBatchModify (r : ModifyRequest)
| CDelete (i : string)
| CTrash (i : string)
| CLabelsCreate (name : string).

(** A call that changes the mailbox. *)
Definition mutating (c : Call) : bool :=
  match c with
  | CList _ | CGet _ | CLabelsList => false
  | _ => true
  end.

(** A call that changes the messages of the mailbox. *)
Definition modifies_messages (c : Call) : bool :=
  match c with
  | CBatchDelete _ | CBatchModify _ | CDelete _ | CTrash _ => true
  | _ => false
  end.

Section Server.

Variable gmail : Gmail.

(** ** The world and the monad of the tools *)

Record World := mkWorld {
  mbox : Mbox gmail;
  rules_file : option RuleSetConfig;   (* [None]: missing or unparseable *)
  clock : string;                      (* [new Date().toISOString()] *)
  unauthorized : option Exn;           (* what [getGmail] throws, if it does *)
  calls : list Call
}.

(** The outcome of a computation: a value, a thrown exception, or the
    exhaustion of the iteration bound of a loop. *)
Inductive Res (A : Type) :=
| Ret (a : A)
| Throw (e : Exn)
| OutOfFuel.

Arguments Ret {A} a.
Arguments Throw {A} e.
Arguments OutOfFuel {A}.

Definition M (A : Type) : Type := World -> Res A * World.

#[global] Instance M_ret : MRet M := fun A a w => (Ret a, w).

#[global] Instance M_bind : MBind M := fun A B f m w =>
  match m w with
  | (Ret a, w') => f a w'
  | (Throw e, w') => (Throw e, w')
  | (OutOfFuel, w') => (OutOfFuel, w')
  end.

Definition throw {A} (e : Exn) : M A := fun w => (Throw e, w).

(** [try { body } catch (error) { handler(error) }]. *)
Definition try_catch {A} (body : M A) (handler : Exn -> M A) : M A := fun w =>
  match body w with
  | (Throw e, w') => handler e w'
  | r => r
  end.

Definition log (c : Call) (w : World) : World :=
  mkWorld (mbox w) (rules_file w) (clock w) (unauthorized w) (c :: calls w).

Definition set_mbox (m : Mbox gmail) (w : World) : World :=
  mkWorld m (rules_file w) (clock w) (unauthorized w) (calls w).

Definition set_rules_file (f : option RuleSetConfig) (w : World) : World :=
  mkWorld (mbox w) f (clock w) (unauthorized w) (calls w).

Definition lift_err {A} (r : string + A) : Res A :=
  match r with
  | inl m => Throw (JsError m)
  | inr a => Ret a
  end.

(** A read call: logged, answered from the mailbox state. *)
Definition read_call {A} (c : Call) (f : Mbox gmail -> string + A) : M A :=
  fun w => (lift_err (f (mbox w)), log c w).

(** A mutating call: logged, answered with a new mailbox state. *)
Definition write_call {A} (c : Call) (f : Mbox gmail -> (string + A) * Mbox gmail) : M A :=
  fun w => let '(r, m) := f (mbox w) in (lift_err r, set_mbox m (log c w)).

Definition getGmail : M unit := fun w =>
  match unauthorized w with
  | Some e => (Throw e, w)
  | None => (Ret tt, w)
  end.

Definition list_messages (p : ListParams) : M ListResponse :=
  read_call (CList p) (fun m => messages_list gmail m p).

Definition get_message (i : string) : M MessageData :=
  read_call (CGet i) (fun m => messages_get gmail m i).

Definition list_labels : M (option (list Label)) :=
  read_call CLabelsList (labels_list gmail).

Definition batchDelete (l : list string) : M unit :=
  write_call (CBatchDelete l) (fun m => messages_batchDelete gmail m l).

Definition batchModify (r : ModifyRequest) : M unit :=
  write_call (CBatchModify r) (fun m => messages_batchModify gmail m r).

Definition delete_message (i : string) : M unit :=
  write_call (CDelete i) (fun m => messages_delete gmail m i).

Definition trash_message (i : string) : M unit :=
  write_call (CTrash i) (fun m => messages_trash gmail m i).

Definition create_label (name : string) : M Label :=
  write_call (CLabelsCreate name) (fun m => labels_create gmail m name).

Definition now : M string := fun w => (Ret (clock w), w).

(** [loadAutoLabelingRules]: the rules of the file, or the empty list when
    the file is missing, unparseable or has no [rules]. *)
Definition loadAutoLabelingRules : M (list Rule) := fun w =>
  (Ret (match rules_file w with
        | Some cfg => default [] (rules cfg)
        | None => []
        end), w).

(** [saveAutoLabelingRules]: the whole file is overwritten. *)
Definition saveAutoLabelingRules (rs : list Rule) : M unit := fun w =>
  (Ret tt, set_rules_file (Some (mkConfig "1.0.0" (clock w) (Some rs))) w).


(** ** The bulk tools: paginated batch loops *)

Record BatchError := mkBatchError {
  batch : Z;
  error : string;
  count : Z
}.

(** The variables of the pagination loop. *)
Record LoopState := mkLoop {
  processedCount : Z;
  doneCount : Z;          (* [deletedCount], [labeledCount] *)
  errorCount : Z;
  loop_errors : list BatchError;
  loop_token : option string
}.

Definition out_of_fuel {A} : M A := fun w => (OutOfFuel, w).

(** [listParams] of one iteration: the page token is set only when the
    previous one is truthy. *)
Definition page_params (query : string) (batchSize : Z) (tok : option string) : ListParams :=
  mkListParams query batchSize (if truthy_str tok then tok else None).

(** The [try]/[catch] of one page: the page action succeeds and the whole
    page counts as done, or it throws and the whole page counts as failed,
    with one error entry. *)
Definition page_attempt (batchSize : Z) (action : list string -> M unit)
    (messageIds : list string) (st : LoopState) : M LoopState :=
  try_catch
    (_ ← action messageIds;
     mret (mkLoop (processedCount st) (doneCount st + Z.of_nat (length messageIds))
                  (errorCount st) (loop_errors st) (loop_token st)))
    (fun e =>
     mret (mkLoop (processedCount st) (doneCount st)
                  (errorCount st + Z.of_nat (length messageIds))
                  (loop_errors st ++
                     [mkBatchError (floor_div (processedCount st) batchSize + 1)
                                   (message e) (Z.of_nat (length messageIds))])
                  (loop_token st))).

(** [while (processedCount < totalCount) { ... }], the loop shared by
    [toolBulkDeleteEmails] and [toolBulkLabelEmails], which differ in the
    page action only. Every iteration that does not leave the loop adds at
    least one to [processedCount], so that [totalCount] iterations bound
    it: [fuel] counts them. *)
Fixpoint bulk_loop (query : string) (batchSize totalCount : Z)
    (action : list string -> M unit) (fuel : nat) (st : LoopState) : M LoopState :=
  if processedCount st <? totalCount then
    match fuel with
    | O => out_of_fuel
    | S fuel' =>
        batchList ← list_messages (page_params query batchSize (loop_token st));
        let msgs := default [] (messages batchList) in
        let tok := nextPageToken batchList in
        if (length msgs =? 0)%nat then
          mret (mkLoop (processedCount st) (doneCount st) (errorCount st)
                       (loop_errors st) tok)
        else
          let messageIds := map id msgs in
          st1 ← page_attempt batchSize action messageIds
                  (mkLoop (processedCount st) (doneCount st) (errorCount st)
                          (loop_errors st) tok);
          let st2 := mkLoop (processedCount st1 + Z.of_nat (length msgs))
                            (doneCount st1) (errorCount st1) (loop_errors st1) tok in
          if negb (truthy_str tok) then mret st2
          else bulk_loop query batchSize totalCount action fuel' st2
    end
  else mret st.

Definition loop_init : LoopState := mkLoop 0 0 0 [] None.

(** The Batch Operation Result of the payload. *)
Record BatchResult := mkBatchResult {
  total_processed : Z;
  successful : Z;
  failed : Z;
  batch_size : Z;
  batches_processed : Z;
  errors : list BatchError   (* left out of the payload when empty *)
}.

Definition batch_result (batchSize : Z) (st : LoopState) : BatchResult :=
  mkBatchResult (processedCount st) (doneCount st) (errorCount st) batchSize
                (ceil_div (processedCount st) batchSize) (loop_errors st).

Record DryRunEstimate := mkEstimate {
  total_estimated : Z;
  est_batch_size : Z;
  estimated_batches : Z
}.

Inductive BulkPayload :=
| NoEmailsFound (query : string)
| DryRun (query : string) (e : DryRunEstimate)
| BulkCompleted (query : string) (r : BatchResult).

Record BulkDeleteArgs := mkBulkDeleteArgs {
  bd_query : option string;
  bd_batch_size : option Z;
  bd_permanent : bool;
  bd_dry_run : bool
}.

(** [Math.max(10, Math.min(500, n))]. *)
Definition clamp_batch (n : Z) : Z := Z.max 10 (Z.min 500 n).

(** The count-only probe: one page of size 1, read for its
    [resultSizeEstimate || 0]. *)
Definition probe (query : string) : M Z :=
  l ← list_messages (mkListParams query 1 None);
  mret (num_or (resultSizeEstimate l) 0).

Definition delete_action (permanent : bool) (messageIds : list string) : M unit :=
  if permanent then batchDelete messageIds
  else batchModify (mkModify messageIds (Some ["TRASH"]) None).

Definition toolBulkDeleteEmails (args : BulkDeleteArgs) : M BulkPayload :=
  if negb (truthy_str (bd_query args)) then
    throw (McpError InvalidParams "query is required")
  else
    let query := default EmptyString (bd_query args) in
    let batchSize := clamp_batch (num_or (bd_batch_size args) 100) in
    _ ← getGmail;
    totalCount ← probe query;
    if totalCount =? 0 then mret (NoEmailsFound query)
    else if bd_dry_run args then
      mret (DryRun query (mkEstimate totalCount batchSize (ceil_div totalCount batchSize)))
    else
      st ← bulk_loop query batchSize totalCount (delete_action (bd_permanent args))
             (Z.to_nat totalCount) loop_init;
      mret (BulkCompleted query (batch_result batchSize st)).

(** [Promise.all(ps)]: every call is issued; the result is the list of the
    values, or the first rejection (taken in list order). *)
Fixpoint promise_all {A} (ps : list (M A)) : M (list A) := fun w =>
  match ps with
  | [] => (Ret [], w)
  | p :: rest =>
      let '(r, w1) := p w in
      let '(rs, w2) := promise_all rest w1 in
      (match r, rs with
       | Ret a, Ret l => Ret (a :: l)
       | Ret _, Throw e => Throw e
       | Ret _, OutOfFuel => OutOfFuel
       | Throw e, _ => Throw e
       | OutOfFuel, _ => OutOfFuel
       end, w2)
  end.

Definition systemLabels : list string :=
  ["INBOX"; "SENT"; "DRAFT"; "SPAM"; "TRASH"; "IMPORTANT"; "STARRED"; "UNREAD"].

Record BulkLabelArgs := mkBulkLabelArgs {
  bl_query : option string;
  bl_label_ids : option (list string);
  bl_operation : option string;      (* default 'add' *)
  bl_batch_size : option Z;          (* default 100 *)
  bl_dry_run : bool
}.

(** The [modifyRequest] of one page. For ['replace'] the current labels of
    every message of the page are fetched first. *)
Definition label_request (operation : string) (label_ids messageIds : list string)
    : M ModifyRequest :=
  if String.eqb operation "add" then
    mret (mkModify messageIds (Some label_ids) None)
  else if String.eqb operation "remove" then
    mret (mkModify messageIds None (Some label_ids))
  else if String.eqb operation "replace" then
    msgs ← promise_all (map get_message messageIds);
    let allCurrentLabels := map (fun msg => default [] (labelIds msg)) msgs in
    let userLabelsToRemove :=
      List.filter (fun labelId => negb (includes systemLabels labelId))
                  (concat allCurrentLabels) in
    mret (mkModify messageIds (Some label_ids) (Some (set_spread userLabelsToRemove)))
  else
    mret (mkModify messageIds None None).

Definition label_action (operation : string) (label_ids messageIds : list string)
    : M unit :=
  modifyRequest ← label_request operation label_ids messageIds;
  batchModify modifyRequest.

Record LabelDryRun := mkLabelDryRun {
  ld_operation : string;
  ld_estimate : DryRunEstimate;
  labels_to_apply : list string
}.

Inductive BulkLabelPayload :=
| LabelNoEmailsFound (query : string)
| LabelDryRunPayload (query : string) (d : LabelDryRun)
| LabelCompleted (query operation : string) (r : BatchResult) (labels_applied : list string).

Definition toolBulkLabelEmails (args : BulkLabelArgs) : M BulkLabelPayload :=
  if negb (truthy_str (bl_query args)) then
    throw (McpError InvalidParams "query is required")
  else
    match bl_label_ids args with
    | None | Some [] => throw (McpError InvalidParams "label_ids array is required")
    | Some label_ids =>
        let query := default EmptyString (bl_query args) in
        let operation := default "add" (bl_operation args) in
        let batchSize := clamp_batch (default 100 (bl_batch_size args)) in
        _ ← getGmail;
        totalCount ← probe query;
        if totalCount =? 0 then mret (LabelNoEmailsFound query)
        else if bl_dry_run args then
          mret (LabelDryRunPayload query
                  (mkLabelDryRun operation
                     (mkEstimate totalCount batchSize (ceil_div totalCount batchSize))
                     label_ids))
        else
          st ← bulk_loop query batchSize totalCount (label_action operation label_ids)
                 (Z.to_nat totalCount) loop_init;
          mret (LabelCompleted query operation (batch_result batchSize st) label_ids)
    end.

(** ** [toolDeleteEmailsByQuery]: one page, with a per-item fallback *)

Record EmailDetail := mkDetail {
  ed_id : string;
  ed_from : string;
  ed_subject : string;
  ed_date : string;
  ed_error : option string
}.

Record ItemError := mkItemError { ie_id : string; ie_error : string }.

Record DeleteByQueryArgs := mkDeleteByQueryArgs {
  dq_query : option string;
  dq_max : option Z;
  dq_permanent : bool;
  dq_dry_run : bool
}.

Inductive DeleteByQueryPayload :=
| DQNoEmailsFound (query : string)
| DQDryRun (query : string) (count : Z) (emails : list EmailDetail)
| DQDone (query : string) (successful failed : Z) (errors : list ItemError)
         (emails : list EmailDetail).

Definition email_detail (m : MessageRef) : M EmailDetail :=
  try_catch
    (msg ← get_message (id m);
     mret (mkDetail (id m) (from_header msg) (subject_header msg) (date_header msg) None))
    (fun e => mret (mkDetail (id m) "Unknown" "Error loading" "Unknown" (Some (message e)))).

(** [for (const email of emailDetails) { try { op(email.id); deletedIds.push }
    catch (err) { errors.push } }]. *)
Fixpoint each_individually (op : string -> M unit) (emails : list EmailDetail)
    (acc : list string * list ItemError) : M (list string * list ItemError) :=
  match emails with
  | [] => mret acc
  | email :: rest =>
      acc' ← try_catch
               (_ ← op (ed_id email); mret ((acc.1 ++ [ed_id email])%list, acc.2))
               (fun err => mret (acc.1, (acc.2 ++ [mkItemError (ed_id email) (message err)])%list));
      each_individually op rest acc'
  end.

(** The batch call on the whole page and, when it throws, the fallback to
    one call per message. *)
Definition batch_or_individually (batch_op : list string -> M unit)
    (item_op : string -> M unit) (emailDetails : list EmailDetail)
    : M (list string * list ItemError) :=
  try_catch
    (_ ← batch_op (map ed_id emailDetails); mret (map ed_id emailDetails, []))
    (fun _ => each_individually item_op emailDetails ([], [])).

Definition toolDeleteEmailsByQuery (args : DeleteByQueryArgs) : M DeleteByQueryPayload :=
  if negb (truthy_str (dq_query args)) then
    throw (McpError InvalidParams "query is required")
  else
    let query := default EmptyString (dq_query args) in
    let maxResults := Z.max 1 (Z.min 100 (num_or (dq_max args) 50)) in
    _ ← getGmail;
    l ← list_messages (mkListParams query maxResults None);
    let msgs := default [] (messages l) in
    if (length msgs =? 0)%nat then mret (DQNoEmailsFound query)
    else
      emailDetails ← promise_all (map email_detail msgs);
      if dq_dry_run args then
        mret (DQDryRun query (Z.of_nat (length emailDetails)) emailDetails)
      else
        '(deletedIds, errs) ←
          (if dq_permanent args then
             batch_or_individually batchDelete delete_message emailDetails
           else
             batch_or_individually
               (fun l => batchModify (mkModify l (Some ["TRASH"]) None))
               trash_message emailDetails);
        mret (DQDone query (Z.of_nat (length deletedIds)) (Z.of_nat (length errs)) errs
                (List.filter (fun e => includes deletedIds (ed_id e)) emailDetails)).

(** ** Query synthesis *)

(** [`from:${p}`], [`subject:"${t}"`] and the parenthesised OR-group. *)
Definition from_clause (p : string) : string := "from:" ++ p.

Definition subject_clause (t : string) : string := "subject:" ++ dquote ++ t ++ dquote.

Definition or_group (texts : list string) : string :=
  "(" ++ js_join " OR " (map subject_clause texts) ++ ")".

(** [a && Array.isArray(a) && a.length > 0]. *)
Definition nonempty_array (o : option (list string)) : bool :=
  match o with
  | Some (_ :: _) => true
  | _ => false
  end.

(** [conditions.push(c)] when [guard] holds. *)
Definition push_if (guard : bool) (c : string) (conditions : list string) : list string :=
  if guard then (conditions ++ [c])%list else conditions.

(** The [conditions] array of [toolAddAutoLabelingRule], built again in the
    same way by [toolUpdateAutoLabelingRule]. *)
Definition pattern_conditions (sender subject : option string)
    (contains : option (list string)) : list string :=
  let conditions := [] in
  let conditions :=
    push_if (truthy_str sender) (from_clause (default EmptyString sender)) conditions in
  let conditions :=
    push_if (truthy_str subject) (subject_clause (default EmptyString subject)) conditions in
  let conditions :=
    push_if (nonempty_array contains) (or_group (default [] contains)) conditions in
  conditions.

(** [searchQuery] of [toolAddAutoLabelingRule]. *)
Definition add_search_query (qry sender subject : option string)
    (contains : option (list string)) : string :=
  if truthy_str qry then default EmptyString qry
  else js_join " " (pattern_conditions sender subject contains).

(** [query] of [toolAutoLabelEmails]: sender and subject clauses only. *)
Definition auto_label_query (rule : Rule) : string :=
  if truthy_str (query rule) then default EmptyString (query rule)
  else
    let conditions := [] in
    let conditions :=
      push_if (truthy_str (sender_pattern rule))
              (from_clause (default EmptyString (sender_pattern rule))) conditions in
    let conditions :=
      push_if (truthy_str (subject_pattern rule))
              (subject_clause (default EmptyString (subject_pattern rule))) conditions in
    js_join " " conditions.

(** [searchQuery] of [toolRunAutoLabelingRules]: the stored query, or the
    OR-group of [subject_contains] when there is none. *)
Definition runner_query (rule : Rule) : option string :=
  let searchQuery := query rule in
  if negb (truthy_str searchQuery) && nonempty_array (subject_contains rule) then
    Some (or_group (default [] (subject_contains rule)))
  else searchQuery.

(** ** Rule results *)

Inductive RuleStatus := no_search_criteria | no_emails_found | dry_run_status | labeled.

Record RuleResult := mkRuleResult {
  rr_rule : string;
  rr_label_id : string;
  emails_found : Z;
  emails_labeled : option Z;
  rr_batches_processed : option Z;
  status : RuleStatus;
  rr_query : option string
}.

Record RuleError := mkRuleError { re_rule : string; re_error : string }.

(** What one iteration of a rule loop pushes. *)
Inductive RuleOutcome :=
| PushResult (r : RuleResult)
| PushError (e : RuleError).

Record RunReport := mkReport {
  rep_dry_run : bool;
  rules_processed : Z;        (* [rules_processed], [enabled_rules] *)
  rep_successful : Z;         (* [successful], [processed] *)
  rep_failed : Z;
  results : list RuleResult;
  rep_errors : list RuleError
}.

(** Find or create the label named [name]. *)
Definition find_or_create_label (name : string) : M string :=
  labels ← list_labels;
  match labels ≫= List.find (fun l => String.eqb (lbl_name l) name) with
  | Some existingLabel => mret (lbl_id existingLabel)
  | None => newLabel ← create_label name; mret (lbl_id newLabel)
  end.

Definition push_outcome (o : RuleOutcome) (acc : list RuleResult * list RuleError)
    : list RuleResult * list RuleError :=
  match o with
  | PushResult r => ((acc.1 ++ [r])%list, acc.2)
  | PushError e => (acc.1, (acc.2 ++ [e])%list)
  end.

(** ** [toolAutoLabelEmails] *)

Definition no_criteria_message : string :=
  "No search criteria provided (need sender_pattern, subject_pattern, or query)".

(** The [try] block of one rule. *)
Definition auto_label_body (dry_run : bool) (rule : Rule) : M RuleOutcome :=
  let qry := auto_label_query rule in
  if String.eqb qry EmptyString then
    mret (PushError (mkRuleError (label_name rule) no_criteria_message))
  else
    labelId ← find_or_create_label (label_name rule);
    l ← list_messages (mkListParams qry 100 None);
    let msgs := default [] (messages l) in
    if (length msgs =? 0)%nat then
      mret (PushResult (mkRuleResult (label_name rule) labelId 0 None None
                          no_emails_found None))
    else if dry_run then
      mret (PushResult (mkRuleResult (label_name rule) labelId (Z.of_nat (length msgs))
                          None None dry_run_status (Some qry)))
    else
      let messageIds := map id msgs in
      _ ← batchModify (mkModify messageIds (Some [labelId]) None);
      mret (PushResult (mkRuleResult (label_name rule) labelId (Z.of_nat (length msgs))
                          (Some (Z.of_nat (length messageIds))) None labeled (Some qry))).

Definition auto_label_rule (dry_run : bool) (rule : Rule) : M RuleOutcome :=
  try_catch (auto_label_body dry_run rule)
            (fun e => mret (PushError (mkRuleError (label_name rule) (message e)))).

Fixpoint auto_label_loop (dry_run : bool) (todo : list Rule)
    (acc : list RuleResult * list RuleError) : M (list RuleResult * list RuleError) :=
  match todo with
  | [] => mret acc
  | rule :: rest =>
      o ← auto_label_rule dry_run rule;
      auto_label_loop dry_run rest (push_outcome o acc)
  end.

Definition toolAutoLabelEmails (rs : option (list Rule)) (dry_run : bool) : M RunReport :=
  match rs with
  | None | Some [] => throw (McpError InvalidParams "rules array is required")
  | Some rs =>
      _ ← getGmail;
      acc ← auto_label_loop dry_run rs ([], []);
      mret (mkReport dry_run (Z.of_nat (length rs)) (Z.of_nat (length acc.1))
                     (Z.of_nat (length acc.2)) acc.1 acc.2)
  end.

(** ** The rule store tools *)

(** An argument for which [undefined] (not given) and [null] differ. *)
Inductive Arg (A : Type) :=
| Undefined
| Null
| Value (a : A).

Arguments Undefined {A}.
Arguments Null {A}.
Arguments Value {A} a.

(** [x !== undefined]. *)
Definition given {A} (x : Arg A) : bool :=
  match x with
  | Undefined => false
  | _ => true
  end.

(** The value a field holds once the argument is assigned to it. *)
Definition arg_value {A} (x : Arg A) : option A :=
  match x with
  | Value a => Some a
  | _ => None
  end.

(** [s || null] on a string. *)
Definition str_or_null (o : option string) : option string :=
  if truthy_str o then o else None.

Record FormattedRule := mkFormatted {
  f_index : Z;
  f_label_name : string;
  f_sender_pattern : option string;
  f_subject_pattern : option string;
  f_query : option string;
  f_enabled : bool;
  f_created : string;
  f_last_run : string
}.

(** [rule.enabled !== false]. *)
Definition is_enabled (rule : Rule) : bool :=
  match enabled rule with
  | Some false => false
  | _ => true
  end.

Definition format_rule (index : nat) (rule : Rule) : FormattedRule :=
  mkFormatted (Z.of_nat index) (label_name rule)
    (str_or_null (sender_pattern rule)) (str_or_null (subject_pattern rule))
    (str_or_null (query rule)) (is_enabled rule)
    (if truthy_str (created rule) then default EmptyString (created rule) else "Unknown")
    (if truthy_str (last_run rule) then default EmptyString (last_run rule) else "Never").

Definition toolListAutoLabelingRules : M (list FormattedRule) :=
  rs ← loadAutoLabelingRules;
  mret (imap format_rule rs).

Record AddRuleArgs := mkAddRuleArgs {
  a_label_name : option string;
  a_sender_pattern : option string;
  a_subject_pattern : option string;
  a_subject_contains : option (list string);
  a_query : option string;
  a_enabled : option bool           (* default true *)
}.

Record AddRulePayload := mkAddRulePayload {
  added_index : Z;
  added_rule : Rule;
  total_rules : Z
}.

Definition add_no_criteria_message : string :=
  "No search criteria provided (need sender_pattern, subject_pattern, subject_contains, or query)".

Definition toolAddAutoLabelingRule (args : AddRuleArgs) : M AddRulePayload :=
  if negb (truthy_str (a_label_name args)) then
    throw (McpError InvalidParams "label_name is required")
  else
    rs ← loadAutoLabelingRules;
    let searchQuery :=
      add_search_query (a_query args) (a_sender_pattern args) (a_subject_pattern args)
                       (a_subject_contains args) in
    if String.eqb searchQuery EmptyString then
      throw (McpError InvalidParams add_no_criteria_message)
    else
      t ← now;
      let newRule :=
        mkRule (default EmptyString (a_label_name args))
               (str_or_null (a_sender_pattern args))
               (str_or_null (a_subject_pattern args))
               (a_subject_contains args)
               (Some searchQuery)
               (Some (default true (a_enabled args)))
               (Some t) None None in
      let rs' := (rs ++ [newRule])%list in
      _ ← saveAutoLabelingRules rs';
      mret (mkAddRulePayload (Z.of_nat (length rs') - 1) newRule (Z.of_nat (length rs'))).

Record RemoveRulePayload := mkRemoveRulePayload {
  removed_index : Z;
  removed_rule : option Rule;
  remaining_rules : Z
}.

Definition index_message : string := "rule_index must be a non-negative number".

Definition out_of_range (rule_index : Z) (len : nat) : Exn :=
  McpError InvalidRequest
    ("Rule index " ++ pretty rule_index ++ " is out of range. Available rules: 0-"
       ++ pretty (Z.of_nat len - 1)).

Definition toolRemoveAutoLabelingRule (rule_index : option Z) : M RemoveRulePayload :=
  match rule_index with
  | None => throw (McpError InvalidParams index_message)
  | Some i =>
      if i <? 0 then throw (McpError InvalidParams index_message)
      else
        rs ← loadAutoLabelingRules;
        if i >=? Z.of_nat (length rs) then throw (out_of_range i (length rs))
        else
          let removedRule := rs !! Z.to_nat i in
          let rs' := delete (Z.to_nat i) rs in    (* [rules.splice(rule_index, 1)] *)
          _ ← saveAutoLabelingRules rs';
          mret (mkRemoveRulePayload i removedRule (Z.of_nat (length rs')))
  end.

Record UpdateRuleArgs := mkUpdateRuleArgs {
  u_rule_index : option Z;
  u_label_name : option string;
  u_sender_pattern : Arg string;
  u_subject_pattern : Arg string;
  u_subject_contains : Arg (list string);
  u_query : Arg string;
  u_enabled : option bool
}.

(** The field assignments [if (x !== undefined) rule.x = x]. *)
Definition assign_fields (args : UpdateRuleArgs) (rule : Rule) : Rule :=
  mkRule (default (label_name rule) (u_label_name args))
         (if given (u_sender_pattern args) then arg_value (u_sender_pattern args)
          else sender_pattern rule)
         (if given (u_subject_pattern args) then arg_value (u_subject_pattern args)
          else subject_pattern rule)
         (if given (u_subject_contains args) then arg_value (u_subject_contains args)
          else subject_contains rule)
         (if given (u_query args) then arg_value (u_query args) else query rule)
         (match u_enabled args with Some b => Some b | None => enabled rule end)
         (created rule) (last_run rule) (updated rule).

Definition set_query (qry : option string) (rule : Rule) : Rule :=
  mkRule (label_name rule) (sender_pattern rule) (subject_pattern rule)
         (subject_contains rule) qry (enabled rule) (created rule) (last_run rule)
         (updated rule).

Definition set_updated (t : string) (rule : Rule) : Rule :=
  mkRule (label_name rule) (sender_pattern rule) (subject_pattern rule)
         (subject_contains rule) (query rule) (enabled rule) (created rule)
         (last_run rule) (Some t).

Definition set_last_run (t : string) (rule : Rule) : Rule :=
  mkRule (label_name rule) (sender_pattern rule) (subject_pattern rule)
         (subject_contains rule) (query rule) (enabled rule) (created rule)
         (Some t) (updated rule).

(** The rebuild of the query when a pattern argument was given and the
    rule has a query but the call has none. *)
Definition rebuild_query (args : UpdateRuleArgs) (rule : Rule) : Rule :=
  if given (u_sender_pattern args) || given (u_subject_pattern args)
     || given (u_subject_contains args) then
    if truthy_str (query rule) && negb (truthy_str (arg_value (u_query args))) then
      set_query
        (Some (js_join " " (pattern_conditions (sender_pattern rule) (subject_pattern rule)
                                               (subject_contains rule))))
        rule
    else rule
  else rule.

Record UpdateRulePayload := mkUpdateRulePayload {
  up_rule_index : Z;
  original : Rule;
  up_updated : Rule
}.

Definition toolUpdateAutoLabelingRule (args : UpdateRuleArgs) : M UpdateRulePayload :=
  match u_rule_index args with
  | None => throw (McpError InvalidParams index_message)
  | Some i =>
      if i <? 0 then throw (McpError InvalidParams index_message)
      else
        rs ← loadAutoLabelingRules;
        match rs !! Z.to_nat i with
        | None => throw (out_of_range i (length rs))     (* [rule_index >= rules.length] *)
        | Some originalRule =>
            let rule := rebuild_query args (assign_fields args originalRule) in
            t ← now;
            let rule := set_updated t rule in
            _ ← saveAutoLabelingRules (<[Z.to_nat i := rule]> rs);
            mret (mkUpdateRulePayload i originalRule rule)
        end
  end.

(** ** [toolRunAutoLabelingRules] *)

(** The arguments, after the defaults of the destructuring
    ([dry_run = false], [max_per_rule = 100], [batch_size = 100],
    [max_batches = 10]). *)
Record RunArgs := mkRunArgs {
  r_dry_run : bool;
  r_max_per_rule : Z;       (* read, never used *)
  r_batch_size : Z;
  r_max_batches : Z
}.

(** The variables of the page loop of one rule. *)
Record Collected := mkCollected {
  totalEmailsFound : Z;
  allMessageIds : list string;
  col_token : option string;
  batchCount : Z
}.

(** [while (batchCount < max_batches) { ... }]. [batchCount] starts at 0 and
    grows by one per iteration that stays in the loop: [remaining] is
    [max_batches - batchCount], so that the guard holds exactly when it is
    not zero. *)
Fixpoint collect_pages (searchQuery : string) (batch_size : Z) (remaining : nat)
    (st : Collected) : M Collected :=
  match remaining with
  | O => mret st
  | S remaining' =>
      l ← list_messages
            (mkListParams searchQuery (Z.min batch_size 500)
               (if truthy_str (col_token st) then col_token st else None));
      let msgs := default [] (messages l) in
      if (length msgs =? 0)%nat then mret st
      else
        let st1 := mkCollected (totalEmailsFound st + Z.of_nat (length msgs))
                               (allMessageIds st ++ map id msgs)
                               (nextPageToken l) (batchCount st) in
        if negb (truthy_str (nextPageToken l)) then mret st1
        else
          collect_pages searchQuery batch_size remaining'
            (mkCollected (totalEmailsFound st1) (allMessageIds st1) (col_token st1)
                         (batchCount st1 + 1))
  end.

Definition maxBatchSize : nat := 1000.

(** [for (let i = 0; i < allMessageIds.length; i += maxBatchSize)]: the
    [k]-th iteration has [i = k * maxBatchSize]. *)
Fixpoint apply_chunks (labelId : string) (allIds : list string) (chunk_starts : list nat)
    (totalEmailsLabeled : Z) : M Z :=
  match chunk_starts with
  | [] => mret totalEmailsLabeled
  | i :: rest =>
      let batchIds := slice i (i + maxBatchSize) allIds in
      _ ← batchModify (mkModify batchIds (Some [labelId]) None);
      apply_chunks labelId allIds rest (totalEmailsLabeled + Z.of_nat (length batchIds))
  end.

Definition chunk_starts (len : nat) : list nat :=
  map (fun k => (k * maxBatchSize)%nat) (seq 0 (Nat.div (len + maxBatchSize - 1) maxBatchSize)).

(** The [try] block of one rule. [index] is the place of [rule] in the
    loaded array [rs]: [enabledRules] holds the objects of [rs], so that
    setting [rule.last_run] changes [rs], which is then saved whole. *)
Definition run_rule_body (args : RunArgs) (index : nat) (rule : Rule) (rs : list Rule)
    : M (RuleResult * list Rule) :=
  labelId ← find_or_create_label (label_name rule);
  let searchQuery := runner_query rule in
  if negb (truthy_str searchQuery) then
    mret (mkRuleResult (label_name rule) labelId 0 None None no_search_criteria None, rs)
  else
    let searchQuery := default EmptyString searchQuery in
    c ← collect_pages searchQuery (r_batch_size args) (Z.to_nat (r_max_batches args))
          (mkCollected 0 [] None 0);
    if totalEmailsFound c =? 0 then
      mret (mkRuleResult (label_name rule) labelId 0 None None no_emails_found None, rs)
    else if r_dry_run args then
      mret (mkRuleResult (label_name rule) labelId (totalEmailsFound c) None
                         (Some (batchCount c + 1)) dry_run_status (Some searchQuery), rs)
    else
      totalEmailsLabeled ←
        apply_chunks labelId (allMessageIds c) (chunk_starts (length (allMessageIds c))) 0;
      t ← now;
      let rs' := alter (set_last_run t) index rs in
      _ ← saveAutoLabelingRules rs';
      mret (mkRuleResult (label_name rule) labelId (totalEmailsFound c)
                         (Some totalEmailsLabeled) (Some (batchCount c + 1)) labeled
                         (Some searchQuery), rs').

(** The state of the rule loop: the loaded array and the two result lists. *)
Record RunState := mkRunState {
  mem_rules : list Rule;
  run_results : list RuleResult;
  run_errors : list RuleError
}.

(** One iteration: the [try] block, and the [catch] that records the
    error under the label name of the rule. *)
Definition run_rule (args : RunArgs) (index : nat) (rule : Rule) (st : RunState)
    : M RunState :=
  try_catch
    (out ← run_rule_body args index rule (mem_rules st);
     mret (mkRunState out.2 (run_results st ++ [out.1]) (run_errors st)))
    (fun e =>
     mret (mkRunState (mem_rules st) (run_results st)
                      (run_errors st ++ [mkRuleError (label_name rule) (message e)]))).

Fixpoint run_rules_loop (args : RunArgs) (todo : list (nat * Rule)) (st : RunState)
    : M RunState :=
  match todo with
  | [] => mret st
  | (index, rule) :: rest =>
      st' ← run_rule args index rule st;
      run_rules_loop args rest st'
  end.

(** [rules.filter(rule => rule.enabled !== false)], each rule with its
    place in [rules]. *)
Definition enabledRules (rs : list Rule) : list (nat * Rule) :=
  List.filter (fun ir => is_enabled ir.2) (imap pair rs).

Inductive RunPayload :=
| NoEnabledRules (total_rules : Z)
| RunCompleted (total_rules : Z) (report : RunReport).

Definition toolRunAutoLabelingRules (args : RunArgs) : M RunPayload :=
  rs ← loadAutoLabelingRules;
  let todo := enabledRules rs in
  if (length todo =? 0)%nat then mret (NoEnabledRules (Z.of_nat (length rs)))
  else
    _ ← getGmail;
    st ← run_rules_loop args todo (mkRunState rs [] []);
    mret (RunCompleted (Z.of_nat (length rs))
            (mkReport (r_dry_run args) (Z.of_nat (length todo))
                      (Z.of_nat (length (run_results st)))
                      (Z.of_nat (length (run_errors st)))
                      (run_results st) (run_errors st))).

End Server.

Arguments Ret {A} a.
Arguments Throw {A} e.
Arguments OutOfFuel {A}.
Arguments Undefined {A}.
Arguments Null {A}.
Arguments Value {A} a.

(** ** Accounting of a Batch Operation Result *)

Definition sum_counts (es : list BatchError) : Z :=
  foldr (fun e s => count e + s) 0 es.

(** [successful + failed == total_processed], and the failed items are
    those the error entries count. *)
Definition accounted (r : BatchResult) : Prop :=
  successful r + failed r = total_processed r /\
  failed r = sum_counts (errors r).

Definition accounted_state (st : LoopState) : Prop :=
  doneCount st + errorCount st = processedCount st /\
  errorCount st = sum_counts (loop_errors st).

(** A page either succeeds wholesale or fails wholesale with one error
    entry: the relation between the loop state before and after the
    [try]/[catch] of a page of [n] messages. *)
Definition page_outcome (batchSize : Z) (n : Z) (st st' : LoopState) : Prop :=
  (doneCount st' = doneCount st + n /\ errorCount st' = errorCount st /\
   loop_errors st' = loop_errors st) \/
  (exists msg,
     doneCount st' = doneCount st /\ errorCount st' = errorCount st + n /\
     loop_errors st' =
       (loop_errors st ++
          [mkBatchError (floor_div (processedCount st) batchSize + 1) msg n])%list).

(** ** [toolLabelEmailsByQuery] *)

Record LabelByQueryArgs := mkLabelByQueryArgs {
  lq_query : option string;
  lq_label_name : option string;
  lq_label_id : option string;
  lq_max : option Z;              (* default 100 *)
  lq_dry_run : bool
}.

Inductive LabelByQueryPayload :=
| LQNoEmailsFound (query : string)
| LQDryRun (query : string) (label_name : option string) (label_id : string)
           (emails_found : Z)
| LQLabeled (query : string) (label_name : option string) (label_id : string)
            (emails_labeled : Z).

Definition toolLabelEmailsByQuery (gmail : Gmail) (args : LabelByQueryArgs)
    : M gmail LabelByQueryPayload :=
  if negb (truthy_str (lq_query args)) then
    throw gmail (McpError InvalidParams "query is required")
  else if negb (truthy_str (lq_label_name args)) && negb (truthy_str (lq_label_id args)) then
    throw gmail (McpError InvalidParams "Either label_name or label_id is required")
  else
    let query := default EmptyString (lq_query args) in
    _ ← getGmail gmail;
    targetLabelId ←
      (if truthy_str (lq_label_name args) then
         find_or_create_label gmail (default EmptyString (lq_label_name args))
       else mret (default EmptyString (lq_label_id args)));
    let maxResults := Z.max 1 (Z.min 500 (default 100 (lq_max args))) in
    l ← list_messages gmail (mkListParams query maxResults None);
    let msgs := default [] (messages l) in
    if (length msgs =? 0)%nat then mret (LQNoEmailsFound query)
    else if lq_dry_run args then
      mret (LQDryRun query (lq_label_name args) targetLabelId (Z.of_nat (length msgs)))
    else
      let messageIds := map id msgs in
      _ ← batchModify gmail (mkModify messageIds (Some [targetLabelId]) None);
      mret (LQLabeled query (lq_label_name args) targetLabelId
              (Z.of_nat (length messageIds))).

(** ** Export and import of the rules

    The files that the export writes and the import reads are files of a
    disk apart from the rule file of the world: [read_json] is
    [fs.readFile] followed by [JSON.parse] and by the reading of the
    [version] and [rules] properties, and fails with the message of
    whichever of them throws; [write_json] is [fs.writeFile] of the
    serialized export. *)

Record ImportData := mkImportData {
  imp_version : option string;
  imp_rules : option (list Rule)      (* [rules], when it is an array *)
}.

Record ExportData := mkExportData {
  ex_version : string;
  exported : string;
  ex_rules : list Rule
}.

Record Disk := mkDisk {
  Fs : Type;
  read_json : Fs -> string -> string + ImportData;
  write_json : Fs -> string -> ExportData -> (string + unit) * Fs;
  in_config_dir : string -> string    (* [path.join(this.getConfigDir(), name)] *)
}.

(** [s.split('T')[0]]. *)
Fixpoint before_T (s : string) : string :=
  match s with
  | EmptyString => EmptyString
  | String c rest =>
      if Ascii.eqb c (Ascii.ascii_of_nat 84) then EmptyString
      else String c (before_T rest)
  end.

(** The payload of the export, without its [file_size], the length of the
    serialized export. *)
Record ExportPayload := mkExportPayload {
  export_path : string;
  rules_exported : Z
}.

Definition toolExportAutoLabelingRules (gmail : Gmail) (disk : Disk)
    (file_path : option string) (fs : Fs disk) (w : World gmail)
    : (Res ExportPayload * World gmail) * Fs disk :=
  match loadAutoLabelingRules gmail w with
  | (Ret rs, w1) =>
      let exportData := mkExportData "1.0.0" (clock gmail w1) rs in
      let exportPath :=
        if truthy_str file_path then default EmptyString file_path
        else in_config_dir disk
               ("auto-labeling-rules-backup-" ++ before_T (clock gmail w1) ++ ".json") in
      match write_json disk fs exportPath exportData with
      | (inl msg, fs') => ((Throw (JsError msg), w1), fs')
      | (inr _, fs') =>
          ((Ret (mkExportPayload exportPath (Z.of_nat (length rs))), w1), fs')
      end
  | (Throw e, w1) => ((Throw e, w1), fs)
  | (OutOfFuel, w1) => ((OutOfFuel, w1), fs)
  end.

Record ImportPayload := mkImportPayload {
  import_path : string;
  rules_imported : Z;
  imp_total_rules : Z;
  merge_mode : bool;
  imported_version : string
}.

Definition invalid_import_message : string :=
  "Invalid import file format. Expected " ++ dquote ++ "rules" ++ dquote ++ " array.".

Definition toolImportAutoLabelingRules (gmail : Gmail) (disk : Disk)
    (file_path : option string) (merge : bool) (fs : Fs disk) : M gmail ImportPayload :=
  if negb (truthy_str file_path) then
    throw gmail (McpError InvalidParams "file_path is required")
  else
    let path := default EmptyString file_path in
    try_catch gmail
      (match read_json disk fs path with
       | inl msg => throw gmail (JsError msg)
       | inr importData =>
           match imp_rules importData with
           | None => throw gmail (McpError InvalidRequest invalid_import_message)
           | Some imported =>
               rs ← (if merge then
                       existingRules ← loadAutoLabelingRules gmail;
                       mret (existingRules ++ imported)%list
                     else mret imported);
               _ ← saveAutoLabelingRules gmail rs;
               mret (mkImportPayload path (Z.of_nat (length imported))
                       (Z.of_nat (length rs)) merge
                       (if truthy_str (imp_version importData)
                        then default EmptyString (imp_version importData)
                        else "Unknown"))
           end
       end)
      (fun error =>
         match error with
         | McpError _ _ => throw gmail error
         | JsError m => throw gmail (McpError InternalError ("Failed to import rules: " ++ m))
         end).

(** A disk of named files, for the examples: a file holds what was last
    written to it; reading a file that was never written fails. *)
Fixpoint disk_lookup (p : string) (files : list (string * ImportData)) : string + ImportData :=
  match files with
  | [] => inl "ENOENT: no such file or directory"
  | (name, d) :: rest => if String.eqb name p then inr d else disk_lookup p rest
  end.

Definition test_disk : Disk :=
  mkDisk (list (string * ImportData)) (fun fs p => disk_lookup p fs)
         (fun fs p d =>
            (inr tt, (p, mkImportData (Some (ex_version d)) (Some (ex_rules d))) :: fs))
         (fun name => "/srv/mcp-gmail/" ++ name).

(** ** The stored rule list *)

(** The rule list that the file of a world holds, as
    [loadAutoLabelingRules] reads it. *)
Definition stored_rules {gmail : Gmail} (w : World gmail) : list Rule :=
  match rules_file gmail w with
  | Some cfg => default [] (rules cfg)
  | None => []
  end.

(** The update that sets the three pattern fields to [null] and gives no
    query. *)
Definition clear_patterns (rule_index : Z) : UpdateRuleArgs :=
  mkUpdateRuleArgs (Some rule_index) None Null Null Null Undefined None.

(** ** Observations on worlds *)

(** Two worlds that differ in the call log at most. *)
Definition same_state {gmail : Gmail} (w1 w2 : World gmail) : Prop :=
  mbox gmail w1 = mbox gmail w2 /\ rules_file gmail w1 = rules_file gmail w2 /\
  clock gmail w1 = clock gmail w2 /\ unauthorized gmail w1 = unauthorized gmail w2.

(** The calls that [w'] logged after [w] all satisfy [P]. *)
Definition logged_since {gmail : Gmail} (P : Call -> Prop) (w w' : World gmail) : Prop :=
  exists pre, calls gmail w' = (pre ++ calls gmail w)%list /\ Forall P pre.

(** The label named [name] is found by a label listing of the mailbox
    [mb], or the listing fails: resolving it creates nothing. *)
Definition label_resolves {gmail : Gmail} (mb : Mbox gmail) (name : string) : Prop :=
  match labels_list gmail mb with
  | inl _ => True
  | inr ls => is_Some (ls ≫= List.find (fun l => String.eqb (lbl_name l) name))
  end.

(** A computation keeps an invariant of the world. *)
Definition stable {gmail : Gmail} {A} (I : World gmail -> Prop) (m : M gmail A) : Prop :=
  forall w r w', I w -> m w = (r, w') -> I w'.

(** A computation does not read the call log: from worlds that differ in
    the log only it gives the same outcome, in worlds that differ in the
    log only. *)
Definition respects {gmail : Gmail} {A} (m : M gmail A) : Prop :=
  forall w1 w2, same_state w1 w2 ->
    (m w1).1 = (m w2).1 /\ same_state (m w1).2 (m w2).2.

(** A computation never exhausts an iteration bound. *)
Definition halts {gmail : Gmail} {A} (m : M gmail A) : Prop :=
  forall w, (m w).1 <> OutOfFuel.

(** What a dry run of the rule runner keeps of the world [w0] it started
    in: the rule file, and a log without a call that changes messages. *)
Definition dry_inv {gmail : Gmail} (w0 w : World gmail) : Prop :=
  rules_file gmail w = rules_file gmail w0 /\
  logged_since (fun c => modifies_messages c = false) w0 w.

(** The world [w] is [w0] but for read calls logged. *)
Definition untouched {gmail : Gmail} (w0 w : World gmail) : Prop :=
  same_state w0 w /\ logged_since (fun c => mutating c = false) w0 w.

(** ** The query synthesis of the specification

    Section 4.2, in its own words: the clauses of the pattern fields that
    are present (a string that is not empty, a sequence that is not
    empty), in the order sender, subject, subject-contains, joined by a
    single space. *)




(** ** A concrete mailbox, for the examples

    A mailbox that answers every query but [is:broken], which it rejects,
    with the same pages of message ids, reports a fixed estimate, can be told to fail its batch calls and
    its per-item calls, and records the mutations it accepted. *)

Record TestBox := mkTestBox {
  tb_first : list string * option string;
  tb_pages : list (string * (list string * option string));
  tb_estimate : option Z;
  tb_labels : list Label;
  tb_message_labels : list (string * list string);
  tb_batch_error : option string;
  tb_failing_items : list string;
  tb_applied : list Call
}.

Fixpoint page_of (tok : string) (ps : list (string * (list string * option string)))
    : list string * option string :=
  match ps with
  | [] => ([], None)
  | (t, pg) :: rest => if String.eqb t tok then pg else page_of tok rest
  end.

Fixpoint labels_of (i : string) (ls : list (string * list string)) : option (list string) :=
  match ls with
  | [] => None
  | (j, l) :: rest => if String.eqb j i then Some l else labels_of i rest
  end.

Definition tb_apply (c : Call) (b : TestBox) : TestBox :=
  mkTestBox (tb_first b) (tb_pages b) (tb_estimate b) (tb_labels b)
            (tb_message_labels b) (tb_batch_error b) (tb_failing_items b)
            (tb_applied b ++ [c]).

Definition tb_list (b : TestBox) (p : ListParams) : string + ListResponse :=
  let pg := match pageToken p with
            | None => tb_first b
            | Some t => page_of t (tb_pages b)
            end in
  if String.eqb (q p) "is:broken" then inl "search failed"
  else inr (mkListResponse (Some (map mkRef pg.1)) pg.2 (tb_estimate b)).

Definition tb_get (b : TestBox) (i : string) : string + MessageData :=
  inr (mkMessageData "sender@example.com" "Subject" "Mon, 1 Jan 2024"
                     (labels_of i (tb_message_labels b))).

Definition tb_batch (c : Call) (b : TestBox) : (string + unit) * TestBox :=
  match tb_batch_error b with
  | Some m => (inl m, b)
  | None => (inr tt, tb_apply c b)
  end.

Definition tb_item (c : Call) (i : string) (b : TestBox) : (string + unit) * TestBox :=
  if includes (tb_failing_items b) i then (inl "item failed", b)
  else (inr tt, tb_apply c b).

Definition tb_create (b : TestBox) (name : string) : (string + Label) * TestBox :=
  let l := mkLabel ("Label_" ++ name) name in
  (inr l,
   mkTestBox (tb_first b) (tb_pages b) (tb_estimate b) (tb_labels b ++ [l])
             (tb_message_labels b) (tb_batch_error b) (tb_failing_items b)
             (tb_applied b ++ [CLabelsCreate name])).

Definition test_gmail : Gmail :=
  mkGmail TestBox tb_list tb_get (fun b => inr (Some (tb_labels b)))
          (fun b l => tb_batch (CBatchDelete l) b)
          (fun b r => tb_batch (CBatchModify r) b)
          (fun b i => tb_item (CDelete i) i b)
          (fun b i => tb_item (CTrash i) i b)
          tb_create.

Definition test_world (b : TestBox) (file : option RuleSetConfig) : World test_gmail :=
  mkWorld test_gmail b file "2024-01-01T00:00:00.000Z" None [].

(** Message ids [m<start>], ..., [m<start+n-1>]. *)
Definition ids_from (start n : nat) : list string :=
  map (fun k => "m" ++ pretty (Z.of_nat k)) (seq start n).

(** 250 matching messages in pages of 100, 100 and 50, with an exact
    estimate. *)
Definition box250 : TestBox :=
  mkTestBox (ids_from 0 100, Some "p2")
            [("p2", (ids_from 100 100, Some "p3")); ("p3", (ids_from 200 50, None))]
            (Some 250) [] [] None [] [].

(** 15 matching messages in pages of 10 and 5, with an estimate of 1. *)
Definition undercount_box : TestBox :=
  mkTestBox (ids_from 0 10, Some "p2") [("p2", (ids_from 10 5, None))]
            (Some 1) [] [] None [] [].

(** 250 matching messages, pages of 100, every batch call failing. *)
Definition failing_box250 : TestBox :=
  mkTestBox (tb_first box250) (tb_pages box250) (tb_estimate box250) [] []
            (Some "backend error") [] [].

(** Three matching messages on one page; the batch calls fail, the
    per-item calls fail on the ids of [failing]. *)
Definition batch_failing_box (failing : list string) : TestBox :=
  mkTestBox (["a"; "b"; "c"], None) [] (Some 3) [] [] (Some "batch failed") failing [].

(** One matching message, labelled INBOX, UNREAD and Project-X. *)
Definition replace_box : TestBox :=
  mkTestBox (["m1"], None) [] (Some 1) []
            [("m1", ["INBOX"; "UNREAD"; "Project-X"])] None [] [].

(** The list calls of a log. *)
Definition is_list_call (c : Call) : bool :=
  match c with
  | CList _ => true
  | _ => false
  end.


Definition sender_only_rule : Rule :=
  mkRule "Work" (Some "@example.com") None None None None None None None.

(** A mailbox with three matching messages on one page. *)
Definition plain_box : TestBox :=
  mkTestBox (["a"; "b"; "c"], None) [] (Some 3) [] [] None [] [].

Definition rule_file (rs : list Rule) : option RuleSetConfig :=
  Some (mkConfig "1.0.0" "2023-12-31T00:00:00.000Z" (Some rs)).

Definition rule_A : Rule :=
  mkRule "A" (Some "@a.com") None None (Some "from:@a.com") (Some true) None None None.

Definition rule_B : Rule :=
  mkRule "B" (Some "@b.com") None None (Some "from:@b.com") None None None None.

Definition rule_C : Rule :=
  mkRule "C" (Some "@c.com") None None (Some "from:@c.com") (Some false) None None None.

Definition three_rules : list Rule := [rule_A; rule_B; rule_C].

Definition broken_rule : Rule :=
  mkRule "Broken" None None None (Some "is:broken") None None None None.

(** A rule with no query and no pattern. *)
Definition empty_rule : Rule :=
  mkRule "Empty" None None None None None None None None.

(** The three-message mailbox, with the label B. *)
Definition labelled_box : TestBox :=
  mkTestBox (["a"; "b"; "c"], None) [] (Some 3) [mkLabel "Label_7" "B"] [] None [] [].

(** A mailbox out of reach: every call fails. *)
Definition down_gmail : Gmail :=
  mkGmail unit
          (fun _ _ => inl "unavailable") (fun _ _ => inl "unavailable")
          (fun _ => inl "unavailable")
          (fun m _ => (inl "unavailable", m)) (fun m _ => (inl "unavailable", m))
          (fun m _ => (inl "unavailable", m)) (fun m _ => (inl "unavailable", m))
          (fun m _ => (inl "unavailable", m)).

Definition down_world (file : option RuleSetConfig) : World down_gmail :=
  mkWorld down_gmail tt file "2024-01-01T00:00:00.000Z" None [].

(** ** Notions for the further properties *)


(** A rule without its last-run stamp. *)
Definition clear_last_run (rule : Rule) : Rule :=
  mkRule (label_name rule) (sender_pattern rule) (subject_pattern rule)
         (subject_contains rule) (query rule) (enabled rule) (created rule) None
         (updated rule).


(** The label name under which an outcome is recorded. *)
Definition outcome_label (o : RuleOutcome) : string :=
  match o with
  | PushResult r => rr_rule r
  | PushError e => re_rule e
  end.

(** A call that deletes messages for good. *)
Definition deletes_for_good (c : Call) : bool :=
  match c with
  | CBatchDelete _ | CDelete _ => true
  | _ => false
  end.

(** The calls [toolBulkDeleteEmails] may issue for the arguments [args]:
    listings for the query, of size 1 (the probe) or of the clamped batch
    size, and batch calls on non-empty pages that trash, or delete when
    [permanent] is set. *)
Definition bulk_delete_call (args : BulkDeleteArgs) (c : Call) : Prop :=
  match c with
  | CList p =>
      q p = default EmptyString (bd_query args) /\
      (maxResults p = 1 \/
       maxResults p = clamp_batch (num_or (bd_batch_size args) 100))
  | CBatchModify r =>
      bd_permanent args = false /\ ids r <> [] /\
      addLabelIds r = Some ["TRASH"] /\ removeLabelIds r = None
  | CBatchDelete l => bd_permanent args = true /\ l <> []
  | _ => False
  end.

(** The label changes a batch-modify request of [toolBulkLabelEmails]
    carries, by operation. *)
Definition label_change (operation : string) (label_ids : list string) (r : ModifyRequest)
    : Prop :=
  if String.eqb operation "add" then
    addLabelIds r = Some label_ids /\ removeLabelIds r = None
  else if String.eqb operation "remove" then
    addLabelIds r = None /\ removeLabelIds r = Some label_ids
  else if String.eqb operation "replace" then
    addLabelIds r = Some label_ids /\
    exists removed, removeLabelIds r = Some removed /\
                    forall l, In l removed -> ~ In l systemLabels
  else
    addLabelIds r = None /\ removeLabelIds r = None.

(** The calls [toolBulkLabelEmails] may issue. *)
Definition bulk_label_call (qry operation : string) (label_ids : list string) (c : Call)
    : Prop :=
  match c with
  | CList p => q p = qry /\ (maxResults p = 1 \/ 10 <= maxResults p <= 500)
  | CGet _ => operation = "replace"
  | CBatchModify r => ids r <> [] /\ label_change operation label_ids r
  | _ => False
  end.

(** ** The text of a message *)

(** A MIME part as the extractors read it: its type, the data of its
    body ([payload.body?.data]) and its parts, when they are an array. *)
#[warnings="-register-all"]
Inductive Payload : Type :=
  mkPayload (mimeType : option string) (body_data : option string)
            (parts : option (list Payload)).

Definition mimeType (p : Payload) : option string :=
  match p with mkPayload m _ _ => m end.
Definition body_data (p : Payload) : option string :=
  match p with mkPayload _ d _ => d end.
Definition parts (p : Payload) : option (list Payload) :=
  match p with mkPayload _ _ ps => ps end.

(** [payload.mimeType === mime && payload.body?.data]. *)
Definition has_body_of (mime : string) (p : Payload) : bool :=
  match mimeType p with
  | Some m => String.eqb m mime
  | None => false
  end && truthy_str (body_data p).

(** The loop over the parts: the first text that is not empty. *)
Definition first_text (extract : Payload -> string) : list Payload -> string :=
  fix each (ps : list Payload) : string :=
    match ps with
    | [] => EmptyString
    | part :: rest =>
        let text := extract part in
        if truthy_str (Some text) then text else each rest
    end.

(** The body of [extractPlainText] and of [extractHtmlContent], which
    differ in the MIME type they look for only. [decodeBase64Url] is the
    decoder of the body data. *)
Fixpoint extract_of_type (decodeBase64Url : string -> string) (mime : string)
    (payload : Payload) : string :=
  match payload with
  | mkPayload mt data ps =>
      if has_body_of mime (mkPayload mt data ps) then
        decodeBase64Url (default EmptyString data)
      else
        match ps with
        | Some l => first_text (extract_of_type decodeBase64Url mime) l
        | None => EmptyString
        end
  end.

Definition extractPlainText (decodeBase64Url : string -> string)
    (payload : option Payload) : string :=
  match payload with
  | None => EmptyString
  | Some p => extract_of_type decodeBase64Url "text/plain" p
  end.

Definition extractHtmlContent (decodeBase64Url : string -> string)
    (payload : option Payload) : string :=
  match payload with
  | None => EmptyString
  | Some p => extract_of_type decodeBase64Url "text/html" p
  end.

Record EmailContent := mkEmailContent {
  plainText : string;
  htmlContent : string;
  hasHtml : bool
}.

Definition extractEmailContent (decodeBase64Url : string -> string)
    (payload : option Payload) : EmailContent :=
  let plainText := extractPlainText decodeBase64Url payload in
  let htmlContent := extractHtmlContent decodeBase64Url payload in
  mkEmailContent plainText htmlContent (truthy_str (Some htmlContent)).

(** The parts that a search for [mime] can come to: the payload itself,
    and what it comes to from a part of a payload that has no body of
    the type itself. *)
Inductive searched (mime : string) : Payload -> Payload -> Prop :=
  | searched_here p : searched mime p p
  | searched_part p ps part q :
      has_body_of mime p = false -> parts p = Some ps -> In part ps ->
      searched mime part q -> searched mime p q.

(** A part with a body of the type [mime] that decodes to [text]. *)
Definition decodes_to (decodeBase64Url : string -> string) (mime : string)
    (q : Payload) (text : string) : Prop :=
  has_body_of mime q = true /\ text = decodeBase64Url (default EmptyString (body_data q)).

(** A multipart message: an alternative of a plain and an HTML body, the
    plain one empty, followed by a plain attachment. *)
Definition multipart_example : Payload :=
  mkPayload (Some "multipart/mixed") None
    (Some [mkPayload (Some "multipart/alternative") None
             (Some [mkPayload (Some "text/plain") (Some "-") None;
                    mkPayload (Some "text/html") (Some "<p>hi</p>") None]);
           mkPayload (Some "text/plain") (Some "notes") (Some [])]).

(** A decoder for the examples: the data itself, and nothing for ["-"]. *)
Definition plain_decoder (data : string) : string :=
  if String.eqb data "-" then EmptyString else data.

(** ** The days parameter *)

(** The days parameter is a JavaScript string: a sequence of UTF-16 code
    units. [units_of] gives the code units of a string of ASCII
    characters, such as the literals of the source and a decimal
    numeral. *)
Definition char_code (c : Ascii.ascii) : N := Ascii.N_of_ascii c.

Definition units_of (s : string) : list N :=
  map char_code (String.list_ascii_of_string s).

(** The class [\d]. *)
Definition is_digit (c : N) : bool := ((48 <=? c) && (c <=? 57))%N.

(** The white space that [trim] removes and that [\s] matches: the
    WhiteSpace and LineTerminator code points of ECMAScript, that is
    U+0009 to U+000D, U+0020, U+00A0, U+1680, U+2000 to U+200A, U+2028,
    U+2029, U+202F, U+205F, U+3000 and U+FEFF. *)
Definition is_space (c : N) : bool :=
  (((9 <=? c) && (c <=? 13)) || (c =? 32) || (c =? 160) || (c =? 5760) ||
   ((8192 <=? c) && (c <=? 8202)) || (c =? 8232) || (c =? 8233) || (c =? 8239) ||
   (c =? 8287) || (c =? 12288) || (c =? 65279))%N.

Fixpoint trimStart (s : list N) : list N :=
  match s with
  | [] => []
  | c :: rest => if is_space c then trimStart rest else s
  end.

Fixpoint trimEnd (s : list N) : list N :=
  match s with
  | [] => []
  | c :: rest =>
      match trimEnd rest with
      | [] => if is_space c then [] else [c]
      | kept => c :: kept
      end
  end.

Definition trim (s : list N) : list N := trimEnd (trimStart s).

(** What is left of [s] after the prefix [p], when [s] begins with it. *)
Fixpoint strip_prefix (p s : list N) : option (list N) :=
  match p, s with
  | [], _ => Some s
  | a :: p', b :: s' => if (a =? b)%N then strip_prefix p' s' else None
  | _ :: _, [] => None
  end.

(** [s.replace(/^p/, '')] for a literal [p]. *)
Definition replace_prefix (p s : list N) : list N :=
  default s (strip_prefix p s).

(** [s.replace(/^days?\s*/, '')]. *)
Definition replace_days (s : list N) : list N :=
  match strip_prefix (units_of "day") s with
  | Some rest => trimStart (replace_prefix (units_of "s") rest)
  | None => s
  end.

(** The group of [s.match(/^(\d+)/)], empty when there is no match. *)
Fixpoint leading_digits (s : list N) : list N :=
  match s with
  | [] => []
  | c :: rest => if is_digit c then c :: leading_digits rest else []
  end.

Fixpoint parse_digits (acc : Z) (s : list N) : Z :=
  match s with
  | [] => acc
  | c :: rest => parse_digits (10 * acc + (Z.of_N c - 48)) rest
  end.

(** [parseInt(s, 10)] on a string of digits. Beyond 2^53 the number that
    JavaScript gives is a rounding of this one; both are above 30, which
    is all that [parseDaysParameter] looks at. *)
Definition parseInt10 (s : list N) : Z := parse_digits 0 s.

Section DaysParameter.

(** [String.prototype.toLowerCase], the case conversion of Unicode, is a
    parameter of the model. *)
Variable toLowerCase : list N -> list N.

Definition parseDaysParameter (daysStr : option (list N)) : Z :=
  match daysStr with
  | None | Some [] => 7
  | Some s =>
      let str := trim (toLowerCase s) in
      let cleaned := replace_days (replace_prefix (units_of "--") str) in
      match leading_digits cleaned with
      | [] => 7
      | digits => Z.max 1 (Z.min 30 (parseInt10 digits))
      end
  end.

End DaysParameter.

(** What the case conversion does to an ASCII code unit; it leaves white
    space as it is. *)
Definition lower_ascii (c : N) : N :=
  if ((65 <=? c) && (c <=? 90))%N then (c + 32)%N else c.

(** A code unit that is ASCII or white space. On a string of such code
    units [toLowerCase] converts unit by unit. *)
Definition plain (c : N) : bool := ((c <? 128)%N || is_space c).

Definition converts_plain_text (toLowerCase : list N -> list N) : Prop :=
  forall s, forallb plain s = true -> toLowerCase s = map lower_ascii s.

(** The first code unit of a string is of a class. *)
Definition starts_with (f : N -> bool) (s : list N) : bool :=
  match s with
  | [] => false
  | c :: _ => f c
  end.

(** The prefixes that the cleaning removes in front of a number: the
    word, in lower case, and the white space after it. *)
Definition days_word (lw gap : list N) : Prop :=
  (lw = [] /\ gap = []) \/
  ((lw = units_of "day" \/ lw = units_of "days") /\ forallb is_space gap = true).

(** ** Basic facts about the monad *)

Section MonadFacts.

Context {gmail : Gmail}.

Lemma bind_ret {A B} (m : M gmail A) (f : A -> M gmail B) w b w' :
  (m ≫= f) w = (Ret b, w') ->
  exists a w1, m w = (Ret a, w1) /\ f a w1 = (Ret b, w').
Proof.
  unfold mbind, M_bind. destruct (m w) as [[a | e |] w1]; intros H;
    [eauto | discriminate | discriminate].
Qed.

Lemma read_call_fuel {A} c (f : Mbox gmail -> string + A) w :
  (read_call gmail c f w).1 <> OutOfFuel.
Proof. unfold read_call, lift_err. simpl. destruct (f (mbox gmail w)); discriminate. Qed.

Lemma write_call_fuel {A} c (f : Mbox gmail -> (string + A) * Mbox gmail) w :
  (write_call gmail c f w).1 <> OutOfFuel.
Proof.
  unfold write_call, lift_err. destruct (f (mbox gmail w)) as [[m | a] mb]; discriminate.
Qed.

Lemma get_message_fuel i w : (get_message gmail i w).1 <> OutOfFuel.
Proof. apply read_call_fuel. Qed.

Lemma promise_all_reads_fuel l w :
  (promise_all gmail (map (get_message gmail) l) w).1 <> OutOfFuel.
Proof.
  revert w. induction l as [| x l IH]; intros w; [simpl; discriminate |].
  cbn [map promise_all].
  pose proof (get_message_fuel x w) as Hr.
  destruct (get_message gmail x w) as [r w1].
  specialize (IH w1).
  destruct (promise_all gmail (map (get_message gmail) l) w1) as [rs w2].
  simpl in *. destruct r, rs; simpl; congruence.
Qed.

End MonadFacts.

(** ** The pagination loop of the bulk tools *)

Section BulkFacts.

Context {gmail : Gmail}.

Variables (query : string) (batchSize totalCount : Z).
Variable action : list string -> M gmail unit.

Lemma page_attempt_ret ids st w st' w' :
  page_attempt gmail batchSize action ids st w = (Ret st', w') ->
  processedCount st' = processedCount st /\ loop_token st' = loop_token st /\
  page_outcome batchSize (Z.of_nat (length ids)) st st'.
Proof.
  unfold page_attempt, try_catch, mbind, M_bind, mret, M_ret, page_outcome.
  destruct (action ids w) as [[[] | e |] w1]; intros H; inversion H; subst; simpl.
  - split; [reflexivity | split; [reflexivity |]]. left. auto.
  - split; [reflexivity | split; [reflexivity |]]. right. exists (message e). auto.
Qed.

Lemma page_attempt_fuel ids st w :
  (action ids w).1 <> OutOfFuel ->
  (page_attempt gmail batchSize action ids st w).1 <> OutOfFuel.
Proof.
  unfold page_attempt, try_catch, mbind, M_bind, mret, M_ret.
  destruct (action ids w) as [[[] | e |] w1]; simpl; congruence.
Qed.

Lemma sum_counts_app es e : sum_counts (es ++ [e]) = sum_counts es + count e.
Proof. unfold sum_counts. induction es as [| x es IH]; simpl; lia. Qed.

Lemma page_outcome_accounted n st st' :
  processedCount st' = processedCount st ->
  page_outcome batchSize n st st' ->
  accounted_state st ->
  doneCount st' + errorCount st' = processedCount st' + n /\
  errorCount st' = sum_counts (loop_errors st').
Proof.
  unfold accounted_state. intros Hp [(Hd & He & Hl) | (msg & Hd & He & Hl)] [H1 H2].
  - rewrite Hd, He, Hl, Hp. lia.
  - rewrite Hd, He, Hl, Hp, sum_counts_app. simpl. lia.
Qed.

(** One unfolding of the loop, for a state that passes the guard. *)
Lemma bulk_loop_step fuel st :
  bulk_loop gmail query batchSize totalCount action (S fuel) st =
  if processedCount st <? totalCount then
    batchList ← list_messages gmail (page_params query batchSize (loop_token st));
    let msgs := default [] (messages batchList) in
    let tok := nextPageToken batchList in
    if (length msgs =? 0)%nat then
      mret (mkLoop (processedCount st) (doneCount st) (errorCount st)
                   (loop_errors st) tok)
    else
      st1 ← page_attempt gmail batchSize action (map id msgs)
              (mkLoop (processedCount st) (doneCount st) (errorCount st)
                      (loop_errors st) tok);
      let st2 := mkLoop (processedCount st1 + Z.of_nat (length msgs))
                        (doneCount st1) (errorCount st1) (loop_errors st1) tok in
      if negb (truthy_str tok) then mret st2
      else bulk_loop gmail query batchSize totalCount action fuel st2
  else mret st.
Proof. reflexivity. Qed.

Lemma bulk_loop_accounted fuel : forall st w st' w',
  bulk_loop gmail query batchSize totalCount action fuel st w = (Ret st', w') ->
  accounted_state st -> accounted_state st'.
Proof.
  induction fuel as [| fuel IH]; intros st w st' w' Hrun Hacc.
  - simpl in Hrun. destruct (processedCount st <? totalCount); [discriminate |].
    inversion Hrun; subst; assumption.
  - rewrite bulk_loop_step in Hrun.
    destruct (processedCount st <? totalCount);
      [| inversion Hrun; subst; assumption].
    apply bind_ret in Hrun as (batchList & w1 & _ & Hrun). cbv zeta in Hrun.
    destruct (length (default [] (messages batchList)) =? 0)%nat.
    { inversion Hrun; subst. exact Hacc. }
    apply bind_ret in Hrun as (st1 & w2 & Hpage & Hrun).
    apply page_attempt_ret in Hpage as (Hp & _ & Hout).
    rewrite length_map in Hout.
    pose proof (page_outcome_accounted _ _ _ Hp Hout Hacc) as [Hsum Herr].
    simpl in Hp.
    set (st2 := mkLoop _ _ _ _ _) in Hrun.
    assert (accounted_state st2) as Hacc2
      by (unfold accounted_state, st2; simpl; split; [lia | exact Herr]).
    destruct (negb (truthy_str (nextPageToken batchList))).
    + inversion Hrun; subst. exact Hacc2.
    + eapply IH; eassumption.
Qed.

(** The bound on the iterations is never reached: a loop started with at
    least [totalCount - processedCount] iterations to go leaves by its
    guard or by a [break]. *)
Lemma bulk_loop_fuel fuel : forall st w,
  (forall ids w0, (action ids w0).1 <> OutOfFuel) ->
  (Z.to_nat (totalCount - processedCount st) <= fuel)%nat ->
  (bulk_loop gmail query batchSize totalCount action fuel st w).1 <> OutOfFuel.
Proof.
  induction fuel as [| fuel IH]; intros st w Hact Hfuel.
  - simpl. destruct (Z.ltb_spec (processedCount st) totalCount); [lia | discriminate].
  - rewrite bulk_loop_step.
    destruct (Z.ltb_spec (processedCount st) totalCount); [| discriminate].
    unfold mbind at 1, M_bind at 1.
    pose proof (read_call_fuel
                  (CList (page_params query batchSize (loop_token st)))
                  (fun m => messages_list gmail m
                              (page_params query batchSize (loop_token st))) w) as Hl.
    fold (list_messages gmail (page_params query batchSize (loop_token st))) in Hl.
    destruct (list_messages gmail _ w) as [[batchList | e |] w1];
      [| discriminate | simpl in Hl; congruence].
    cbv zeta.
    destruct (Nat.eqb_spec (length (default [] (messages batchList))) 0);
      [discriminate |].
    unfold mbind, M_bind.
    match goal with |- context [page_attempt gmail batchSize action ?i ?s w1] =>
      pose proof (page_attempt_fuel i s w1 (Hact _ _)) as Hpf;
      destruct (page_attempt gmail batchSize action i s w1) as [[st1 | e |] w2] eqn:Hpage
    end; [| discriminate | simpl in Hpf; congruence].
    apply page_attempt_ret in Hpage as (Hp & _ & _). simpl in Hp.
    destruct (negb (truthy_str (nextPageToken batchList))); [discriminate |].
    apply IH; [exact Hact |]. simpl. lia.
Qed.

End BulkFacts.

(** ** The bulk tools return, and account for every page *)

Section BulkTools.

Context {gmail : Gmail}.

Lemma delete_action_fuel permanent ids w :
  (delete_action gmail permanent ids w).1 <> OutOfFuel.
Proof. unfold delete_action. destruct permanent; apply write_call_fuel. Qed.

Lemma label_action_fuel operation label_ids ids w :
  (label_action gmail operation label_ids ids w).1 <> OutOfFuel.
Proof.
  unfold label_action, label_request, mbind, M_bind, mret, M_ret.
  destruct (String.eqb operation "add"); [apply write_call_fuel |].
  destruct (String.eqb operation "remove"); [apply write_call_fuel |].
  destruct (String.eqb operation "replace"); [| apply write_call_fuel].
  pose proof (promise_all_reads_fuel (gmail := gmail) ids w) as Hp.
  destruct (promise_all gmail (map (get_message gmail) ids) w) as [[msgs | e |] w1];
    [apply write_call_fuel | discriminate | simpl in Hp; congruence].
Qed.

Lemma probe_fuel qry w : (probe gmail qry w).1 <> OutOfFuel.
Proof.
  unfold probe, mbind, M_bind, mret, M_ret.
  pose proof (read_call_fuel (CList (mkListParams qry 1 None))
                (fun m => messages_list gmail m (mkListParams qry 1 None)) w) as Hl.
  fold (list_messages gmail (mkListParams qry 1 None)) in Hl.
  destruct (list_messages gmail _ w) as [[l | e |] w1]; simpl in *; congruence.
Qed.

Lemma accounted_init : accounted_state loop_init.
Proof. split; reflexivity. Qed.

Lemma bulk_delete_accounted args w qry r w' :
  toolBulkDeleteEmails gmail args w = (Ret (BulkCompleted qry r), w') -> accounted r.
Proof.
  unfold toolBulkDeleteEmails. intros H.
  destruct (negb (truthy_str (bd_query args))); [discriminate |].
  apply bind_ret in H as ([] & w1 & _ & H).
  apply bind_ret in H as (totalCount & w2 & _ & H).
  destruct (totalCount =? 0); [discriminate |].
  destruct (bd_dry_run args); [discriminate |].
  apply bind_ret in H as (st & w3 & Hloop & H).
  inversion H; subst.
  apply bulk_loop_accounted in Hloop; [exact Hloop | exact accounted_init].
Qed.

Lemma bulk_label_accounted args w qry op r ls w' :
  toolBulkLabelEmails gmail args w = (Ret (LabelCompleted qry op r ls), w') -> accounted r.
Proof.
  unfold toolBulkLabelEmails. intros H.
  destruct (negb (truthy_str (bl_query args))); [discriminate |].
  destruct (bl_label_ids args) as [[| l0 label_ids] |]; try discriminate.
  apply bind_ret in H as ([] & w1 & _ & H).
  apply bind_ret in H as (totalCount & w2 & _ & H).
  destruct (totalCount =? 0); [discriminate |].
  destruct (bl_dry_run args); [discriminate |].
  apply bind_ret in H as (st & w3 & Hloop & H).
  inversion H; subst.
  apply bulk_loop_accounted in Hloop; [exact Hloop | exact accounted_init].
Qed.

Lemma getGmail_cases w :
  getGmail gmail w = (Ret tt, w) \/ exists e, getGmail gmail w = (Throw e, w).
Proof. unfold getGmail. destruct (unauthorized gmail w); eauto. Qed.

Lemma bulk_delete_returns args w : (toolBulkDeleteEmails gmail args w).1 <> OutOfFuel.
Proof.
  unfold toolBulkDeleteEmails.
  destruct (negb (truthy_str (bd_query args))); [discriminate |].
  unfold mbind at 1, M_bind at 1.
  destruct (getGmail_cases w) as [-> | [e ->]]; [| discriminate].
  unfold mbind at 1, M_bind at 1.
  pose proof (probe_fuel (default EmptyString (bd_query args)) w) as Hp.
  destruct (probe gmail _ w) as [[totalCount | e |] w1];
    [| discriminate | simpl in Hp; congruence].
  destruct (totalCount =? 0); [discriminate |].
  destruct (bd_dry_run args); [discriminate |].
  unfold mbind, M_bind.
  match goal with |- context [bulk_loop gmail ?a ?b ?c ?d ?f ?s w1] =>
    pose proof (bulk_loop_fuel a b c d f s w1 (delete_action_fuel _)) as Hf;
    destruct (bulk_loop gmail a b c d f s w1) as [[st | e |] w2]
  end; [discriminate | discriminate |].
  simpl in Hf. exfalso. apply Hf; [lia | reflexivity].
Qed.

Lemma bulk_label_returns args w : (toolBulkLabelEmails gmail args w).1 <> OutOfFuel.
Proof.
  unfold toolBulkLabelEmails.
  destruct (negb (truthy_str (bl_query args))); [discriminate |].
  destruct (bl_label_ids args) as [[| l0 label_ids] |]; try discriminate.
  unfold mbind at 1, M_bind at 1.
  destruct (getGmail_cases w) as [-> | [e ->]]; [| discriminate].
  unfold mbind at 1, M_bind at 1.
  pose proof (probe_fuel (default EmptyString (bl_query args)) w) as Hp.
  destruct (probe gmail _ w) as [[totalCount | e |] w1];
    [| discriminate | simpl in Hp; congruence].
  destruct (totalCount =? 0); [discriminate |].
  destruct (bl_dry_run args); [discriminate |].
  unfold mbind, M_bind.
  match goal with |- context [bulk_loop gmail ?a ?b ?c ?d ?f ?s w1] =>
    pose proof (bulk_loop_fuel a b c d f s w1 (label_action_fuel _ _)) as Hf;
    destruct (bulk_loop gmail a b c d f s w1) as [[st | e |] w2]
  end; [discriminate | discriminate |].
  simpl in Hf. exfalso. apply Hf; [lia | reflexivity].
Qed.

End BulkTools.

(** ** The claims about the bulk tools *)

(** C4. Every run of [toolBulkDeleteEmails] and of [toolBulkLabelEmails]
    that returns a Batch Operation Result returns one with
    [successful + failed = total_processed], the failed items being those
    counted by the error entries; a page adds its whole message count to
    the successes when its batch action succeeds, and otherwise its whole
    count to the failures with one error entry holding the batch index,
    the error message and the item count. Neither tool exhausts the
    iteration bound of its loop. *)
Theorem bulk_result_accounting (gmail : Gmail) :
  (forall args w qry r w',
     toolBulkDeleteEmails gmail args w = (Ret (BulkCompleted qry r), w') ->
     accounted r) /\
  (forall args w qry op r ls w',
     toolBulkLabelEmails gmail args w = (Ret (LabelCompleted qry op r ls), w') ->
     accounted r) /\
  (forall batchSize action ids st w st' w',
     page_attempt gmail batchSize action ids st w = (Ret st', w') ->
     (action ids w = (Ret tt, w') /\
      st' = mkLoop (processedCount st) (doneCount st + Z.of_nat (length ids))
                   (errorCount st) (loop_errors st) (loop_token st)) \/
     (exists e,
        action ids w = (Throw e, w') /\
        st' = mkLoop (processedCount st) (doneCount st)
                     (errorCount st + Z.of_nat (length ids))
                     (loop_errors st ++
                        [mkBatchError (floor_div (processedCount st) batchSize + 1)
                                      (message e) (Z.of_nat (length ids))])
                     (loop_token st))) /\
  (forall args w, (toolBulkDeleteEmails gmail args w).1 <> OutOfFuel) /\
  (forall args w, (toolBulkLabelEmails gmail args w).1 <> OutOfFuel).
Proof.
  split; [intros *; apply bulk_delete_accounted |].
  split; [intros *; apply bulk_label_accounted |].
  split; [| split; [apply bulk_delete_returns | apply bulk_label_returns]].
  intros batchSize action ids st w st' w'.
  unfold page_attempt, try_catch, mbind, M_bind, mret, M_ret.
  destruct (action ids w) as [[[] | e |] w1]; intros H; inversion H; subst.
  - left. split; reflexivity.
  - right. exists e. split; reflexivity.
Qed.

Lemma bulk_result_accounting_witness :
  (exists r w',
     toolBulkDeleteEmails test_gmail (mkBulkDeleteArgs (Some "is:old") (Some 100) true false)
       (test_world failing_box250 None) = (Ret (BulkCompleted "is:old" r), w') /\
     failed r = 250 /\ length (errors r) = 3%nat /\ accounted r) /\
  (exists r w',
     toolBulkLabelEmails test_gmail
       (mkBulkLabelArgs (Some "is:old") (Some ["L"]) None (Some 100) false)
       (test_world box250 None) = (Ret (LabelCompleted "is:old" "add" r ["L"]), w') /\
     successful r = 250 /\ accounted r) /\
  (exists st' w',
     page_attempt test_gmail 100 (delete_action test_gmail true) ["a"; "b"; "c"] loop_init
       (test_world (batch_failing_box []) None) = (Ret st', w') /\
     st' = mkLoop 0 0 3 [mkBatchError 1 "batch failed" 3] None /\
     page_outcome 100 3 loop_init st').
Proof.
  pose proof (bulk_result_accounting test_gmail) as (Hdelete & Hlabel & Hpage & _).
  split; [| split].
  - eexists. eexists. split; [vm_compute; reflexivity |].
    split; [reflexivity |]. split; [reflexivity |].
    eapply (Hdelete (mkBulkDeleteArgs (Some "is:old") (Some 100) true false)
              (test_world failing_box250 None) "is:old").
    vm_compute. reflexivity.
  - eexists. eexists. split; [vm_compute; reflexivity |].
    split; [reflexivity |].
    eapply (Hlabel (mkBulkLabelArgs (Some "is:old") (Some ["L"]) None (Some 100) false)
              (test_world box250 None) "is:old" "add" _ ["L"]).
    vm_compute. reflexivity.
  - eexists. eexists. split; [vm_compute; reflexivity |].
    split; [reflexivity |].
    destruct (Hpage 100 (delete_action test_gmail true) ["a"; "b"; "c"] loop_init
                (test_world (batch_failing_box []) None) _ _
                ltac:(vm_compute; reflexivity))
      as [[_ Hst] | (e & _ & Hst)]; rewrite Hst.
    + left. auto.
    + right. exists (message e). auto.
Defined.

(** C1. The estimate of the probe bounds the loop of both bulk tools: on a
    mailbox of fifteen matching messages in pages of ten and five whose
    probe estimates one message, either tool fetches the first page only,
    although that page is not empty and names a next page, and reports ten
    processed messages; the five messages of the second page are never
    listed. *)
Theorem bulk_loops_stop_at_the_estimate :
  let w := test_world undercount_box None in
  let probe_params := mkListParams "is:old" 1 None in
  let first_page := mkListParams "is:old" 10 None in
  tb_list undercount_box first_page =
    inr (mkListResponse (Some (map mkRef (ids_from 0 10))) (Some "p2") (Some 1)) /\
  tb_list undercount_box (mkListParams "is:old" 10 (Some "p2")) =
    inr (mkListResponse (Some (map mkRef (ids_from 10 5))) None (Some 1)) /\
  (exists w',
     toolBulkDeleteEmails test_gmail
       (mkBulkDeleteArgs (Some "is:old") (Some 10) false false) w =
       (Ret (BulkCompleted "is:old" (mkBatchResult 10 10 0 10 1 [])), w') /\
     List.filter is_list_call (calls test_gmail w') =
       [CList first_page; CList probe_params]) /\
  (exists w',
     toolBulkLabelEmails test_gmail
       (mkBulkLabelArgs (Some "is:old") (Some ["Label_1"]) None (Some 10) false) w =
       (Ret (LabelCompleted "is:old" "add" (mkBatchResult 10 10 0 10 1 []) ["Label_1"]), w') /\
     List.filter is_list_call (calls test_gmail w') =
       [CList first_page; CList probe_params]).
Proof.
  cbv zeta. split; [reflexivity |]. split; [reflexivity |].
  split; eexists; (split; [vm_compute; reflexivity | reflexivity]).
Qed.

(** ** The label replacement of [toolBulkLabelEmails] *)

Lemma includes_In l x : includes l x = true <-> In x l.
Proof.
  unfold includes. rewrite List.existsb_exists. split.
  - intros (y & Hy & Heq). apply String.eqb_eq in Heq. subst. exact Hy.
  - intros H. exists x. split; [exact H | apply String.eqb_refl].
Qed.

Lemma includes_false l x : includes l x = false <-> ~ In x l.
Proof.
  rewrite <- includes_In. destruct (includes l x); split; intros H; congruence.
Qed.

Lemma set_spread_acc_In l : forall seen x,
  In x (set_spread_acc seen l) <-> In x l /\ ~ In x seen.
Proof.
  induction l as [| y l IH]; intros seen x; simpl; [tauto |].
  destruct (includes seen y) eqn:E.
  - apply includes_In in E. rewrite IH. split.
    + intros [H1 H2]. auto.
    + intros [[-> | H1] H2]; [contradiction | auto].
  - apply includes_false in E. simpl. rewrite IH. simpl. split.
    + intros [-> | [H1 H2]]; [auto |]. split; [auto |]. intros H. apply H2. auto.
    + intros [[-> | H1] H2]; [auto |].
      destruct (String.eqb_spec y x) as [-> | Hne]; [auto |].
      right. split; [exact H1 |]. intros [-> | H]; [congruence | contradiction].
Qed.

Lemma set_spread_acc_NoDup l : forall seen, List.NoDup (set_spread_acc seen l).
Proof.
  induction l as [| y l IH]; intros seen; simpl; [constructor |].
  destruct (includes seen y); [apply IH |].
  constructor; [| apply IH].
  rewrite set_spread_acc_In. intros [_ H]. apply H. simpl. auto.
Qed.

Lemma set_spread_In l x : In x (set_spread l) <-> In x l.
Proof. unfold set_spread. rewrite set_spread_acc_In. simpl. tauto. Qed.

Section ReplaceFacts.

Context {gmail : Gmail}.

Lemma promise_all_gets l : forall w msgs w',
  promise_all gmail (map (get_message gmail) l) w = (Ret msgs, w') ->
  mbox gmail w' = mbox gmail w /\
  Forall2 (fun i d => messages_get gmail (mbox gmail w) i = inr d) l msgs.
Proof.
  induction l as [| x l IH]; intros w msgs w'; cbn [map promise_all].
  - intros H. inversion H; subst. split; [reflexivity | constructor].
  - unfold get_message at 1, read_call at 1.
    destruct (promise_all gmail (map (get_message gmail) l)
                (log gmail (CGet x) w)) as [rs w2] eqn:E.
    destruct (messages_get gmail (mbox gmail w) x) as [m | d] eqn:Hget; simpl;
      [discriminate |].
    destruct rs as [ds | e |]; intros H; inversion H; subst.
    apply IH in E as [Hm Hall]. simpl in Hm, Hall.
    split; [exact Hm |]. constructor; assumption.
Qed.

Lemma label_request_replace label_ids messageIds w req w' :
  label_request gmail "replace" label_ids messageIds w = (Ret req, w') ->
  exists msgs,
    Forall2 (fun i d => messages_get gmail (mbox gmail w) i = inr d) messageIds msgs /\
    req = mkModify messageIds (Some label_ids)
            (Some (set_spread
                     (List.filter (fun l => negb (includes systemLabels l))
                        (concat (map (fun d => default [] (labelIds d)) msgs)))))
    /\ mbox gmail w' = mbox gmail w.
Proof.
  unfold label_request. simpl. intros H.
  apply bind_ret in H as (msgs & w1 & Hall & H).
  inversion H; subst. apply promise_all_gets in Hall as [Hm Hall].
  exists msgs. auto.
Qed.

End ReplaceFacts.

(** C7. The request that the replace operation of [toolBulkLabelEmails]
    builds for a page adds exactly the requested labels and removes
    exactly the distinct current labels of the messages of the page that
    are not system labels, hence never a system label. In a mailbox whose
    one matching message is labelled INBOX, UNREAD and Project-X, replacing
    with Project-Y sends one batch-modify that removes Project-X only and
    adds Project-Y. *)
Theorem replace_spares_system_labels :
  (forall (gmail : Gmail) label_ids messageIds w req w',
     label_request gmail "replace" label_ids messageIds w = (Ret req, w') ->
     ids req = messageIds /\
     addLabelIds req = Some label_ids /\
     exists removed,
       removeLabelIds req = Some removed /\
       List.NoDup removed /\
       (forall l, In l removed -> ~ In l systemLabels) /\
       (forall l, In l removed <->
          ~ In l systemLabels /\
          exists i d, In i messageIds /\
                      messages_get gmail (mbox gmail w) i = inr d /\
                      In l (default [] (labelIds d)))) /\
  (exists w',
     toolBulkLabelEmails test_gmail
       (mkBulkLabelArgs (Some "in:inbox") (Some ["Project-Y"]) (Some "replace") None false)
       (test_world replace_box None) =
       (Ret (LabelCompleted "in:inbox" "replace" (mkBatchResult 1 1 0 100 1 [])
               ["Project-Y"]), w') /\
     List.filter mutating (calls test_gmail w') =
       [CBatchModify (mkModify ["m1"] (Some ["Project-Y"]) (Some ["Project-X"]))]).
Proof.
  split.
  - intros gmail label_ids messageIds w req w' H.
    apply label_request_replace in H as (msgs & Hall & -> & _). simpl.
    split; [reflexivity |]. split; [reflexivity |].
    eexists. split; [reflexivity |].
    split; [apply set_spread_acc_NoDup |].
    assert (forall l,
      In l (set_spread
              (List.filter (fun l0 => negb (includes systemLabels l0))
                 (concat (map (fun d => default [] (labelIds d)) msgs)))) <->
      ~ In l systemLabels /\
      exists i d, In i messageIds /\ messages_get gmail (mbox gmail w) i = inr d /\
                  In l (default [] (labelIds d))) as Hchar.
    { intros l. rewrite set_spread_In, List.filter_In, negb_true_iff, includes_false.
      rewrite List.in_concat. split.
      - intros [(ls & Hls & Hl) Hsys]. split; [exact Hsys |].
        apply List.in_map_iff in Hls as (d & <- & Hd).
        clear - Hall Hd Hl. induction Hall as [| i d0 il dl Hi Hrest IH].
        + destruct Hd.
        + destruct Hd as [-> | Hd].
          * exists i, d. simpl. auto.
          * destruct (IH Hd) as (i' & d' & Hi' & Hg & Hin).
            exists i', d'. simpl. auto.
      - intros [Hsys (i & d & Hi & Hg & Hl)]. split; [| exact Hsys].
        exists (default [] (labelIds d)). split; [| exact Hl].
        apply List.in_map_iff. exists d. split; [reflexivity |].
        clear - Hall Hi Hg. induction Hall as [| i0 d0 il dl Hi0 Hrest IH].
        + destruct Hi.
        + destruct Hi as [-> | Hi].
          * rewrite Hg in Hi0. inversion Hi0. simpl. auto.
          * simpl. auto. }
    split; [| exact Hchar].
    intros l Hl. apply Hchar in Hl. destruct Hl as [Hs _]. exact Hs.
  - eexists. split; [vm_compute; reflexivity | reflexivity].
Qed.

Lemma replace_spares_system_labels_witness :
  exists req w',
    label_request test_gmail "replace" ["Project-Y"] ["m1"] (test_world replace_box None)
      = (Ret req, w') /\
    removeLabelIds req = Some ["Project-X"] /\
    addLabelIds req = Some ["Project-Y"].
Proof.
  eexists. eexists. split; [vm_compute; reflexivity |].
  split; [reflexivity |].
  eapply (proj1 replace_spares_system_labels test_gmail ["Project-Y"] ["m1"]
            (test_world replace_box None)).
  vm_compute. reflexivity.
Defined.

(** ** Chunk failures: per-item fallback or wholesale failure *)

Section FallbackFacts.

Context {gmail : Gmail}.

Lemma each_individually_counts item_op emails : forall acc w ok errs w',
  each_individually gmail item_op emails acc w = (Ret (ok, errs), w') ->
  (length ok + length errs = length acc.1 + length acc.2 + length emails)%nat.
Proof.
  induction emails as [| email rest IH]; intros acc w ok errs w' H.
  - simpl in H. inversion H; subst. simpl. lia.
  - cbn [each_individually] in H.
    apply bind_ret in H as (acc' & w1 & Hstep & H).
    apply IH in H. rewrite H. clear H IH.
    unfold try_catch, mbind, M_bind, mret, M_ret in Hstep.
    destruct (item_op (ed_id email) w) as [[[] | e |] w2];
      inversion Hstep; subst; simpl; rewrite ?length_app; simpl; lia.
Qed.


End FallbackFacts.




(** ** Query synthesis *)






(** ** The rule store *)

Section StoreFacts.

Context {gmail : Gmail}.

Lemma load_stored (w : World gmail) :
  loadAutoLabelingRules gmail w = (Ret (stored_rules w), w).
Proof. reflexivity. Qed.

Lemma save_stored rs (w : World gmail) :
  exists w', saveAutoLabelingRules gmail rs w = (Ret tt, w') /\
             stored_rules w' = rs /\ mbox gmail w' = mbox gmail w /\
             calls gmail w' = calls gmail w.
Proof. eexists. split; [reflexivity |]. auto. Qed.

End StoreFacts.

(** C9. For a stored rule list [rs] of length [n] and an index [0 <= i]:
    when [i < n], [toolRemoveAutoLabelingRule] returns the rule at [i] and
    persists a list of length [n - 1] that agrees with [rs] below [i] and
    holds at every [j >= i] the rule [rs] had at [j + 1], which is what
    [toolListAutoLabelingRules] then lists, each entry under its new
    index; when [i >= n] it throws an InvalidRequest error and leaves the
    world, hence the stored list, as it was. *)
Theorem remove_rule_shifts_down (gmail : Gmail) (w : World gmail) (i : Z) :
  0 <= i ->
  (i < Z.of_nat (length (stored_rules w)) ->
   exists p w',
     toolRemoveAutoLabelingRule gmail (Some i) w = (Ret p, w') /\
     removed_rule p = stored_rules w !! Z.to_nat i /\
     length (stored_rules w') = (length (stored_rules w) - 1)%nat /\
     (forall j, (j < Z.to_nat i)%nat -> stored_rules w' !! j = stored_rules w !! j) /\
     (forall j, (Z.to_nat i <= j)%nat -> stored_rules w' !! j = stored_rules w !! S j) /\
     exists listed,
       (toolListAutoLabelingRules gmail w').1 = Ret listed /\
       length listed = (length (stored_rules w) - 1)%nat /\
       (forall j, (j < Z.to_nat i)%nat ->
          listed !! j = format_rule j <$> stored_rules w !! j) /\
       (forall j, (Z.to_nat i <= j)%nat ->
          listed !! j = format_rule j <$> stored_rules w !! S j)) /\
  (Z.of_nat (length (stored_rules w)) <= i ->
   exists msg,
     toolRemoveAutoLabelingRule gmail (Some i) w = (Throw (McpError InvalidRequest msg), w)).
Proof.
  intros Hi. split.
  - intros Hlt. unfold toolRemoveAutoLabelingRule.
    destruct (Z.ltb_spec i 0); [lia |].
    unfold mbind at 1, M_bind at 1. rewrite load_stored.
    destruct (Z.geb_spec i (Z.of_nat (length (stored_rules w)))); [lia |].
    destruct (save_stored (delete (Z.to_nat i) (stored_rules w)) w)
      as (w' & Hsave & Hst & _).
    unfold mbind, M_bind. rewrite Hsave. eexists. exists w'.
    split; [reflexivity |]. split; [reflexivity |].
    assert (is_Some (stored_rules w !! Z.to_nat i)) as Hsome
      by (apply lookup_lt_is_Some; lia).
    rewrite Hst.
    split; [apply length_delete; exact Hsome |].
    split; [intros j Hj; apply list_lookup_delete_lt; exact Hj |].
    split; [intros j Hj; apply list_lookup_delete_ge; exact Hj |].
    exists (imap format_rule (delete (Z.to_nat i) (stored_rules w))).
    split; [unfold toolListAutoLabelingRules, mbind, M_bind;
            rewrite load_stored, Hst; reflexivity |].
    split; [rewrite length_imap; apply length_delete; exact Hsome |].
    split; intros j Hj; rewrite list_lookup_imap;
      [rewrite list_lookup_delete_lt by exact Hj
      | rewrite list_lookup_delete_ge by exact Hj]; reflexivity.
  - intros Hge. unfold toolRemoveAutoLabelingRule.
    destruct (Z.ltb_spec i 0); [lia |].
    unfold mbind, M_bind. rewrite load_stored.
    destruct (Z.geb_spec i (Z.of_nat (length (stored_rules w)))); [| lia].
    eexists. reflexivity.
Qed.

Lemma remove_rule_shifts_down_witness :
  let w := test_world plain_box (rule_file three_rules) in
  (exists p w',
     toolRemoveAutoLabelingRule test_gmail (Some 1) w = (Ret p, w') /\
     removed_rule p = Some rule_B /\
     stored_rules w' = [rule_A; rule_C] /\
     (toolListAutoLabelingRules test_gmail w').1 =
       Ret [format_rule 0 rule_A; format_rule 1 rule_C]) /\
  (exists msg,
     toolRemoveAutoLabelingRule test_gmail (Some 3) w =
       (Throw (McpError InvalidRequest msg), w)).
Proof.
  cbv zeta. split.
  - destruct (proj1 (remove_rule_shifts_down test_gmail
                       (test_world plain_box (rule_file three_rules)) 1 ltac:(lia))
                ltac:(simpl; lia))
      as (p & w' & Hrun & Hrem & _).
    exists p, w'. split; [exact Hrun |]. split; [exact Hrem |].
    vm_compute in Hrun. inversion Hrun; subst. split; reflexivity.
  - apply (proj2 (remove_rule_shifts_down test_gmail
                    (test_world plain_box (rule_file three_rules)) 3 ltac:(lia))).
    simpl. lia.
Defined.

(** C10. [toolUpdateAutoLabelingRule] checks no search criteria: it
    returns for every index in range, and for a stored rule with a query
    the update that sets the three pattern fields to [null] and gives no
    query rebuilds the query from the emptied fields and persists the
    empty string. *)
Theorem update_can_empty_the_query (gmail : Gmail) (w : World gmail) (i : nat) (rule : Rule) :
  stored_rules w !! i = Some rule ->
  (forall args, u_rule_index args = Some (Z.of_nat i) ->
     exists p w', toolUpdateAutoLabelingRule gmail args w = (Ret p, w')) /\
  (truthy_str (query rule) = true ->
   exists p w' rule',
     toolUpdateAutoLabelingRule gmail (clear_patterns (Z.of_nat i)) w = (Ret p, w') /\
     stored_rules w' !! i = Some rule' /\
     up_updated p = rule' /\
     query rule' = Some EmptyString /\
     sender_pattern rule' = None /\ subject_pattern rule' = None /\
     subject_contains rule' = None /\
     runner_query rule' = Some EmptyString /\
     label_name rule' = label_name rule).
Proof.
  intros Hlook.
  assert (i < length (stored_rules w))%nat as Hlen
    by (apply lookup_lt_is_Some; eauto).
  split.
  - intros args Hidx. unfold toolUpdateAutoLabelingRule. rewrite Hidx.
    destruct (Z.ltb_spec (Z.of_nat i) 0); [lia |].
    unfold mbind, M_bind. rewrite load_stored, Nat2Z.id, Hlook.
    eexists. eexists. reflexivity.
  - intros Hq. unfold toolUpdateAutoLabelingRule, clear_patterns.
    cbn [u_rule_index].
    destruct (Z.ltb_spec (Z.of_nat i) 0); [lia |].
    unfold mbind, M_bind. rewrite load_stored, Nat2Z.id, Hlook.
    eexists. eexists. eexists. split; [reflexivity |].
    unfold stored_rules, saveAutoLabelingRules, now. simpl.
    rewrite list_lookup_insert_eq by exact Hlen.
    split; [reflexivity |]. split; [reflexivity |].
    unfold rebuild_query, assign_fields. simpl. rewrite Hq. simpl.
    repeat split; reflexivity.
Qed.

Lemma update_can_empty_the_query_witness :
  exists p1 w1 created p w' rule',
    toolAddAutoLabelingRule test_gmail
      (mkAddRuleArgs (Some "Work") (Some "@example.com") None None None None)
      (test_world plain_box None) = (Ret p1, w1) /\
    stored_rules w1 !! 0%nat = Some created /\
    query created = Some "from:@example.com" /\
    toolUpdateAutoLabelingRule test_gmail (clear_patterns 0) w1 = (Ret p, w') /\
    stored_rules w' !! 0%nat = Some rule' /\
    query rule' = Some EmptyString /\
    exists p2 w2,
      toolUpdateAutoLabelingRule test_gmail
        (mkUpdateRuleArgs (Some 0) (Some "Office") Undefined Undefined Undefined Undefined None)
        w1 = (Ret p2, w2).
Proof.
  eexists. eexists. eexists.
  assert (toolAddAutoLabelingRule test_gmail
            (mkAddRuleArgs (Some "Work") (Some "@example.com") None None None None)
            (test_world plain_box None) = (Ret _, _)) as Hadd
    by (vm_compute; reflexivity).
  match type of Hadd with _ = (Ret ?p1, ?w1) =>
    destruct (proj2 (update_can_empty_the_query test_gmail w1 0 (added_rule p1) eq_refl)
                eq_refl)
      as (p & w' & rule' & Hrun & Hst & _ & Hq & _)
  end.
  exists p, w', rule'.
  split; [exact Hadd |]. split; [reflexivity |]. split; [reflexivity |].
  split; [exact Hrun |]. split; [exact Hst |]. split; [exact Hq |].
  match type of Hadd with _ = (Ret ?p1, ?w1) =>
    apply (proj1 (update_can_empty_the_query test_gmail w1 0 (added_rule p1) eq_refl))
  end.
  reflexivity.
Defined.

(** ** Invariants of computations *)

Section Invariants.

Context {gmail : Gmail}.

Lemma stable_ret {A} I (a : A) : stable I (mret a : M gmail A).
Proof. intros w r w' HI H. inversion H; subst. exact HI. Qed.

Lemma stable_throw {A} I e : stable I (throw gmail e : M gmail A).
Proof. intros w r w' HI H. inversion H; subst. exact HI. Qed.

Lemma stable_bind {A B} I (m : M gmail A) (f : A -> M gmail B) :
  stable I m -> (forall a, stable I (f a)) -> stable I (m ≫= f).
Proof.
  intros Hm Hf w r w' HI. unfold mbind, M_bind.
  destruct (m w) as [[a | e |] w1] eqn:E; intros H.
  - eapply Hf; [eapply Hm; eassumption | exact H].
  - inversion H; subst. eapply Hm; eassumption.
  - inversion H; subst. eapply Hm; eassumption.
Qed.

Lemma stable_try_catch {A} I (m : M gmail A) h :
  stable I m -> (forall e, stable I (h e)) -> stable I (try_catch gmail m h).
Proof.
  intros Hm Hh w r w' HI. unfold try_catch.
  destruct (m w) as [[a | e |] w1] eqn:E; intros H.
  - inversion H; subst. eapply Hm; eassumption.
  - eapply Hh; [eapply Hm; eassumption | exact H].
  - inversion H; subst. eapply Hm; eassumption.
Qed.

Lemma same_state_refl (w : World gmail) : same_state w w.
Proof. repeat split. Qed.

Lemma same_state_sym (w1 w2 : World gmail) : same_state w1 w2 -> same_state w2 w1.
Proof. intros (H1 & H2 & H3 & H4). repeat split; congruence. Qed.

Lemma same_state_trans (w1 w2 w3 : World gmail) :
  same_state w1 w2 -> same_state w2 w3 -> same_state w1 w3.
Proof. intros (H1 & H2 & H3 & H4) (K1 & K2 & K3 & K4). repeat split; congruence. Qed.

Lemma respects_ret {A} (a : A) : respects (mret a : M gmail A).
Proof. intros w1 w2 H. split; [reflexivity | exact H]. Qed.

Lemma respects_throw {A} e : respects (throw gmail e : M gmail A).
Proof. intros w1 w2 H. split; [reflexivity | exact H]. Qed.

Lemma respects_bind {A B} (m : M gmail A) (f : A -> M gmail B) :
  respects m -> (forall a, respects (f a)) -> respects (m ≫= f).
Proof.
  intros Hm Hf w1 w2 H. unfold mbind, M_bind.
  destruct (Hm w1 w2 H) as [Hr Hs].
  destruct (m w1) as [r1 v1], (m w2) as [r2 v2]. simpl in Hr, Hs. subst r2.
  destruct r1 as [a | e |]; [apply Hf; exact Hs | |]; split; auto.
Qed.

Lemma respects_try_catch {A} (m : M gmail A) h :
  respects m -> (forall e, respects (h e)) -> respects (try_catch gmail m h).
Proof.
  intros Hm Hh w1 w2 H. unfold try_catch.
  destruct (Hm w1 w2 H) as [Hr Hs].
  destruct (m w1) as [r1 v1], (m w2) as [r2 v2]. simpl in Hr, Hs. subst r2.
  destruct r1 as [a | e |]; [| apply Hh; exact Hs |]; split; auto.
Qed.

Lemma respects_read_call {A} c (f : Mbox gmail -> string + A) :
  respects (read_call gmail c f).
Proof.
  intros w1 w2 (H1 & H2 & H3 & H4). unfold read_call. simpl. rewrite H1.
  split; [reflexivity | repeat split; assumption].
Qed.

Lemma respects_write_call {A} c (f : Mbox gmail -> (string + A) * Mbox gmail) :
  respects (write_call gmail c f).
Proof.
  intros w1 w2 (H1 & H2 & H3 & H4). unfold write_call. rewrite H1.
  destruct (f (mbox gmail w2)) as [r m]. simpl.
  split; [reflexivity | repeat split; assumption].
Qed.

Lemma respects_now : respects (now gmail).
Proof.
  intros w1 w2 (H1 & H2 & H3 & H4). unfold now. simpl. rewrite H3.
  split; [reflexivity | repeat split; assumption].
Qed.

Lemma respects_load : respects (loadAutoLabelingRules gmail).
Proof.
  intros w1 w2 (H1 & H2 & H3 & H4). unfold loadAutoLabelingRules. simpl. rewrite H2.
  split; [reflexivity | repeat split; assumption].
Qed.

Lemma respects_save rs : respects (saveAutoLabelingRules gmail rs).
Proof.
  intros w1 w2 (H1 & H2 & H3 & H4). unfold saveAutoLabelingRules. simpl. rewrite H3.
  split; [reflexivity | repeat split; assumption].
Qed.

Lemma respects_getGmail : respects (getGmail gmail).
Proof.
  intros w1 w2 H. pose proof H as (H1 & H2 & H3 & H4). unfold getGmail. rewrite H4.
  destruct (unauthorized gmail w2); simpl; (split; [reflexivity | exact H]).
Qed.

End Invariants.


Section Halting.

Context {gmail : Gmail}.

Lemma halts_ret {A} (a : A) : halts (mret a : M gmail A).
Proof. intros w. discriminate. Qed.

Lemma halts_throw {A} e : halts (throw gmail e : M gmail A).
Proof. intros w. discriminate. Qed.

Lemma halts_bind {A B} (m : M gmail A) (f : A -> M gmail B) :
  halts m -> (forall a, halts (f a)) -> halts (m ≫= f).
Proof.
  intros Hm Hf w. unfold mbind, M_bind. specialize (Hm w).
  destruct (m w) as [[a | e |] w1]; [apply Hf | discriminate | exfalso; apply Hm; reflexivity].
Qed.

Lemma halts_try_catch {A} (m : M gmail A) h :
  halts m -> (forall e, halts (h e)) -> halts (try_catch gmail m h).
Proof.
  intros Hm Hh w. unfold try_catch. specialize (Hm w).
  destruct (m w) as [[a | e |] w1]; [discriminate | apply Hh | exact Hm].
Qed.

Lemma halts_read_call {A} c (f : Mbox gmail -> string + A) : halts (read_call gmail c f).
Proof. intros w. apply read_call_fuel. Qed.

Lemma halts_write_call {A} c (f : Mbox gmail -> (string + A) * Mbox gmail) :
  halts (write_call gmail c f).
Proof. intros w. apply write_call_fuel. Qed.

Lemma halts_now : halts (now gmail).
Proof. intros w. discriminate. Qed.

Lemma halts_load : halts (loadAutoLabelingRules gmail).
Proof. intros w. discriminate. Qed.

Lemma halts_save rs : halts (saveAutoLabelingRules gmail rs).
Proof. intros w. discriminate. Qed.

Lemma halts_getGmail : halts (getGmail gmail).
Proof. intros w. unfold getGmail. destruct (unauthorized gmail w); discriminate. Qed.

End Halting.


(** ** The rule runner *)

Section RunnerFacts.

Context {gmail : Gmail}.

Lemma find_or_create_label_respects name : respects (find_or_create_label gmail name).
Proof.
  unfold find_or_create_label. apply respects_bind; [apply respects_read_call |].
  intros labels. destruct (labels ≫= _); [apply respects_ret |].
  apply respects_bind; [apply respects_write_call | intros; apply respects_ret].
Qed.

Lemma find_or_create_label_halts name : halts (find_or_create_label gmail name).
Proof.
  unfold find_or_create_label. apply halts_bind; [apply halts_read_call |].
  intros labels. destruct (labels ≫= _); [apply halts_ret |].
  apply halts_bind; [apply halts_write_call | intros; apply halts_ret].
Qed.

Lemma collect_pages_respects qry bs remaining : forall st,
  respects (collect_pages gmail qry bs remaining st).
Proof.
  induction remaining as [| n IH]; intros st; cbn [collect_pages];
    [apply respects_ret |].
  apply respects_bind; [apply respects_read_call |]. intros l. cbv zeta.
  destruct (_ =? _)%nat; [apply respects_ret |].
  destruct (negb _); [apply respects_ret | apply IH].
Qed.

Lemma collect_pages_halts qry bs remaining : forall st,
  halts (collect_pages gmail qry bs remaining st).
Proof.
  induction remaining as [| n IH]; intros st; cbn [collect_pages];
    [apply halts_ret |].
  apply halts_bind; [apply halts_read_call |]. intros l. cbv zeta.
  destruct (_ =? _)%nat; [apply halts_ret |].
  destruct (negb _); [apply halts_ret | apply IH].
Qed.

Lemma apply_chunks_respects labelId allIds starts : forall total,
  respects (apply_chunks gmail labelId allIds starts total).
Proof.
  induction starts as [| i rest IH]; intros total; cbn [apply_chunks];
    [apply respects_ret |].
  apply respects_bind; [apply respects_write_call | intros; apply IH].
Qed.

Lemma apply_chunks_halts labelId allIds starts : forall total,
  halts (apply_chunks gmail labelId allIds starts total).
Proof.
  induction starts as [| i rest IH]; intros total; cbn [apply_chunks];
    [apply halts_ret |].
  apply halts_bind; [apply halts_write_call | intros; apply IH].
Qed.

Lemma run_rule_body_respects args index rule rs :
  respects (run_rule_body gmail args index rule rs).
Proof.
  unfold run_rule_body.
  apply respects_bind; [apply find_or_create_label_respects |]. intros labelId.
  cbv zeta. destruct (negb _); [apply respects_ret |].
  apply respects_bind; [apply collect_pages_respects |]. intros c.
  destruct (_ =? _); [apply respects_ret |].
  destruct (r_dry_run args); [apply respects_ret |].
  apply respects_bind; [apply apply_chunks_respects |]. intros total.
  apply respects_bind; [apply respects_now |]. intros t.
  apply respects_bind; [apply respects_save | intros; apply respects_ret].
Qed.

Lemma run_rule_body_halts args index rule rs :
  halts (run_rule_body gmail args index rule rs).
Proof.
  unfold run_rule_body.
  apply halts_bind; [apply find_or_create_label_halts |]. intros labelId.
  cbv zeta. destruct (negb _); [apply halts_ret |].
  apply halts_bind; [apply collect_pages_halts |]. intros c.
  destruct (_ =? _); [apply halts_ret |].
  destruct (r_dry_run args); [apply halts_ret |].
  apply halts_bind; [apply apply_chunks_halts |]. intros total.
  apply halts_bind; [apply halts_now |]. intros t.
  apply halts_bind; [apply halts_save | intros; apply halts_ret].
Qed.

Lemma run_rule_respects args index rule st : respects (run_rule gmail args index rule st).
Proof.
  unfold run_rule. apply respects_try_catch.
  - apply respects_bind; [apply run_rule_body_respects | intros; apply respects_ret].
  - intros e. apply respects_ret.
Qed.

Lemma run_rules_loop_respects args todo : forall st,
  respects (run_rules_loop gmail args todo st).
Proof.
  induction todo as [| [index rule] rest IH]; intros st; cbn [run_rules_loop];
    [apply respects_ret |].
  apply respects_bind; [apply run_rule_respects | intros; apply IH].
Qed.

Lemma toolRun_respects args : respects (toolRunAutoLabelingRules gmail args).
Proof.
  unfold toolRunAutoLabelingRules.
  apply respects_bind; [apply respects_load |]. intros rs. cbv zeta.
  destruct (_ =? _)%nat; [apply respects_ret |].
  apply respects_bind; [apply respects_getGmail |]. intros _.
  apply respects_bind; [apply run_rules_loop_respects | intros; apply respects_ret].
Qed.

End RunnerFacts.

Section RunnerOutcomes.

Context {gmail : Gmail}.

Lemma run_rule_body_label args index rule rs w r rs' w' :
  run_rule_body gmail args index rule rs w = (Ret (r, rs'), w') ->
  rr_rule r = label_name rule.
Proof.
  unfold run_rule_body. intros H.
  apply bind_ret in H as (labelId & w1 & _ & H). cbv zeta in H.
  destruct (negb _); [inversion H; reflexivity |].
  apply bind_ret in H as (c & w2 & _ & H).
  destruct (_ =? _); [inversion H; reflexivity |].
  destruct (r_dry_run args); [inversion H; reflexivity |].
  apply bind_ret in H as (total & w3 & _ & H).
  apply bind_ret in H as (t & w4 & _ & H).
  apply bind_ret in H as ([] & w5 & _ & H).
  inversion H; reflexivity.
Qed.

(** One iteration of the rule loop always ends with one more entry: a
    result of the rule, or the error its [try] block threw, each under the
    label name of the rule. *)
Lemma run_rule_returns args index rule st w :
  exists st' w',
    run_rule gmail args index rule st w = (Ret st', w') /\
    ((exists r rs',
        run_rule_body gmail args index rule (mem_rules st) w = (Ret (r, rs'), w') /\
        rr_rule r = label_name rule /\
        st' = mkRunState rs' (run_results st ++ [r]) (run_errors st)) \/
     (exists e,
        run_rule_body gmail args index rule (mem_rules st) w = (Throw e, w') /\
        st' = mkRunState (mem_rules st) (run_results st)
                (run_errors st ++ [mkRuleError (label_name rule) (message e)]))).
Proof.
  unfold run_rule, try_catch, mbind, M_bind, mret, M_ret.
  pose proof (run_rule_body_halts args index rule (mem_rules st) w) as Hh.
  destruct (run_rule_body gmail args index rule (mem_rules st) w)
    as [[[r rs'] | e |] w1] eqn:E.
  - eexists. eexists. split; [reflexivity |]. left. exists r, rs'.
    split; [reflexivity |]. split; [| reflexivity].
    eapply run_rule_body_label; eassumption.
  - eexists. eexists. split; [reflexivity |]. right. exists e. split; reflexivity.
  - exfalso. apply Hh. reflexivity.
Qed.

(** The labels under which the entries of a loop state are recorded. *)
Lemma run_rules_loop_returns args todo : forall st w,
  exists st' w',
    run_rules_loop gmail args todo st w = (Ret st', w') /\
    (map rr_rule (run_results st') ++ map re_rule (run_errors st')) ≡ₚ
    ((map rr_rule (run_results st) ++ map re_rule (run_errors st)) ++
       map (fun ir => label_name ir.2) todo).
Proof.
  induction todo as [| [index rule] rest IH]; intros st w; cbn [run_rules_loop].
  - exists st, w. split; [reflexivity |]. simpl. rewrite app_nil_r. reflexivity.
  - destruct (run_rule_returns args index rule st w) as (st1 & w1 & Hrun & Hcase).
    destruct (IH st1 w1) as (st' & w' & Hloop & Hperm).
    exists st', w'. split.
    + unfold mbind, M_bind. rewrite Hrun. exact Hloop.
    + rewrite Hperm. clear Hperm Hloop IH Hrun. simpl.
      destruct Hcase as [(r & rs' & _ & Hl & ->) | (e & _ & ->)]; simpl.
      * rewrite map_app. simpl. rewrite Hl.
        rewrite <- !app_assoc. apply Permutation_app_head. simpl.
        apply Permutation_middle.
      * rewrite map_app. simpl. rewrite <- !app_assoc. reflexivity.
Qed.

Lemma enabledRules_labels rs :
  map (fun ir : nat * Rule => label_name ir.2) (enabledRules rs) =
  map label_name (List.filter is_enabled rs).
Proof.
  unfold enabledRules.
  assert (forall (f : nat -> nat) l,
            map (fun ir : nat * Rule => label_name ir.2)
                (List.filter (fun ir => is_enabled ir.2) (imap (fun i r => (f i, r)) l)) =
            map label_name (List.filter is_enabled l)) as H.
  { intros f l. revert f. induction l as [| r l IH]; intros f; [reflexivity |].
    cbn [imap List.filter]. simpl.
    destruct (is_enabled r); simpl; [f_equal |]; apply (IH (f ∘ S)). }
  apply (H (fun i => i)).
Qed.

End RunnerOutcomes.

(** C6. [toolRunAutoLabelingRules] skips exactly the rules whose [enabled]
    field is [false]: with an authorized client and at least one enabled
    rule it returns, and its results and errors together hold one entry
    for each enabled rule, under the label name of the rule, and none for
    any other rule; with no enabled rule it returns at once. An exception
    thrown while a rule is processed is recorded in the error list under
    the label name of the rule, and the loop goes on with the rules that
    follow; a failing label listing is such an exception. *)
Theorem runner_isolates_rule_failures (gmail : Gmail) :
  (forall rule, is_enabled rule = false <-> enabled rule = Some false) /\
  (forall args w,
     unauthorized gmail w = None ->
     List.filter is_enabled (stored_rules w) <> [] ->
     exists rep w',
       toolRunAutoLabelingRules gmail args w =
         (Ret (RunCompleted (Z.of_nat (length (stored_rules w))) rep), w') /\
       (map rr_rule (results rep) ++ map re_rule (rep_errors rep)) ≡ₚ
         map label_name (List.filter is_enabled (stored_rules w))) /\
  (forall args w,
     List.filter is_enabled (stored_rules w) = [] ->
     toolRunAutoLabelingRules gmail args w =
       (Ret (NoEnabledRules (Z.of_nat (length (stored_rules w)))), w)) /\
  (forall args index rule rest st w e w1,
     run_rule_body gmail args index rule (mem_rules st) w = (Throw e, w1) ->
     run_rules_loop gmail args ((index, rule) :: rest) st w =
     run_rules_loop gmail args rest
       (mkRunState (mem_rules st) (run_results st)
          (run_errors st ++ [mkRuleError (label_name rule) (message e)])) w1) /\
  (forall args index rule rs w msg,
     labels_list gmail (mbox gmail w) = inl msg ->
     exists w1, run_rule_body gmail args index rule rs w = (Throw (JsError msg), w1)).
Proof.
  split.
  { intros rule. unfold is_enabled. destruct (enabled rule) as [[|] |]; split; congruence. }
  assert (forall rs, length (enabledRules rs) = length (List.filter is_enabled rs)) as Hlen.
  { intros rs. rewrite <- (length_map (fun ir : nat * Rule => label_name ir.2)),
      enabledRules_labels, length_map. reflexivity. }
  split.
  { intros args w Hauth Hne. unfold toolRunAutoLabelingRules.
    unfold mbind at 1, M_bind at 1. rewrite load_stored. cbv zeta.
    destruct (Nat.eqb_spec (length (enabledRules (stored_rules w))) 0) as [E | _].
    { rewrite Hlen in E. destruct (List.filter is_enabled (stored_rules w));
        [contradiction | discriminate]. }
    unfold mbind at 1, M_bind at 1. unfold getGmail at 1. rewrite Hauth.
    destruct (run_rules_loop_returns args (enabledRules (stored_rules w))
                (mkRunState (stored_rules w) [] []) w) as (st' & w' & Hloop & Hperm).
    unfold mbind, M_bind. rewrite Hloop. eexists. eexists. split; [reflexivity |].
    simpl. rewrite Hperm. simpl. rewrite enabledRules_labels. reflexivity. }
  split.
  { intros args w Hnone. unfold toolRunAutoLabelingRules, mbind, M_bind.
    rewrite load_stored. cbv zeta. rewrite Hlen, Hnone. reflexivity. }
  split.
  { intros args index rule rest st w e w1 H. cbn [run_rules_loop].
    unfold mbind at 1, M_bind at 1, run_rule, try_catch, mbind at 1, M_bind at 1.
    rewrite H. reflexivity. }
  intros args index rule rs w msg H. unfold run_rule_body, find_or_create_label.
  unfold mbind, M_bind, list_labels, read_call. rewrite H. simpl.
  eexists. reflexivity.
Qed.

(** A rule whose search fails, an enabled rule and a disabled rule: one
    error, one result, and nothing for the disabled rule. *)
Lemma runner_isolates_rule_failures_witness :
  let w := test_world plain_box (rule_file [broken_rule; rule_B; rule_C]) in
  (exists rep w',
     toolRunAutoLabelingRules test_gmail (mkRunArgs false 100 100 10) w =
       (Ret (RunCompleted 3 rep), w') /\
     rep_errors rep = [mkRuleError "Broken" "search failed"] /\
     map rr_rule (results rep) = ["B"] /\
     map status (results rep) = [labeled] /\
     (map rr_rule (results rep) ++ map re_rule (rep_errors rep)) ≡ₚ ["Broken"; "B"]) /\
  (let w0 := test_world plain_box (rule_file [rule_C]) in
   toolRunAutoLabelingRules test_gmail (mkRunArgs false 100 100 10) w0 =
     (Ret (NoEnabledRules 1), w0)) /\
  (exists e w1,
     run_rule_body test_gmail (mkRunArgs false 100 100 10) 0 broken_rule
       [broken_rule; rule_B; rule_C] w = (Throw e, w1) /\
     run_rules_loop test_gmail (mkRunArgs false 100 100 10)
       [(0%nat, broken_rule); (1%nat, rule_B)]
       (mkRunState [broken_rule; rule_B; rule_C] [] []) w =
     run_rules_loop test_gmail (mkRunArgs false 100 100 10) [(1%nat, rule_B)]
       (mkRunState [broken_rule; rule_B; rule_C] []
          [mkRuleError "Broken" "search failed"]) w1) /\
  (exists w1,
     run_rule_body down_gmail (mkRunArgs false 100 100 10) 0 rule_B [rule_B]
       (down_world (rule_file [rule_B])) = (Throw (JsError "unavailable"), w1)).
Proof.
  cbv zeta.
  pose proof (runner_isolates_rule_failures test_gmail)
    as (_ & Hall & Hnone & Hthrow & _).
  split; [| split; [| split]].
  - destruct (Hall (mkRunArgs false 100 100 10)
                (test_world plain_box (rule_file [broken_rule; rule_B; rule_C]))
                eq_refl ltac:(vm_compute; discriminate))
      as (rep & w' & Hrun & Hperm).
    exists rep, w'. split; [exact Hrun |].
    vm_compute in Hrun. inversion Hrun; subst.
    split; [reflexivity |]. split; [reflexivity |]. split; [reflexivity |].
    exact Hperm.
  - apply (Hnone (mkRunArgs false 100 100 10) (test_world plain_box (rule_file [rule_C]))).
    reflexivity.
  - eexists. eexists. split; [vm_compute; reflexivity |].
    erewrite (Hthrow (mkRunArgs false 100 100 10) 0%nat broken_rule [(1%nat, rule_B)]
                (mkRunState [broken_rule; rule_B; rule_C] [] []))
      by (vm_compute; reflexivity).
    reflexivity.
  - apply (proj2 (proj2 (proj2 (proj2 (runner_isolates_rule_failures down_gmail))))
             (mkRunArgs false 100 100 10) 0%nat rule_B [rule_B]
             (down_world (rule_file [rule_B])) "unavailable").
    reflexivity.
Defined.

(** C5. A rule without a query, a sender pattern, a subject pattern and
    subject-contains terms is rejected by [toolAddAutoLabelingRule] with an
    InvalidParams error that leaves the world, hence the rule store, as it
    was. [toolAutoLabelEmails] records for it a no-search-criteria error
    under its label name, issues no call, and goes on with the rules that
    follow. [toolRunAutoLabelingRules] resolves its label first; it then
    records a [no_search_criteria] result (or, when the label cannot be
    resolved, that error) and goes on with the rules that follow from the
    world that the label resolution left: no search is issued for it. *)
Theorem empty_query_rules_are_reported (gmail : Gmail) :
  (forall args w,
     truthy_str (a_query args) = false ->
     truthy_str (a_sender_pattern args) = false ->
     truthy_str (a_subject_pattern args) = false ->
     nonempty_array (a_subject_contains args) = false ->
     exists msg,
       toolAddAutoLabelingRule gmail args w = (Throw (McpError InvalidParams msg), w)) /\
  (forall dry_run rule rest acc w,
     truthy_str (query rule) = false ->
     truthy_str (sender_pattern rule) = false ->
     truthy_str (subject_pattern rule) = false ->
     auto_label_loop gmail dry_run (rule :: rest) acc w =
     auto_label_loop gmail dry_run rest
       (acc.1, (acc.2 ++ [mkRuleError (label_name rule) no_criteria_message])%list) w) /\
  (forall args index rule rest st w,
     truthy_str (query rule) = false ->
     nonempty_array (subject_contains rule) = false ->
     (forall labelId w1,
        find_or_create_label gmail (label_name rule) w = (Ret labelId, w1) ->
        run_rules_loop gmail args ((index, rule) :: rest) st w =
        run_rules_loop gmail args rest
          (mkRunState (mem_rules st)
             (run_results st ++
                [mkRuleResult (label_name rule) labelId 0 None None no_search_criteria None])
             (run_errors st)) w1) /\
     (forall e w1,
        find_or_create_label gmail (label_name rule) w = (Throw e, w1) ->
        run_rules_loop gmail args ((index, rule) :: rest) st w =
        run_rules_loop gmail args rest
          (mkRunState (mem_rules st) (run_results st)
             (run_errors st ++ [mkRuleError (label_name rule) (message e)])) w1)).
Proof.
  split.
  { intros args w Hq Hs Hsub Hc. unfold toolAddAutoLabelingRule.
    destruct (negb (truthy_str (a_label_name args))); [eexists; reflexivity |].
    unfold mbind, M_bind. rewrite load_stored.
    unfold add_search_query, pattern_conditions, push_if. rewrite Hq, Hs, Hsub, Hc.
    simpl. eexists. reflexivity. }
  split.
  { intros dry_run rule rest acc w Hq Hs Hsub. cbn [auto_label_loop].
    unfold mbind at 1, M_bind at 1, auto_label_rule, try_catch, auto_label_body.
    unfold auto_label_query, push_if. rewrite Hq, Hs, Hsub. simpl.
    destruct acc; reflexivity. }
  intros args index rule rest st w Hq Hc.
  assert (truthy_str (runner_query rule) = false) as Hrq
    by (unfold runner_query; rewrite Hq, Hc; simpl; exact Hq).
  split.
  - intros labelId w1 H. cbn [run_rules_loop].
    unfold mbind at 1, M_bind at 1, run_rule, try_catch, run_rule_body.
    unfold mbind at 1 2, M_bind at 1 2. rewrite H, Hrq. reflexivity.
  - intros e w1 H. cbn [run_rules_loop].
    unfold mbind at 1, M_bind at 1, run_rule, try_catch, run_rule_body.
    unfold mbind at 1 2, M_bind at 1 2. rewrite H. reflexivity.
Qed.

Lemma empty_query_rules_are_reported_witness :
  let w := test_world plain_box (rule_file [empty_rule; rule_B]) in
  (exists msg,
     toolAddAutoLabelingRule test_gmail (mkAddRuleArgs (Some "Empty") None None None None None) w
       = (Throw (McpError InvalidParams msg), w)) /\
  (toolAutoLabelEmails test_gmail (Some [empty_rule; sender_only_rule]) true w).1 =
    Ret (mkReport true 2 1 1
           [mkRuleResult "Work" "Label_Work" 3 None None dry_run_status
              (Some "from:@example.com")]
           [mkRuleError "Empty" no_criteria_message]) /\
  auto_label_loop test_gmail true [empty_rule; sender_only_rule] ([], []) w =
    auto_label_loop test_gmail true [sender_only_rule]
      ([], [mkRuleError "Empty" no_criteria_message]) w /\
  (exists w1,
     find_or_create_label test_gmail "Empty" w = (Ret "Label_Empty", w1) /\
     run_rules_loop test_gmail (mkRunArgs true 100 100 10) [(0%nat, empty_rule); (1%nat, rule_B)]
       (mkRunState [empty_rule; rule_B] [] []) w =
     run_rules_loop test_gmail (mkRunArgs true 100 100 10) [(1%nat, rule_B)]
       (mkRunState [empty_rule; rule_B]
          [mkRuleResult "Empty" "Label_Empty" 0 None None no_search_criteria None] []) w1) /\
  (exists w1,
     run_rules_loop down_gmail (mkRunArgs true 100 100 10) [(0%nat, empty_rule)]
       (mkRunState [empty_rule] [] []) (down_world (rule_file [empty_rule])) =
     (Ret (mkRunState [empty_rule] [] [mkRuleError "Empty" "unavailable"]), w1)).
Proof.
  cbv zeta.
  pose proof (empty_query_rules_are_reported test_gmail) as (Hadd & Hauto & Hrun).
  split; [apply Hadd; reflexivity |].
  split; [vm_compute; reflexivity |].
  split; [apply (Hauto true empty_rule [sender_only_rule] ([], [])); reflexivity |].
  split.
  - eexists. split; [vm_compute; reflexivity |].
    apply (proj1 (Hrun (mkRunArgs true 100 100 10) 0%nat empty_rule [(1%nat, rule_B)]
                    (mkRunState [empty_rule; rule_B] [] [])
                    (test_world plain_box (rule_file [empty_rule; rule_B]))
                    eq_refl eq_refl)).
    vm_compute. reflexivity.
  - eexists.
    rewrite (proj2 (proj2 (proj2 (empty_query_rules_are_reported down_gmail))
                      (mkRunArgs true 100 100 10) 0%nat empty_rule []
                      (mkRunState [empty_rule] [] [])
                      (down_world (rule_file [empty_rule])) eq_refl eq_refl)
               (JsError "unavailable")
               (log down_gmail CLabelsList (down_world (rule_file [empty_rule]))) eq_refl).
    reflexivity.
Defined.

(** C5, as stated, fails for the rule runner when the label of the rule
    cannot be resolved: the runner resolves the label before it looks at
    the query, so that a rule without any search criterion is recorded
    with the error of the label listing, and no no-search-criteria
    outcome is recorded for it. *)
Lemma runner_reports_label_failure_first :
  let w := down_world (rule_file [empty_rule]) in
  runner_query empty_rule = None /\
  exists rep w',
    toolRunAutoLabelingRules down_gmail (mkRunArgs false 100 100 10) w =
      (Ret (RunCompleted 1 rep), w') /\
    results rep = [] /\
    rep_errors rep = [mkRuleError "Empty" "unavailable"] /\
    rep_successful rep = 0 /\ rep_failed rep = 1 /\
    calls down_gmail w' = [CLabelsList].
Proof.
  cbv zeta. split; [reflexivity |].
  eexists. eexists. split; [vm_compute; reflexivity |].
  repeat split; reflexivity.
Qed.

(** ** Dry runs *)

Section DryRunFacts.

Context {gmail : Gmail}.

Variable I : World gmail -> Prop.

Hypothesis list_stable : forall p, stable I (list_messages gmail p).

Lemma collect_pages_stable qry bs remaining : forall st,
  stable I (collect_pages gmail qry bs remaining st).
Proof.
  induction remaining as [| n IH]; intros st; cbn [collect_pages];
    [apply stable_ret |].
  apply stable_bind; [apply list_stable |]. intros l. cbv zeta.
  destruct (_ =? _)%nat; [apply stable_ret |].
  destruct (negb _); [apply stable_ret | apply IH].
Qed.

Lemma run_rule_dry_stable args index rule st :
  r_dry_run args = true ->
  stable I (find_or_create_label gmail (label_name rule)) ->
  stable I (run_rule gmail args index rule st).
Proof.
  intros Hdry Hlabel. unfold run_rule.
  apply stable_try_catch; [| intros e; apply stable_ret].
  apply stable_bind; [| intros; apply stable_ret].
  unfold run_rule_body. apply stable_bind; [exact Hlabel |]. intros labelId.
  cbv zeta. destruct (negb _); [apply stable_ret |].
  apply stable_bind; [apply collect_pages_stable |]. intros c.
  destruct (_ =? _); [apply stable_ret |].
  rewrite Hdry. apply stable_ret.
Qed.

Lemma run_rules_loop_dry_stable args todo : forall st,
  r_dry_run args = true ->
  (forall ir, In ir todo -> stable I (find_or_create_label gmail (label_name ir.2))) ->
  stable I (run_rules_loop gmail args todo st).
Proof.
  induction todo as [| [index rule] rest IH]; intros st Hdry Hlabels;
    cbn [run_rules_loop]; [apply stable_ret |].
  apply stable_bind.
  - apply run_rule_dry_stable; [exact Hdry |]. apply (Hlabels (index, rule)). left. reflexivity.
  - intros st1. apply IH; [exact Hdry |]. intros ir Hin. apply Hlabels. right. exact Hin.
Qed.

Lemma toolRun_dry_stable args w r w' :
  r_dry_run args = true ->
  (forall rule, In rule (stored_rules w) -> is_enabled rule = true ->
     stable I (find_or_create_label gmail (label_name rule))) ->
  I w ->
  toolRunAutoLabelingRules gmail args w = (r, w') -> I w'.
Proof.
  intros Hdry Hlabels HI. unfold toolRunAutoLabelingRules.
  unfold mbind at 1, M_bind at 1. rewrite load_stored. cbv zeta.
  destruct (_ =? _)%nat; [intros H; inversion H; subst; exact HI |].
  unfold mbind at 1, M_bind at 1, getGmail at 1.
  destruct (unauthorized gmail w); [intros H; inversion H; subst; exact HI |].
  intros H. revert HI H. apply stable_bind; [| intros; apply stable_ret].
  apply run_rules_loop_dry_stable; [exact Hdry |].
  intros [index rule] Hin. unfold enabledRules in Hin.
  apply List.filter_In in Hin as [Hin Hen]. simpl in *.
  apply Hlabels; [| exact Hen].
  apply list_elem_of_In, list_elem_of_lookup in Hin as [k Hk].
  apply list_lookup_imap_Some in Hk as (rule' & Hk & Heq). inversion Heq; subst.
  apply list_elem_of_In, list_elem_of_lookup. eauto.
Qed.

End DryRunFacts.

Section DryRunInvariants.

Context {gmail : Gmail}.

Lemma logged_since_refl P (w : World gmail) : logged_since P w w.
Proof. exists []. split; [reflexivity | constructor]. Qed.

Lemma logged_since_log (P : Call -> Prop) (w0 w : World gmail) c :
  logged_since P w0 w -> P c -> logged_since P w0 (log gmail c w).
Proof.
  intros (pre & Hpre & Hall) Hc. exists (c :: pre). simpl. rewrite Hpre.
  split; [reflexivity | constructor; assumption].
Qed.

Lemma read_call_world {A} c (f : Mbox gmail -> string + A) w r w' :
  read_call gmail c f w = (r, w') -> w' = log gmail c w.
Proof. unfold read_call. intros H. inversion H. reflexivity. Qed.

Lemma write_call_world {A} c (f : Mbox gmail -> (string + A) * Mbox gmail) w r w' :
  write_call gmail c f w = (r, w') -> exists m, w' = set_mbox gmail m (log gmail c w).
Proof.
  unfold write_call. destruct (f (mbox gmail w)) as [x m]. intros H. inversion H. eauto.
Qed.

Lemma dry_inv_read {A} w0 c (f : Mbox gmail -> string + A) :
  modifies_messages c = false -> stable (dry_inv w0) (read_call gmail c f).
Proof.
  intros Hc w r w' [Hfile Hlog] H. apply read_call_world in H. subst.
  split; [exact Hfile | apply logged_since_log; assumption].
Qed.

Lemma dry_inv_write {A} w0 c (f : Mbox gmail -> (string + A) * Mbox gmail) :
  modifies_messages c = false -> stable (dry_inv w0) (write_call gmail c f).
Proof.
  intros Hc w r w' [Hfile Hlog] H. apply write_call_world in H as [m ->].
  split; [exact Hfile |].
  exact (logged_since_log _ w0 w c Hlog Hc).
Qed.

Lemma dry_inv_label w0 name : stable (dry_inv w0) (find_or_create_label gmail name).
Proof.
  unfold find_or_create_label. apply stable_bind; [apply dry_inv_read; reflexivity |].
  intros labels. destruct (labels ≫= _); [apply stable_ret |].
  apply stable_bind; [apply dry_inv_write; reflexivity | intros; apply stable_ret].
Qed.

Lemma untouched_read {A} w0 c (f : Mbox gmail -> string + A) :
  mutating c = false -> stable (untouched w0) (read_call gmail c f).
Proof.
  intros Hc w r w' [Hsame Hlog] H. apply read_call_world in H. subst.
  split; [exact Hsame | apply logged_since_log; assumption].
Qed.

Lemma untouched_label w0 name :
  label_resolves (mbox gmail w0) name ->
  stable (untouched w0) (find_or_create_label gmail name).
Proof.
  intros Hres w r w' HI. pose proof HI as [(Hm & _) _].
  unfold find_or_create_label, mbind, M_bind, list_labels.
  destruct (read_call gmail CLabelsList (labels_list gmail) w) as [r1 w1] eqn:E.
  pose proof (untouched_read w0 CLabelsList (labels_list gmail) eq_refl w r1 w1 HI E) as HI1.
  unfold read_call in E. inversion E; subst r1. clear E.
  unfold label_resolves in Hres. rewrite Hm in Hres.
  destruct (labels_list gmail (mbox gmail w)) as [msg | labels];
    cbv beta iota delta [lift_err].
  - intros H. inversion H; subst. exact HI1.
  - destruct Hres as [l Hl]. unfold mbind in Hl. rewrite Hl.
    intros H. inversion H; subst. exact HI1.
Qed.

End DryRunInvariants.

(** C8, as the code has it. A dry run of [toolBulkDeleteEmails] issues the
    count probe and no other call, leaves the mailbox and the rule file as
    they were and, when it reports a dry run, reports the estimate of the
    probe and the batch count computed from it. A dry run of
    [toolRunAutoLabelingRules] never writes the rule file and issues no
    call that changes messages. When moreover the label of every enabled
    rule is found by the label listing (or the listing fails), it issues
    read calls only, leaves the mailbox as it was, and a second dry run
    returns what the first one returned. *)
Theorem dry_runs_change_no_message (gmail : Gmail) :
  (forall args w r w',
     bd_dry_run args = true ->
     toolBulkDeleteEmails gmail args w = (r, w') ->
     mbox gmail w' = mbox gmail w /\ rules_file gmail w' = rules_file gmail w /\
     (calls gmail w' = calls gmail w \/
      calls gmail w' =
        CList (mkListParams (default EmptyString (bd_query args)) 1 None) :: calls gmail w) /\
     (forall qry e, r = Ret (DryRun qry e) ->
        exists l,
          messages_list gmail (mbox gmail w) (mkListParams qry 1 None) = inr l /\
          total_estimated e = num_or (resultSizeEstimate l) 0 /\
          est_batch_size e = clamp_batch (num_or (bd_batch_size args) 100) /\
          estimated_batches e = ceil_div (total_estimated e) (est_batch_size e))) /\
  (forall args w r w',
     r_dry_run args = true ->
     toolRunAutoLabelingRules gmail args w = (r, w') ->
     rules_file gmail w' = rules_file gmail w /\
     logged_since (fun c => modifies_messages c = false) w w' /\
     ((forall rule, In rule (stored_rules w) -> is_enabled rule = true ->
         label_resolves (mbox gmail w) (label_name rule)) ->
      mbox gmail w' = mbox gmail w /\
      logged_since (fun c => mutating c = false) w w' /\
      (toolRunAutoLabelingRules gmail args w').1 = r)).
Proof.
  split.
  - intros args w r w' Hdry. unfold toolBulkDeleteEmails.
    destruct (negb (truthy_str (bd_query args))).
    { intros H. inversion H; subst. repeat split; auto. discriminate. }
    unfold mbind at 1, M_bind at 1, getGmail at 1.
    destruct (unauthorized gmail w).
    { intros H. inversion H; subst. repeat split; auto. discriminate. }
    unfold mbind at 1, M_bind at 1, probe, mbind at 1, M_bind at 1,
      list_messages, read_call.
    destruct (messages_list gmail (mbox gmail w) _) as [msg | l] eqn:El; simpl.
    { intros H. inversion H; subst. simpl. repeat split; auto. discriminate. }
    destruct (num_or (resultSizeEstimate l) 0 =? 0).
    { intros H. inversion H; subst. simpl. repeat split; auto. discriminate. }
    rewrite Hdry. intros H. inversion H; subst. simpl.
    split; [reflexivity |]. split; [reflexivity |]. split; [auto |].
    intros qry e He. inversion He; subst. exists l. simpl. auto.
  - intros args w r w' Hdry Hrun.
    assert (dry_inv w w') as [Hfile Hlog].
    { eapply (toolRun_dry_stable (dry_inv w)); try eassumption.
      - intros p. apply dry_inv_read. reflexivity.
      - intros rule _ _. apply dry_inv_label.
      - split; [reflexivity | apply logged_since_refl]. }
    split; [exact Hfile |]. split; [exact Hlog |].
    intros Hlabels.
    assert (untouched w w') as [Hsame Hreads].
    { eapply (toolRun_dry_stable (untouched w)); try eassumption.
      - intros p. apply untouched_read. reflexivity.
      - intros rule Hin Hen. apply untouched_label. apply Hlabels; assumption.
      - split; [apply same_state_refl | apply logged_since_refl]. }
    split; [symmetry; apply Hsame |]. split; [exact Hreads |].
    destruct (toolRun_respects args w' w (same_state_sym _ _ Hsame)) as [Heq _].
    rewrite Heq, Hrun. reflexivity.
Qed.

Lemma dry_runs_change_no_message_witness :
  (exists w',
     toolBulkDeleteEmails test_gmail (mkBulkDeleteArgs (Some "is:old") (Some 100) true true)
       (test_world box250 None) = (Ret (DryRun "is:old" (mkEstimate 250 100 3)), w') /\
     mbox test_gmail w' = box250 /\
     calls test_gmail w' = [CList (mkListParams "is:old" 1 None)] /\
     exists l, tb_list box250 (mkListParams "is:old" 1 None) = inr l /\
               resultSizeEstimate l = Some 250) /\
  (let w := test_world labelled_box (rule_file [rule_B; rule_C]) in
   let r := Ret (RunCompleted 2
                   (mkReport true 1 1 0
                      [mkRuleResult "B" "Label_7" 3 None (Some 1) dry_run_status
                         (Some "from:@b.com")] [])) in
   exists w',
     toolRunAutoLabelingRules test_gmail (mkRunArgs true 100 100 10) w = (r, w') /\
     rules_file test_gmail w' = rules_file test_gmail w /\
     mbox test_gmail w' = labelled_box /\
     (toolRunAutoLabelingRules test_gmail (mkRunArgs true 100 100 10) w').1 = r).
Proof.
  split.
  - eexists. split; [vm_compute; reflexivity |].
    pose proof (proj1 (dry_runs_change_no_message test_gmail)
                  (mkBulkDeleteArgs (Some "is:old") (Some 100) true true)
                  (test_world box250 None) _ _ eq_refl eq_refl) as (Hm & _ & _ & Hest).
    split; [exact Hm |]. split; [reflexivity |].
    destruct (Hest "is:old" (mkEstimate 250 100 3) eq_refl) as (l & Hl & _).
    exists l. split; [exact Hl |]. vm_compute in Hl. inversion Hl. reflexivity.
  - cbv zeta. eexists. split; [vm_compute; reflexivity |].
    pose proof (proj2 (dry_runs_change_no_message test_gmail)
                  (mkRunArgs true 100 100 10)
                  (test_world labelled_box (rule_file [rule_B; rule_C])) _ _ eq_refl eq_refl)
      as (Hfile & _ & Hrest).
    split; [exact Hfile |].
    assert (forall rule,
              In rule (stored_rules (test_world labelled_box (rule_file [rule_B; rule_C]))) ->
              is_enabled rule = true ->
              label_resolves
                (mbox test_gmail (test_world labelled_box (rule_file [rule_B; rule_C])))
                (label_name rule)) as Hlabels.
    { intros rule [<- | [<- | []]] Hen; [| discriminate].
      unfold label_resolves. simpl. eauto. }
    destruct (Hrest Hlabels) as (Hm & _ & Hagain).
    split; [exact Hm | exact Hagain].
Defined.

(** C8, as stated, fails for the rule runner: a dry run over a rule whose
    label does not exist creates the label, and so changes the mailbox. *)
Lemma dry_run_creates_missing_labels :
  let w := test_world plain_box (rule_file [rule_A]) in
  exists rep w',
    toolRunAutoLabelingRules test_gmail (mkRunArgs true 100 100 10) w =
      (Ret (RunCompleted 1 rep), w') /\
    map status (results rep) = [dry_run_status] /\
    tb_labels (mbox test_gmail w) = [] /\
    tb_labels (mbox test_gmail w') = [mkLabel "Label_A" "A"] /\
    mbox test_gmail w' <> mbox test_gmail w /\
    List.filter mutating (calls test_gmail w') = [CLabelsCreate "A"].
Proof.
  cbv zeta. eexists. eexists. split; [vm_compute; reflexivity |].
  split; [reflexivity |]. split; [reflexivity |]. split; [reflexivity |].
  split; [| reflexivity]. simpl. intros H. inversion H.
Qed.

(** * Further properties of the tools

    ** The rule store: adding, removing and updating *)

Section StoreTools.

Context {gmail : Gmail}.

Lemma toolList_stored (w : World gmail) :
  toolListAutoLabelingRules gmail w = (Ret (imap format_rule (stored_rules w)), w).
Proof. reflexivity. Qed.

Lemma toolAdd_ok args (w : World gmail) :
  truthy_str (a_label_name args) = true ->
  add_search_query (a_query args) (a_sender_pattern args) (a_subject_pattern args)
    (a_subject_contains args) <> EmptyString ->
  let newRule :=
    mkRule (default EmptyString (a_label_name args))
           (str_or_null (a_sender_pattern args)) (str_or_null (a_subject_pattern args))
           (a_subject_contains args)
           (Some (add_search_query (a_query args) (a_sender_pattern args)
                    (a_subject_pattern args) (a_subject_contains args)))
           (Some (default true (a_enabled args))) (Some (clock gmail w)) None None in
  toolAddAutoLabelingRule gmail args w =
  (Ret (mkAddRulePayload (Z.of_nat (length (stored_rules w ++ [newRule])) - 1) newRule
          (Z.of_nat (length (stored_rules w ++ [newRule])))),
   set_rules_file gmail
     (Some (mkConfig "1.0.0" (clock gmail w) (Some (stored_rules w ++ [newRule])%list))) w).
Proof.
  intros Hl Hq. unfold toolAddAutoLabelingRule. rewrite Hl.
  change (negb true) with false. cbv iota.
  unfold mbind, M_bind. rewrite load_stored. cbv zeta.
  destruct (String.eqb_spec
              (add_search_query (a_query args) (a_sender_pattern args)
                 (a_subject_pattern args) (a_subject_contains args)) EmptyString);
    [contradiction |].
  reflexivity.
Qed.

Lemma toolRemove_ok (i : nat) (w : World gmail) :
  (i < length (stored_rules w))%nat ->
  toolRemoveAutoLabelingRule gmail (Some (Z.of_nat i)) w =
  (Ret (mkRemoveRulePayload (Z.of_nat i) (stored_rules w !! i)
          (Z.of_nat (length (delete i (stored_rules w))))),
   set_rules_file gmail
     (Some (mkConfig "1.0.0" (clock gmail w) (Some (delete i (stored_rules w))))) w).
Proof.
  intros Hi. unfold toolRemoveAutoLabelingRule.
  destruct (Z.ltb_spec (Z.of_nat i) 0); [lia |].
  unfold mbind, M_bind. rewrite load_stored.
  destruct (Z.geb_spec (Z.of_nat i) (Z.of_nat (length (stored_rules w)))); [lia |].
  rewrite Nat2Z.id. reflexivity.
Qed.

Lemma stored_after_save v t rs (w : World gmail) :
  stored_rules (set_rules_file gmail (Some (mkConfig v t (Some rs))) w) = rs.
Proof. reflexivity. Qed.

End StoreTools.

(** X1. A call of [toolAddAutoLabelingRule] with a label name and some
    search criterion appends one rule to the stored list and touches
    nothing else: the rules stored before keep their places, the new rule
    stands at the index the payload names, with the synthesized (or
    given) query, enabled unless told otherwise and never run, and
    [toolListAutoLabelingRules] then lists it at that index. A query that
    is given is stored word for word, whatever the pattern fields are. *)
Theorem add_rule_appends (gmail : Gmail) (args : AddRuleArgs) (w : World gmail) :
  truthy_str (a_label_name args) = true ->
  add_search_query (a_query args) (a_sender_pattern args) (a_subject_pattern args)
    (a_subject_contains args) <> EmptyString ->
  exists p w',
    toolAddAutoLabelingRule gmail args w = (Ret p, w') /\
    stored_rules w' = (stored_rules w ++ [added_rule p])%list /\
    added_index p = Z.of_nat (length (stored_rules w)) /\
    total_rules p = Z.of_nat (length (stored_rules w)) + 1 /\
    Some (label_name (added_rule p)) = a_label_name args /\
    (truthy_str (a_query args) = true -> query (added_rule p) = a_query args) /\
    enabled (added_rule p) = Some (default true (a_enabled args)) /\
    last_run (added_rule p) = None /\
    mbox gmail w' = mbox gmail w /\ calls gmail w' = calls gmail w /\
    exists listed,
      (toolListAutoLabelingRules gmail w').1 = Ret listed /\
      listed !! length (stored_rules w) =
        Some (format_rule (length (stored_rules w)) (added_rule p)) /\
      (forall j, (j < length (stored_rules w))%nat ->
         listed !! j = format_rule j <$> stored_rules w !! j).
Proof.
  intros Hl Hq. pose proof (toolAdd_ok args w Hl Hq) as Hadd. cbv zeta in Hadd.
  match type of Hadd with _ = (Ret (mkAddRulePayload _ ?r _), _) =>
    set (newRule := r) in * end.
  eexists. eexists. split; [exact Hadd |].
  cbn [added_rule added_index total_rules].
  split; [reflexivity |].
  split; [rewrite length_app; cbn [length]; lia |].
  split; [rewrite length_app; cbn [length]; lia |].
  split.
  { unfold newRule. cbn [label_name]. destruct (a_label_name args); [reflexivity | discriminate]. }
  split.
  { intros Ht. unfold newRule, add_search_query. cbn [query]. rewrite Ht.
    destruct (a_query args); [reflexivity | discriminate]. }
  split; [reflexivity |]. split; [reflexivity |].
  split; [reflexivity |]. split; [reflexivity |].
  exists (imap format_rule (stored_rules w ++ [newRule])).
  split; [reflexivity |].
  split.
  - rewrite list_lookup_imap, lookup_app_r by lia.
    rewrite Nat.sub_diag. reflexivity.
  - intros j Hj. rewrite list_lookup_imap, lookup_app_l by exact Hj. reflexivity.
Qed.

Lemma add_rule_appends_witness :
  exists p w',
    toolAddAutoLabelingRule test_gmail
      (mkAddRuleArgs (Some "News") (Some "@ignored.com") None None (Some "list:news") None)
      (test_world plain_box (rule_file three_rules)) = (Ret p, w') /\
    stored_rules w' = [rule_A; rule_B; rule_C; added_rule p] /\
    added_index p = 3 /\
    query (added_rule p) = Some "list:news".
Proof.
  destruct (add_rule_appends test_gmail
              (mkAddRuleArgs (Some "News") (Some "@ignored.com") None None
                 (Some "list:news") None)
              (test_world plain_box (rule_file three_rules)) eq_refl
              ltac:(vm_compute; discriminate))
    as (p & w' & Hrun & Hst & Hidx & _ & _ & Hq & _).
  exists p, w'. split; [exact Hrun |]. split; [exact Hst |].
  split; [exact Hidx |]. apply Hq. reflexivity.
Defined.

(** X2. Removing the rule that [toolAddAutoLabelingRule] has just added,
    at the index its payload names, gives back the stored list as it was
    before the addition. *)
Theorem add_then_remove_restores (gmail : Gmail) (args : AddRuleArgs) (w : World gmail) :
  truthy_str (a_label_name args) = true ->
  add_search_query (a_query args) (a_sender_pattern args) (a_subject_pattern args)
    (a_subject_contains args) <> EmptyString ->
  exists p w1 p' w2,
    toolAddAutoLabelingRule gmail args w = (Ret p, w1) /\
    toolRemoveAutoLabelingRule gmail (Some (added_index p)) w1 = (Ret p', w2) /\
    removed_rule p' = Some (added_rule p) /\
    remaining_rules p' = Z.of_nat (length (stored_rules w)) /\
    stored_rules w2 = stored_rules w.
Proof.
  intros Hl Hq. pose proof (toolAdd_ok args w Hl Hq) as Hadd. cbv zeta in Hadd.
  match type of Hadd with _ = (Ret (mkAddRulePayload _ ?r _), ?w1) =>
    set (newRule := r) in *; set (w1' := w1) in *;
    assert (stored_rules w1' = (stored_rules w ++ [newRule])%list) as Hst1 by reflexivity
  end.
  pose proof (toolRemove_ok (length (stored_rules w)) w1') as Hrem.
  rewrite Hst1, length_app in Hrem. cbn [length] in Hrem.
  specialize (Hrem ltac:(lia)).
  replace (length (stored_rules w)) with (length (stored_rules w) + 0)%nat in Hrem at 2 3
    by lia.
  rewrite (delete_middle (stored_rules w) []), app_nil_r in Hrem.
  rewrite lookup_app_r, Nat.add_0_r, Nat.sub_diag in Hrem by lia.
  eexists. eexists. eexists. eexists. split; [exact Hadd |].
  cbn [added_index]. rewrite length_app. cbn [length].
  replace (Z.of_nat (length (stored_rules w) + 1) - 1)
    with (Z.of_nat (length (stored_rules w))) by lia.
  split; [exact Hrem |].
  split; [reflexivity |]. split; [reflexivity |]. reflexivity.
Qed.

Lemma add_then_remove_restores_witness :
  exists p w1 p' w2,
    toolAddAutoLabelingRule test_gmail
      (mkAddRuleArgs (Some "News") None (Some "weekly") None None (Some false))
      (test_world plain_box (rule_file three_rules)) = (Ret p, w1) /\
    toolRemoveAutoLabelingRule test_gmail (Some (added_index p)) w1 = (Ret p', w2) /\
    stored_rules w2 = three_rules.
Proof.
  destruct (add_then_remove_restores test_gmail
              (mkAddRuleArgs (Some "News") None (Some "weekly") None None (Some false))
              (test_world plain_box (rule_file three_rules)) eq_refl
              ltac:(vm_compute; discriminate))
    as (p & w1 & p' & w2 & Hadd & Hrem & _ & _ & Hst).
  exists p, w1, p', w2. split; [exact Hadd |]. split; [exact Hrem | exact Hst].
Defined.

(** X3. [toolUpdateAutoLabelingRule] rewrites one rule in place: for an
    index in range the stored list keeps its length and every other rule,
    the payload reports the rule before and after, the creation and
    last-run stamps are kept and the update stamp is the clock; a query
    that is given (and not empty) is stored word for word, whatever
    patterns come with it. An index out of range throws an InvalidRequest
    error, a missing or negative one an InvalidParams error, and both
    leave the world as it was. *)
Theorem update_rewrites_one_rule (gmail : Gmail) (args : UpdateRuleArgs) (w : World gmail) :
  (forall i rule,
     u_rule_index args = Some (Z.of_nat i) ->
     stored_rules w !! i = Some rule ->
     exists p w',
       toolUpdateAutoLabelingRule gmail args w = (Ret p, w') /\
       original p = rule /\
       stored_rules w' !! i = Some (up_updated p) /\
       length (stored_rules w') = length (stored_rules w) /\
       (forall j, j <> i -> stored_rules w' !! j = stored_rules w !! j) /\
       created (up_updated p) = created rule /\
       last_run (up_updated p) = last_run rule /\
       updated (up_updated p) = Some (clock gmail w) /\
       (forall qv, u_query args = Value qv -> qv <> EmptyString ->
          query (up_updated p) = Some qv) /\
       mbox gmail w' = mbox gmail w /\ calls gmail w' = calls gmail w) /\
  (forall i,
     u_rule_index args = Some i -> Z.of_nat (length (stored_rules w)) <= i ->
     exists msg,
       toolUpdateAutoLabelingRule gmail args w = (Throw (McpError InvalidRequest msg), w)) /\
  (u_rule_index args = None \/ (exists i, u_rule_index args = Some i /\ i < 0) ->
   exists msg,
     toolUpdateAutoLabelingRule gmail args w = (Throw (McpError InvalidParams msg), w)).
Proof.
  split; [| split].
  - intros i rule Hidx Hlook.
    assert (i < length (stored_rules w))%nat as Hlen
      by (apply lookup_lt_is_Some; eauto).
    unfold toolUpdateAutoLabelingRule. rewrite Hidx.
    destruct (Z.ltb_spec (Z.of_nat i) 0); [lia |].
    unfold mbind, M_bind. rewrite load_stored, Nat2Z.id, Hlook.
    eexists. eexists. split; [reflexivity |].
    cbn [original up_updated]. rewrite stored_after_save.
    split; [reflexivity |].
    split; [apply list_lookup_insert_eq; exact Hlen |].
    split; [apply length_insert |].
    split; [intros j Hj; apply list_lookup_insert_ne; congruence |].
    assert (forall r, created (rebuild_query args r) = created r /\
                      last_run (rebuild_query args r) = last_run r) as Hrb.
    { intros r. unfold rebuild_query.
      destruct (given _ || given _ || given _); [| auto].
      destruct (truthy_str (query r) && _); auto. }
    split; [cbn [set_updated created]; rewrite (proj1 (Hrb _)); reflexivity |].
    split; [cbn [set_updated last_run]; rewrite (proj2 (Hrb _)); reflexivity |].
    split; [reflexivity |].
    split; [| split; reflexivity].
    intros qv Hq Hne. cbn [set_updated query].
    unfold rebuild_query, assign_fields. rewrite Hq. cbn [arg_value given query].
    assert (truthy_str (Some qv) = true) as Ht.
    { unfold truthy_str. destruct (String.eqb_spec qv EmptyString); [contradiction | reflexivity]. }
    rewrite Ht. cbn [negb andb].
    destruct (given _ || given _ || given _); reflexivity.
  - intros i Hidx Hge. unfold toolUpdateAutoLabelingRule. rewrite Hidx.
    destruct (Z.ltb_spec i 0); [lia |].
    unfold mbind, M_bind. rewrite load_stored.
    rewrite (lookup_ge_None_2 (stored_rules w) (Z.to_nat i)) by lia.
    eexists. reflexivity.
  - intros [Hnone | (i & Hidx & Hneg)]; unfold toolUpdateAutoLabelingRule.
    + rewrite Hnone. eexists. reflexivity.
    + rewrite Hidx. destruct (Z.ltb_spec i 0); [| lia]. eexists. reflexivity.
Qed.

Lemma update_rewrites_one_rule_witness :
  let w := test_world plain_box (rule_file three_rules) in
  let args := mkUpdateRuleArgs (Some 1) (Some "Bees") (Value "@hive.org") Undefined Undefined
                               (Value "from:queen") (Some false) in
  (exists p w',
     toolUpdateAutoLabelingRule test_gmail args w = (Ret p, w') /\
     original p = rule_B /\
     query (up_updated p) = Some "from:queen" /\
     label_name (up_updated p) = "Bees" /\
     stored_rules w' !! 0%nat = Some rule_A /\ stored_rules w' !! 2%nat = Some rule_C) /\
  (exists msg,
     toolUpdateAutoLabelingRule test_gmail (clear_patterns 3) w =
       (Throw (McpError InvalidRequest msg), w)) /\
  (exists msg,
     toolUpdateAutoLabelingRule test_gmail (clear_patterns (-1)) w =
       (Throw (McpError InvalidParams msg), w)).
Proof.
  cbv zeta. split; [| split].
  - destruct (proj1 (update_rewrites_one_rule test_gmail
                       (mkUpdateRuleArgs (Some 1) (Some "Bees") (Value "@hive.org") Undefined
                          Undefined (Value "from:queen") (Some false))
                       (test_world plain_box (rule_file three_rules)))
                1%nat rule_B eq_refl eq_refl)
      as (p & w' & Hrun & Horig & _ & _ & Hother & _ & _ & _ & Hq & _).
    exists p, w'. split; [exact Hrun |]. split; [exact Horig |].
    split; [apply Hq; [reflexivity | discriminate] |].
    split; [vm_compute in Hrun; inversion Hrun; reflexivity |].
    split; [rewrite (Hother 0%nat) by lia | rewrite (Hother 2%nat) by lia]; reflexivity.
  - apply (proj1 (proj2 (update_rewrites_one_rule test_gmail (clear_patterns 3)
                           (test_world plain_box (rule_file three_rules)))) 3);
      [reflexivity | simpl; lia].
  - apply (proj2 (proj2 (update_rewrites_one_rule test_gmail (clear_patterns (-1))
                           (test_world plain_box (rule_file three_rules))))).
    right. exists (-1). split; [reflexivity | lia].
Defined.

(** ** The rule runner: pages and chunks *)





Section ChunkFacts.

Context {gmail : Gmail}.


End ChunkFacts.



Section CollectFacts.

Context {gmail : Gmail}.


End CollectFacts.



(** ** What the remote calls leave alone *)

Section Frame.

Context {gmail : Gmail}.

Variable I : World gmail -> Prop.

Hypothesis I_log : forall c w, I w -> I (log gmail c w).
Hypothesis I_mbox : forall m w, I w -> I (set_mbox gmail m w).

Lemma frame_read {A} c (f : Mbox gmail -> string + A) : stable I (read_call gmail c f).
Proof. intros w r w' HI H. apply read_call_world in H. subst. apply I_log. exact HI. Qed.

Lemma frame_write {A} c (f : Mbox gmail -> (string + A) * Mbox gmail) :
  stable I (write_call gmail c f).
Proof.
  intros w r w' HI H. apply write_call_world in H as [m ->].
  apply I_mbox, I_log. exact HI.
Qed.

Lemma frame_label name : stable I (find_or_create_label gmail name).
Proof.
  unfold find_or_create_label. apply stable_bind; [apply frame_read |].
  intros labels. destruct (labels ≫= _); [apply stable_ret |].
  apply stable_bind; [apply frame_write | intros; apply stable_ret].
Qed.

Lemma frame_collect qry bs remaining st : stable I (collect_pages gmail qry bs remaining st).
Proof. apply collect_pages_stable. intros p. apply frame_read. Qed.

Lemma frame_chunks labelId allIds starts : forall total,
  stable I (apply_chunks gmail labelId allIds starts total).
Proof.
  induction starts as [| i rest IH]; intros total; cbn [apply_chunks];
    [apply stable_ret |].
  apply stable_bind; [apply frame_write | intros; apply IH].
Qed.

End Frame.

Section RunnerStore.

Context {gmail : Gmail}.

Lemma stored_rules_file (w w' : World gmail) :
  rules_file gmail w' = rules_file gmail w -> stored_rules w' = stored_rules w.
Proof. unfold stored_rules. intros ->. reflexivity. Qed.

Lemma clear_alter_last_run t i rs :
  map clear_last_run (alter (set_last_run t) i rs) = map clear_last_run rs.
Proof.
  change (clear_last_run <$> alter (set_last_run t) i rs = clear_last_run <$> rs).
  rewrite (list_fmap_alter clear_last_run (set_last_run t) (fun r => r))
    by (apply Forall_true; intros r; reflexivity).
  apply list_alter_id. reflexivity.
Qed.

(** The [try] block of a rule either leaves the rule file and the loaded
    array alone, or ends by stamping the rule and saving the array. *)
Lemma run_rule_body_rules args index rule rs w r w' :
  run_rule_body gmail args index rule rs w = (r, w') ->
  (rules_file gmail w' = rules_file gmail w /\
   forall res rs', r = Ret (res, rs') -> rs' = rs) \/
  (exists res t,
     r = Ret (res, alter (set_last_run t) index rs) /\
     status res = labeled /\
     stored_rules w' = alter (set_last_run t) index rs).
Proof.
  set (I := fun v : World gmail => rules_file gmail v = rules_file gmail w).
  assert (forall c v, I v -> I (log gmail c v)) as Ilog by (intros c v H; exact H).
  assert (forall m v, I v -> I (set_mbox gmail m v)) as Imbox by (intros m v H; exact H).
  assert (I w) as HI by reflexivity.
  unfold run_rule_body, mbind at 1, M_bind at 1.
  destruct (find_or_create_label gmail (label_name rule) w) as [[labelId | e |] w1] eqn:E1;
    pose proof (frame_label I Ilog Imbox _ _ _ _ HI E1) as HI1;
    [| intros H; inversion H; subst; left; split; [exact HI1 | discriminate] ..].
  cbv zeta.
  destruct (negb (truthy_str (runner_query rule))).
  { intros H. inversion H; subst. left. split; [exact HI1 |].
    intros res rs' Heq. inversion Heq. reflexivity. }
  unfold mbind at 1, M_bind at 1.
  destruct (collect_pages gmail _ _ _ _ w1) as [[c | e |] w2] eqn:E2;
    pose proof (frame_collect I Ilog _ _ _ _ _ _ _ HI1 E2) as HI2;
    [| intros H; inversion H; subst; left; split; [exact HI2 | discriminate] ..].
  destruct (totalEmailsFound c =? 0).
  { intros H. inversion H; subst. left. split; [exact HI2 |].
    intros res rs' Heq. inversion Heq. reflexivity. }
  destruct (r_dry_run args).
  { intros H. inversion H; subst. left. split; [exact HI2 |].
    intros res rs' Heq. inversion Heq. reflexivity. }
  unfold mbind at 1, M_bind at 1.
  destruct (apply_chunks gmail labelId (allMessageIds c) _ 0 w2) as [[total | e |] w3] eqn:E3;
    pose proof (frame_chunks I Ilog Imbox _ _ _ _ _ _ _ HI2 E3) as HI3;
    [| intros H; inversion H; subst; left; split; [exact HI3 | discriminate] ..].
  intros H. unfold mbind, M_bind, now, saveAutoLabelingRules in H. simpl in H.
  inversion H; subst. right. eexists. exists (clock gmail w3).
  split; [reflexivity |]. split; reflexivity.
Qed.

Lemma run_rules_loop_keeps_rules args L todo : forall st w r w',
  run_rules_loop gmail args todo st w = (r, w') ->
  map clear_last_run (mem_rules st) = L ->
  map clear_last_run (stored_rules w) = L ->
  map clear_last_run (stored_rules w') = L.
Proof.
  induction todo as [| [index rule] rest IH]; intros st w r w' H Hmem Hfile;
    cbn [run_rules_loop] in H.
  - inversion H; subst. exact Hfile.
  - unfold mbind, M_bind in H.
    destruct (run_rule_returns args index rule st w) as (st1 & w1 & Hrun & Hcase).
    rewrite Hrun in H.
    assert (map clear_last_run (mem_rules st1) = L /\
            map clear_last_run (stored_rules w1) = L) as [Hmem1 Hfile1].
    { destruct Hcase as [(res & rs' & Hbody & _ & ->) | (e & Hbody & ->)];
        apply run_rule_body_rules in Hbody
          as [[Hf Hrs] | (res' & t & Heq & _ & Hst)]; cbn [mem_rules].
      - rewrite (Hrs _ _ eq_refl), (stored_rules_file _ _ Hf). auto.
      - inversion Heq; subst. rewrite Hst, clear_alter_last_run. auto.
      - rewrite (stored_rules_file _ _ Hf). auto.
      - discriminate. }
    eapply IH; eassumption.
Qed.

End RunnerStore.

(** X6. Whatever its arguments and however it ends,
    [toolRunAutoLabelingRules] changes nothing of the stored rules but
    last-run stamps: the stored list keeps its length and its order, and
    every rule keeps its label name, its patterns, its query, its enabled
    flag and its creation and update stamps. *)
Theorem runner_only_stamps_rules (gmail : Gmail) (args : RunArgs) (w : World gmail) r w' :
  toolRunAutoLabelingRules gmail args w = (r, w') ->
  map clear_last_run (stored_rules w') = map clear_last_run (stored_rules w).
Proof.
  unfold toolRunAutoLabelingRules. unfold mbind at 1, M_bind at 1.
  rewrite load_stored. cbv zeta.
  destruct (_ =? _)%nat; [intros H; inversion H; subst; reflexivity |].
  unfold mbind at 1, M_bind at 1, getGmail at 1.
  destruct (unauthorized gmail w); [intros H; inversion H; subst; reflexivity |].
  unfold mbind, M_bind.
  destruct (run_rules_loop gmail args (enabledRules (stored_rules w))
              (mkRunState (stored_rules w) [] []) w) as [r1 w1] eqn:Hloop.
  apply (run_rules_loop_keeps_rules args (map clear_last_run (stored_rules w))) in Hloop;
    [| reflexivity | reflexivity].
  destruct r1; intros H; inversion H; subst; exact Hloop.
Qed.

Lemma runner_only_stamps_rules_witness :
  exists r w',
    toolRunAutoLabelingRules test_gmail (mkRunArgs false 100 100 10)
      (test_world plain_box (rule_file [broken_rule; rule_B; rule_C])) = (r, w') /\
    map last_run (stored_rules w') = [None; Some "2024-01-01T00:00:00.000Z"; None] /\
    map clear_last_run (stored_rules w') = [broken_rule; rule_B; rule_C].
Proof.
  destruct (toolRunAutoLabelingRules test_gmail (mkRunArgs false 100 100 10)
              (test_world plain_box (rule_file [broken_rule; rule_B; rule_C])))
    as [r w'] eqn:Hrun.
  exists r, w'. split; [reflexivity |].
  split.
  - vm_compute in Hrun. inversion Hrun. reflexivity.
  - rewrite (runner_only_stamps_rules _ _ _ _ _ Hrun). reflexivity.
Defined.

(** ** [toolAutoLabelEmails]: one entry per rule *)

Section AutoLabelFacts.

Context {gmail : Gmail}.

Lemma auto_label_body_halts dry_run rule : halts (auto_label_body gmail dry_run rule).
Proof.
  unfold auto_label_body. cbv zeta. destruct (String.eqb _ _); [apply halts_ret |].
  apply halts_bind; [apply find_or_create_label_halts |]. intros labelId.
  apply halts_bind; [apply halts_read_call |]. intros l.
  destruct (_ =? _)%nat; [apply halts_ret |].
  destruct dry_run; [apply halts_ret |].
  apply halts_bind; [apply halts_write_call | intros; apply halts_ret].
Qed.

Lemma auto_label_body_label dry_run rule w o w' :
  auto_label_body gmail dry_run rule w = (Ret o, w') -> outcome_label o = label_name rule.
Proof.
  unfold auto_label_body. cbv zeta. destruct (String.eqb _ _);
    [intros H; inversion H; reflexivity |].
  intros H. apply bind_ret in H as (labelId & w1 & _ & H).
  apply bind_ret in H as (l & w2 & _ & H).
  destruct (_ =? _)%nat; [inversion H; reflexivity |].
  destruct dry_run; [inversion H; reflexivity |].
  apply bind_ret in H as ([] & w3 & _ & H). inversion H; reflexivity.
Qed.

Lemma auto_label_rule_returns dry_run rule w :
  exists o w', auto_label_rule gmail dry_run rule w = (Ret o, w') /\
               outcome_label o = label_name rule.
Proof.
  unfold auto_label_rule, try_catch.
  pose proof (auto_label_body_halts dry_run rule w) as Hh.
  destruct (auto_label_body gmail dry_run rule w) as [[o | e |] w1] eqn:E.
  - exists o, w1. split; [reflexivity |]. eapply auto_label_body_label; eassumption.
  - eexists. eexists. split; reflexivity.
  - exfalso. apply Hh. reflexivity.
Qed.

Lemma auto_label_loop_returns dry_run todo : forall acc w,
  exists acc' w',
    auto_label_loop gmail dry_run todo acc w = (Ret acc', w') /\
    (length acc'.1 + length acc'.2 = length acc.1 + length acc.2 + length todo)%nat /\
    (map rr_rule acc'.1 ++ map re_rule acc'.2) ≡ₚ
      ((map rr_rule acc.1 ++ map re_rule acc.2) ++ map label_name todo).
Proof.
  induction todo as [| rule rest IH]; intros acc w; cbn [auto_label_loop].
  - exists acc, w. split; [reflexivity |]. split; [simpl; lia |].
    simpl. rewrite app_nil_r. reflexivity.
  - destruct (auto_label_rule_returns dry_run rule w) as (o & w1 & Hrule & Hlabel).
    destruct (IH (push_outcome o acc) w1) as (acc' & w' & Hloop & Hlen & Hperm).
    exists acc', w'. split; [unfold mbind, M_bind; rewrite Hrule; exact Hloop |].
    destruct acc as [rs es]. destruct o as [r | e]; simpl in *;
      rewrite ?length_app in Hlen; simpl in Hlen.
    + split; [lia |]. rewrite Hperm, map_app. simpl. rewrite Hlabel.
      rewrite <- !app_assoc. apply Permutation_app_head. simpl.
      apply Permutation_middle.
    + split; [lia |]. rewrite Hperm, map_app. simpl. rewrite Hlabel.
      rewrite <- !app_assoc. reflexivity.
Qed.

Lemma auto_label_rule_dry_inv w0 rule : stable (dry_inv w0) (auto_label_rule gmail true rule).
Proof.
  unfold auto_label_rule. apply stable_try_catch; [| intros; apply stable_ret].
  unfold auto_label_body. cbv zeta. destruct (String.eqb _ _); [apply stable_ret |].
  apply stable_bind; [apply dry_inv_label |]. intros labelId.
  apply stable_bind; [apply dry_inv_read; reflexivity |]. intros l.
  destruct (_ =? _)%nat; apply stable_ret.
Qed.

Lemma auto_label_loop_dry_inv w0 todo : forall acc,
  stable (dry_inv w0) (auto_label_loop gmail true todo acc).
Proof.
  induction todo as [| rule rest IH]; intros acc; cbn [auto_label_loop];
    [apply stable_ret |].
  apply stable_bind; [apply auto_label_rule_dry_inv | intros; apply IH].
Qed.

End AutoLabelFacts.

(** X7. With a non-empty rule list and an authorized client,
    [toolAutoLabelEmails] always returns: no failure of the mailbox makes
    it throw. Its results and errors hold one entry for each rule given,
    under the label name of the rule, so that [successful + failed] is
    the number of rules. In a dry run it issues no call that changes
    messages. *)
Theorem auto_label_reports_every_rule (gmail : Gmail) (rs : list Rule) (dry_run : bool)
    (w : World gmail) :
  rs <> [] ->
  unauthorized gmail w = None ->
  exists rep w',
    toolAutoLabelEmails gmail (Some rs) dry_run w = (Ret rep, w') /\
    rules_processed rep = Z.of_nat (length rs) /\
    rep_successful rep + rep_failed rep = rules_processed rep /\
    rep_successful rep = Z.of_nat (length (results rep)) /\
    rep_failed rep = Z.of_nat (length (rep_errors rep)) /\
    (map rr_rule (results rep) ++ map re_rule (rep_errors rep)) ≡ₚ map label_name rs /\
    (dry_run = true -> logged_since (fun c => modifies_messages c = false) w w').
Proof.
  intros Hne Hauth. unfold toolAutoLabelEmails.
  destruct rs as [| rule rest]; [contradiction |].
  unfold mbind at 1, M_bind at 1, getGmail at 1. rewrite Hauth.
  destruct (auto_label_loop_returns dry_run (rule :: rest) ([], []) w)
    as (acc & w' & Hloop & Hlen & Hperm).
  unfold mbind, M_bind. rewrite Hloop. eexists. eexists. split; [reflexivity |].
  cbn [rules_processed rep_successful rep_failed results rep_errors].
  simpl in Hlen, Hperm.
  split; [reflexivity |]. split; [simpl; lia |].
  split; [reflexivity |]. split; [reflexivity |]. split; [exact Hperm |].
  intros ->.
  assert (dry_inv w w') as [_ Hlog]; [| exact Hlog].
  eapply (auto_label_loop_dry_inv w); [| exact Hloop].
  split; [reflexivity | apply logged_since_refl].
Qed.

Lemma auto_label_reports_every_rule_witness :
  exists rep w',
    toolAutoLabelEmails test_gmail (Some [broken_rule; sender_only_rule; empty_rule]) true
      (test_world plain_box None) = (Ret rep, w') /\
    rep_successful rep = 1 /\ rep_failed rep = 2 /\
    map re_rule (rep_errors rep) = ["Broken"; "Empty"] /\
    List.filter modifies_messages (calls test_gmail w') = [].
Proof.
  destruct (auto_label_reports_every_rule test_gmail
              [broken_rule; sender_only_rule; empty_rule] true
              (test_world plain_box None) ltac:(discriminate) eq_refl)
    as (rep & w' & Hrun & _).
  exists rep, w'. split; [exact Hrun |].
  vm_compute in Hrun. inversion Hrun; subst.
  split; [reflexivity |]. split; [reflexivity |]. split; reflexivity.
Defined.

(** ** Invariants of the call log *)

Section LogFacts.

Context {gmail : Gmail}.

Variable P : Call -> Prop.
Variable w0 : World gmail.

Lemma logged_read {A} c (f : Mbox gmail -> string + A) :
  P c -> stable (logged_since P w0) (read_call gmail c f).
Proof.
  intros Hc w r w' HI H. apply read_call_world in H. subst.
  apply logged_since_log; assumption.
Qed.

Lemma logged_write {A} c (f : Mbox gmail -> (string + A) * Mbox gmail) :
  P c -> stable (logged_since P w0) (write_call gmail c f).
Proof.
  intros Hc w r w' HI H. apply write_call_world in H as [m ->].
  exact (logged_since_log P w0 w c HI Hc).
Qed.

End LogFacts.

Section CombinatorFacts.

Context {gmail : Gmail}.

Variable I : World gmail -> Prop.

Lemma stable_promise_all {A} (ps : list (M gmail A)) :
  Forall (stable I) ps -> stable I (promise_all gmail ps).
Proof.
  induction 1 as [| p ps Hp Hps IH]; intros w r w' HI; cbn [promise_all].
  - intros H. inversion H; subst. exact HI.
  - destruct (p w) as [r1 w1] eqn:E1.
    destruct (promise_all gmail ps w1) as [rs w2] eqn:E2.
    intros H. inversion H; subst.
    eapply IH; [eapply Hp; eassumption | eassumption].
Qed.

Lemma stable_each_individually op emails : forall acc,
  (forall i, stable I (op i)) -> stable I (each_individually gmail op emails acc).
Proof.
  induction emails as [| email rest IH]; intros acc Hop; cbn [each_individually];
    [apply stable_ret |].
  apply stable_bind; [| intros; apply IH; exact Hop].
  apply stable_try_catch; [| intros; apply stable_ret].
  apply stable_bind; [apply Hop | intros; apply stable_ret].
Qed.

Lemma stable_batch_or_individually batch_op item_op emails :
  (forall l, stable I (batch_op l)) -> (forall i, stable I (item_op i)) ->
  stable I (batch_or_individually gmail batch_op item_op emails).
Proof.
  intros Hb Hi. unfold batch_or_individually.
  apply stable_try_catch; [| intros; apply stable_each_individually; exact Hi].
  apply stable_bind; [apply Hb | intros; apply stable_ret].
Qed.

Lemma stable_email_details msgs :
  (forall i, stable I (get_message gmail i)) ->
  stable I (promise_all gmail (map (email_detail gmail) msgs)).
Proof.
  intros Hget. apply stable_promise_all, Forall_forall. intros p Hp.
  apply list_elem_of_In, List.in_map_iff in Hp as (m & <- & _).
  unfold email_detail. apply stable_try_catch; [| intros; apply stable_ret].
  apply stable_bind; [apply Hget | intros; apply stable_ret].
Qed.

End CombinatorFacts.

Section DeleteByQueryFacts.

Context {gmail : Gmail}.

Lemma email_detail_returns m w :
  exists d, email_detail gmail m w = (Ret d, log gmail (CGet (id m)) w) /\ ed_id d = id m.
Proof.
  unfold email_detail, try_catch, mbind, M_bind, get_message, read_call.
  destruct (messages_get gmail (mbox gmail w) (id m)); simpl;
    eexists; split; reflexivity.
Qed.

Lemma email_details_return msgs : forall w,
  exists ds w', promise_all gmail (map (email_detail gmail) msgs) w = (Ret ds, w') /\
                map ed_id ds = map id msgs.
Proof.
  induction msgs as [| m msgs IH]; intros w; cbn [map promise_all].
  - eexists. eexists. split; reflexivity.
  - destruct (email_detail_returns m w) as (d & Hd & Hid). rewrite Hd.
    destruct (IH (log gmail (CGet (id m)) w)) as (ds & w' & Hrest & Hids).
    rewrite Hrest. exists (d :: ds), w'. split; [reflexivity |].
    simpl. rewrite Hid, Hids. reflexivity.
Qed.

Lemma each_individually_errors item_op emails : forall acc w ok errs w',
  each_individually gmail item_op emails acc w = (Ret (ok, errs), w') ->
  Forall (fun e => In (ie_id e) (map ed_id emails)) (drop (length acc.2) errs) /\
  take (length acc.2) errs = acc.2.
Proof.
  induction emails as [| email rest IH]; intros acc w ok errs w' H.
  - simpl in H. inversion H; subst. cbn [fst snd]. rewrite drop_all, take_ge by lia.
    split; [constructor | reflexivity].
  - cbn [each_individually] in H.
    apply bind_ret in H as (acc' & w1 & Hstep & H).
    apply IH in H as [Hall Htake].
    unfold try_catch, mbind, M_bind, mret, M_ret in Hstep.
    destruct (item_op (ed_id email) w) as [[[] | e |] w2]; inversion Hstep; subst;
      cbn [fst snd] in *.
    + split; [| exact Htake].
      eapply Forall_impl; [exact Hall |]. intros x Hx. simpl. auto.
    + rewrite length_app in Hall, Htake. cbn [length] in Hall, Htake.
      assert (errs = (acc.2 ++ [mkItemError (ed_id email) (message e)])
                       ++ drop (length acc.2 + 1) errs)%list as Herrs
        by (rewrite <- Htake at 1; rewrite take_drop; reflexivity).
      split.
      * rewrite Herrs at 1. rewrite <- app_assoc, drop_app_length.
        constructor; [simpl; auto |].
        eapply Forall_impl; [exact Hall |]. intros x Hx. simpl. auto.
      * rewrite Herrs, <- app_assoc. apply take_app_length.
Qed.

Lemma batch_or_individually_accounts batch_op item_op emails w ok errs w' :
  batch_or_individually gmail batch_op item_op emails w = (Ret (ok, errs), w') ->
  (length ok + length errs = length emails)%nat /\
  Forall (fun e => In (ie_id e) (map ed_id emails)) errs.
Proof.
  unfold batch_or_individually, try_catch, mbind, M_bind, mret, M_ret.
  destruct (batch_op (map ed_id emails) w) as [[[] | e |] w1].
  - intros H. inversion H; subst. rewrite length_map. split; [simpl; lia | constructor].
  - intros H. split.
    + apply each_individually_counts in H. simpl in H. lia.
    + apply each_individually_errors in H as [Hall _]. exact Hall.
  - discriminate.
Qed.

End DeleteByQueryFacts.

Section DeleteByQueryTool.

Context {gmail : Gmail}.

Lemma stable_getGmail I : stable I (getGmail gmail).
Proof.
  intros w r w' HI. unfold getGmail.
  destruct (unauthorized gmail w); intros H; inversion H; subst; exact HI.
Qed.

Lemma delete_by_query_stable I args :
  (forall p, stable I (list_messages gmail p)) ->
  (forall i, stable I (get_message gmail i)) ->
  (dq_dry_run args = false -> dq_permanent args = true ->
   (forall l, stable I (batchDelete gmail l)) /\
   (forall i, stable I (delete_message gmail i))) ->
  (dq_dry_run args = false -> dq_permanent args = false ->
   (forall l, stable I (batchModify gmail (mkModify l (Some ["TRASH"]) None))) /\
   (forall i, stable I (trash_message gmail i))) ->
  stable I (toolDeleteEmailsByQuery gmail args).
Proof.
  intros Hlist Hget Hperm Htrash. unfold toolDeleteEmailsByQuery.
  destruct (negb (truthy_str (dq_query args))); [apply stable_throw |]. cbv zeta.
  apply stable_bind; [apply stable_getGmail |]. intros _.
  apply stable_bind; [apply Hlist |]. intros l.
  destruct (_ =? _)%nat; [apply stable_ret |].
  apply stable_bind; [apply stable_email_details; exact Hget |]. intros details.
  destruct (dq_dry_run args); [apply stable_ret |].
  apply stable_bind; [| intros [ok errs]; apply stable_ret].
  destruct (dq_permanent args).
  - destruct (Hperm eq_refl eq_refl) as [Hb Hi].
    apply stable_batch_or_individually; assumption.
  - destruct (Htrash eq_refl eq_refl) as [Hb Hi].
    apply stable_batch_or_individually; assumption.
Qed.

End DeleteByQueryTool.

(** X8. [toolDeleteEmailsByQuery] never deletes for good unless asked to:
    without [permanent] it issues neither a batch-delete nor a delete
    call. In a dry run it issues read calls only and leaves the mailbox
    as it was. When it has acted, every message of the page it listed is
    accounted for: [successful + failed] is the number of messages
    listed, [failed] is the number of error entries, and every error
    entry names a listed message. *)
Theorem delete_by_query_is_careful (gmail : Gmail) (args : DeleteByQueryArgs)
    (w : World gmail) r w' :
  toolDeleteEmailsByQuery gmail args w = (r, w') ->
  (dq_permanent args = false ->
   logged_since (fun c => deletes_for_good c = false) w w') /\
  (dq_dry_run args = true ->
   mbox gmail w' = mbox gmail w /\ logged_since (fun c => mutating c = false) w w') /\
  (forall qry s f errs emails,
     r = Ret (DQDone qry s f errs emails) ->
     exists l,
       messages_list gmail (mbox gmail w)
         (mkListParams qry (Z.max 1 (Z.min 100 (num_or (dq_max args) 50))) None) = inr l /\
       s + f = Z.of_nat (length (default [] (messages l))) /\
       f = Z.of_nat (length errs) /\
       Forall (fun e => In (ie_id e) (map id (default [] (messages l)))) errs).
Proof.
  intros Hrun. split; [| split].
  - intros Hperm.
    eapply (delete_by_query_stable (logged_since (fun c => deletes_for_good c = false) w));
      [.. | apply logged_since_refl | exact Hrun].
    + intros p. apply logged_read. reflexivity.
    + intros i. apply logged_read. reflexivity.
    + intros _ Ht. congruence.
    + intros _ _. split; intros x; apply logged_write; reflexivity.
  - intros Hdry.
    assert (untouched w w') as [Hsame Hlog].
    { eapply (delete_by_query_stable (untouched w));
        [.. | split; [apply same_state_refl | apply logged_since_refl] | exact Hrun].
      - intros p. apply untouched_read. reflexivity.
      - intros i. apply untouched_read. reflexivity.
      - intros Hd. congruence.
      - intros Hd. congruence. }
    split; [symmetry; apply Hsame | exact Hlog].
  - intros qry s f errs emails ->. unfold toolDeleteEmailsByQuery in Hrun.
    destruct (negb (truthy_str (dq_query args))); [discriminate |]. cbv zeta in Hrun.
    apply bind_ret in Hrun as ([] & w1 & Hauth & Hrun).
    assert (w1 = w) as ->.
    { unfold getGmail in Hauth. destruct (unauthorized gmail w); inversion Hauth; reflexivity. }
    apply bind_ret in Hrun as (l & w2 & Hlist & Hrun).
    unfold list_messages, read_call in Hlist.
    destruct (messages_list gmail (mbox gmail w) _) as [msg | l'] eqn:El;
      simpl in Hlist; inversion Hlist; subst l' w2. clear Hlist.
    destruct (_ =? _)%nat; [discriminate |].
    apply bind_ret in Hrun as (details & w3 & Hdet & Hrun).
    match type of Hdet with promise_all _ _ ?v = _ =>
      destruct (email_details_return (default [] (messages l)) v)
        as (ds & w3' & Hdet' & Hids)
    end.
    rewrite Hdet' in Hdet. inversion Hdet; subst ds w3'. clear Hdet.
    destruct (dq_dry_run args); [discriminate |].
    apply bind_ret in Hrun as ([ok errs'] & w4 & Hact & Hrun).
    inversion Hrun; subst. exists l. split; [exact El |].
    assert ((length ok + length errs = length details)%nat /\
            Forall (fun e => In (ie_id e) (map ed_id details)) errs) as [Hlen Hall].
    { destruct (dq_permanent args);
        eapply batch_or_individually_accounts; exact Hact. }
    rewrite Hids in Hall.
    assert (length details = length (default [] (messages l))) as Hdl
      by (rewrite <- (length_map ed_id), Hids, length_map; reflexivity).
    split; [lia |]. split; [reflexivity | exact Hall].
Qed.

Lemma delete_by_query_is_careful_witness :
  let w := test_world (batch_failing_box ["b"]) None in
  (exists r w',
     toolDeleteEmailsByQuery test_gmail (mkDeleteByQueryArgs (Some "is:old") None false false) w
       = (r, w') /\
     logged_since (fun c => deletes_for_good c = false) w w' /\
     List.filter mutating (calls test_gmail w') <> []) /\
  (exists r w',
     toolDeleteEmailsByQuery test_gmail (mkDeleteByQueryArgs (Some "is:old") None true true) w
       = (r, w') /\
     mbox test_gmail w' = batch_failing_box ["b"]) /\
  (exists emails w' l,
     toolDeleteEmailsByQuery test_gmail (mkDeleteByQueryArgs (Some "is:old") None true false) w
       = (Ret (DQDone "is:old" 2 1 [mkItemError "b" "item failed"] emails), w') /\
     tb_list (batch_failing_box ["b"]) (mkListParams "is:old" 50 None) = inr l /\
     2 + 1 = Z.of_nat (length (default [] (messages l)))).
Proof.
  cbv zeta. split; [| split].
  - destruct (toolDeleteEmailsByQuery test_gmail
                (mkDeleteByQueryArgs (Some "is:old") None false false)
                (test_world (batch_failing_box ["b"]) None)) as [r w'] eqn:Hrun.
    exists r, w'. split; [reflexivity |].
    split; [apply (proj1 (delete_by_query_is_careful _ _ _ _ _ Hrun)); reflexivity |].
    vm_compute in Hrun. inversion Hrun. discriminate.
  - destruct (toolDeleteEmailsByQuery test_gmail
                (mkDeleteByQueryArgs (Some "is:old") None true true)
                (test_world (batch_failing_box ["b"]) None)) as [r w'] eqn:Hrun.
    exists r, w'. split; [reflexivity |].
    apply (proj1 (proj2 (delete_by_query_is_careful _ _ _ _ _ Hrun))). reflexivity.
  - assert (exists emails w',
              toolDeleteEmailsByQuery test_gmail
                (mkDeleteByQueryArgs (Some "is:old") None true false)
                (test_world (batch_failing_box ["b"]) None) =
              (Ret (DQDone "is:old" 2 1 [mkItemError "b" "item failed"] emails), w'))
      as (emails & w' & Hrun) by (eexists; eexists; vm_compute; reflexivity).
    destruct (proj2 (proj2 (delete_by_query_is_careful _ _ _ _ _ Hrun)) _ _ _ _ _ eq_refl)
      as (l & Hl & Hsum & _).
    exists emails, w', l. split; [exact Hrun |]. split; [exact Hl | exact Hsum].
Defined.

(** ** The calls of the bulk tools *)

Section BulkCalls.

Context {gmail : Gmail}.

Lemma stable_bind_ret {A B} I (m : M gmail A) (f : A -> M gmail B) :
  stable I m ->
  (forall a w w1, m w = (Ret a, w1) -> stable I (f a)) ->
  stable I (m ≫= f).
Proof.
  intros Hm Hf w r w' HI. unfold mbind, M_bind.
  destruct (m w) as [[a | e |] w1] eqn:E; intros H.
  - eapply (Hf a w w1 E); [eapply Hm; eassumption | exact H].
  - inversion H; subst. eapply Hm; eassumption.
  - inversion H; subst. eapply Hm; eassumption.
Qed.

Lemma bulk_loop_stable I qry bs total action fuel : forall st,
  (forall tok, stable I (list_messages gmail (page_params qry bs tok))) ->
  (forall l, l <> [] -> stable I (action l)) ->
  stable I (bulk_loop gmail qry bs total action fuel st).
Proof.
  induction fuel as [| fuel IH]; intros st Hlist Hact.
  - simpl. destruct (_ <? _); [| apply stable_ret].
    intros w r w' HI H. inversion H; subst. exact HI.
  - rewrite bulk_loop_step. destruct (_ <? _); [| apply stable_ret].
    apply stable_bind; [apply Hlist |]. intros l. cbv zeta.
    destruct (Nat.eqb_spec (length (default [] (messages l))) 0); [apply stable_ret |].
    apply stable_bind.
    + unfold page_attempt. apply stable_try_catch; [| intros; apply stable_ret].
      apply stable_bind; [| intros; apply stable_ret].
      apply Hact. destruct (default [] (messages l)); [contradiction | discriminate].
    + intros st1. destruct (negb _); [apply stable_ret | apply IH; assumption].
Qed.

Lemma clamp_batch_range n : 10 <= clamp_batch n <= 500.
Proof. unfold clamp_batch. lia. Qed.

Lemma label_request_shape operation label_ids messageIds w req w1 :
  label_request gmail operation label_ids messageIds w = (Ret req, w1) ->
  ids req = messageIds /\ label_change operation label_ids req.
Proof.
  unfold label_change.
  destruct (String.eqb_spec operation "replace") as [-> | Hne].
  - intros H. apply label_request_replace in H as (msgs & _ & -> & _).
    cbn [ids addLabelIds removeLabelIds String.eqb Ascii.eqb Bool.eqb].
    split; [reflexivity |]. split; [reflexivity |]. eexists. split; [reflexivity |].
    intros l Hl. apply set_spread_In, List.filter_In in Hl as [_ Hl].
    apply negb_true_iff, includes_false in Hl. exact Hl.
  - unfold label_request.
    destruct (String.eqb operation "add");
      [intros H; inversion H; subst; simpl; auto |].
    destruct (String.eqb operation "remove");
      [intros H; inversion H; subst; simpl; auto |].
    destruct (String.eqb_spec operation "replace"); [contradiction |].
    intros H; inversion H; subst; simpl; auto.
Qed.

Lemma label_request_gets P w0 operation label_ids messageIds :
  (operation = "replace" -> forall i, P (CGet i)) ->
  stable (logged_since P w0) (label_request gmail operation label_ids messageIds).
Proof.
  intros Hget. unfold label_request.
  destruct (String.eqb operation "add"); [apply stable_ret |].
  destruct (String.eqb operation "remove"); [apply stable_ret |].
  destruct (String.eqb_spec operation "replace"); [| apply stable_ret].
  apply stable_bind; [| intros; apply stable_ret].
  apply stable_promise_all, Forall_forall. intros p Hp.
  apply list_elem_of_In, List.in_map_iff in Hp as (i & <- & _).
  apply logged_read. apply Hget. assumption.
Qed.

End BulkCalls.

(** X9. [toolBulkDeleteEmails] lists only for the query it was given, with
    page size 1 for the probe and otherwise with the batch size clamped
    to 10..500, and changes messages only by batch calls on non-empty
    pages: trashing ones (adding TRASH, removing nothing) unless
    [permanent] is set, deleting ones if it is. It never touches the rule
    file, and with a missing or empty query it throws an InvalidParams
    error without a call. *)
Theorem bulk_delete_calls_are_shaped (gmail : Gmail) (args : BulkDeleteArgs)
    (w : World gmail) r w' :
  toolBulkDeleteEmails gmail args w = (r, w') ->
  logged_since (bulk_delete_call args) w w' /\
  10 <= clamp_batch (num_or (bd_batch_size args) 100) <= 500 /\
  rules_file gmail w' = rules_file gmail w /\
  (truthy_str (bd_query args) = false ->
   w' = w /\ exists msg, r = Throw (McpError InvalidParams msg)).
Proof.
  intros Hrun. split; [| split; [apply clamp_batch_range | split]].
  - assert (stable (logged_since (bulk_delete_call args) w)
              (toolBulkDeleteEmails gmail args)) as Hst;
      [| exact (Hst w r w' (logged_since_refl _ w) Hrun)].
    unfold toolBulkDeleteEmails.
    destruct (negb (truthy_str (bd_query args))); [apply stable_throw |]. cbv zeta.
    apply stable_bind; [apply stable_getGmail |]. intros _.
    apply stable_bind.
    { unfold probe. apply stable_bind; [| intros; apply stable_ret].
      apply logged_read. simpl. auto. }
    intros total. destruct (_ =? _); [apply stable_ret |].
    destruct (bd_dry_run args); [apply stable_ret |].
    apply stable_bind; [| intros; apply stable_ret].
    apply bulk_loop_stable.
    + intros tok. apply logged_read. simpl. auto.
    + intros l Hl. unfold delete_action.
      destruct (bd_permanent args) eqn:Hp; apply logged_write; simpl; auto.
  - set (J := fun u : World gmail => rules_file gmail u = rules_file gmail w).
    assert (forall c u, J u -> J (log gmail c u)) as Jlog by (intros c u H; exact H).
    assert (forall m u, J u -> J (set_mbox gmail m u)) as Jmbox by (intros m u H; exact H).
    assert (stable J (toolBulkDeleteEmails gmail args)) as Hst;
      [| exact (Hst w r w' eq_refl Hrun)].
    unfold toolBulkDeleteEmails.
    destruct (negb (truthy_str (bd_query args))); [apply stable_throw |]. cbv zeta.
    apply stable_bind; [apply stable_getGmail |]. intros _.
    apply stable_bind.
    { unfold probe. apply stable_bind; [| intros; apply stable_ret].
      apply frame_read; assumption. }
    intros total. destruct (_ =? _); [apply stable_ret |].
    destruct (bd_dry_run args); [apply stable_ret |].
    apply stable_bind; [| intros; apply stable_ret].
    apply bulk_loop_stable.
    + intros tok. apply frame_read; assumption.
    + intros l Hl. unfold delete_action.
      destruct (bd_permanent args); apply frame_write; assumption.
  - intros Hq. unfold toolBulkDeleteEmails in Hrun. rewrite Hq in Hrun.
    inversion Hrun; subst. split; [reflexivity | eexists; reflexivity].
Qed.

Lemma bulk_delete_calls_are_shaped_witness :
  (exists r w',
     toolBulkDeleteEmails test_gmail (mkBulkDeleteArgs (Some "is:old") (Some 7) false false)
       (test_world box250 None) = (r, w') /\
     logged_since (bulk_delete_call (mkBulkDeleteArgs (Some "is:old") (Some 7) false false))
       (test_world box250 None) w' /\
     List.filter deletes_for_good (calls test_gmail w') = [] /\
     (length (calls test_gmail w') = 7)%nat) /\
  (exists msg,
     toolBulkDeleteEmails test_gmail (mkBulkDeleteArgs (Some EmptyString) None true false)
       (test_world box250 None) =
     (Throw (McpError InvalidParams msg), test_world box250 None)).
Proof.
  split.
  - destruct (toolBulkDeleteEmails test_gmail
                (mkBulkDeleteArgs (Some "is:old") (Some 7) false false)
                (test_world box250 None)) as [r w'] eqn:Hrun.
    exists r, w'. split; [reflexivity |].
    split; [apply (proj1 (bulk_delete_calls_are_shaped _ _ _ _ _ Hrun)) |].
    vm_compute in Hrun. inversion Hrun. split; reflexivity.
  - destruct (toolBulkDeleteEmails test_gmail
                (mkBulkDeleteArgs (Some EmptyString) None true false)
                (test_world box250 None)) as [r w'] eqn:Hrun.
    destruct (proj2 (proj2 (proj2 (bulk_delete_calls_are_shaped _ _ _ _ _ Hrun))) eq_refl)
      as (-> & msg & ->).
    exists msg. reflexivity.
Defined.

(** X10. [toolBulkLabelEmails] lists only for the query it was given (the
    probe of size 1, pages of a size within 10..500), reads single
    messages only for [replace], and changes messages only by
    batch-modify calls on non-empty pages, whose label changes follow the
    operation: [add] adds the given labels and removes none, [remove]
    removes them and adds none, [replace] adds them and removes no system
    label, and any other operation string sends a request that names no
    label at all. It never deletes or trashes a message, never creates a
    label, and rejects a missing query or an empty label list with an
    InvalidParams error before any call. *)
Theorem bulk_label_calls_are_shaped (gmail : Gmail) (args : BulkLabelArgs)
    (w : World gmail) r w' :
  toolBulkLabelEmails gmail args w = (r, w') ->
  logged_since (bulk_label_call (default EmptyString (bl_query args))
                  (default "add" (bl_operation args))
                  (default [] (bl_label_ids args))) w w' /\
  (truthy_str (bl_query args) = false \/ default [] (bl_label_ids args) = [] ->
   w' = w /\ exists msg, r = Throw (McpError InvalidParams msg)).
Proof.
  intros Hrun. split.
  - assert (stable (logged_since
                      (bulk_label_call (default EmptyString (bl_query args))
                         (default "add" (bl_operation args))
                         (default [] (bl_label_ids args))) w)
              (toolBulkLabelEmails gmail args)) as Hst;
      [| exact (Hst w r w' (logged_since_refl _ w) Hrun)].
    unfold toolBulkLabelEmails.
    destruct (negb (truthy_str (bl_query args))); [apply stable_throw |].
    destruct (bl_label_ids args) as [[| l0 label_ids] |]; try apply stable_throw.
    cbv zeta. cbn [default].
    apply stable_bind; [apply stable_getGmail |]. intros _.
    apply stable_bind.
    { unfold probe. apply stable_bind; [| intros; apply stable_ret].
      apply logged_read. simpl. auto. }
    intros total. destruct (_ =? _); [apply stable_ret |].
    destruct (bl_dry_run args); [apply stable_ret |].
    apply stable_bind; [| intros; apply stable_ret].
    apply bulk_loop_stable.
    + intros tok. apply logged_read. simpl. split; [reflexivity |]. right.
      apply clamp_batch_range.
    + intros l Hl. unfold label_action. apply stable_bind_ret.
      * apply label_request_gets. intros Hop i. exact Hop.
      * intros req v v1 Hreq. apply label_request_shape in Hreq as [Hids Hchange].
        apply logged_write. simpl. rewrite Hids. auto.
  - intros Hbad. unfold toolBulkLabelEmails in Hrun.
    destruct (truthy_str (bl_query args)) eqn:Hq; simpl in Hrun.
    + destruct Hbad as [Hbad | Hbad]; [discriminate |].
      destruct (bl_label_ids args) as [[| l0 label_ids] |]; simpl in Hbad;
        [| discriminate |]; inversion Hrun; subst; split;
        try reflexivity; eexists; reflexivity.
    + inversion Hrun; subst. split; [reflexivity | eexists; reflexivity].
Qed.

Lemma bulk_label_calls_are_shaped_witness :
  (exists r w',
     toolBulkLabelEmails test_gmail
       (mkBulkLabelArgs (Some "in:inbox") (Some ["Project-Y"]) (Some "swap") None false)
       (test_world replace_box None) = (r, w') /\
     logged_since (bulk_label_call "in:inbox" "swap" ["Project-Y"])
       (test_world replace_box None) w' /\
     List.filter mutating (calls test_gmail w') = [CBatchModify (mkModify ["m1"] None None)]) /\
  (exists msg,
     toolBulkLabelEmails test_gmail
       (mkBulkLabelArgs (Some "in:inbox") (Some []) None None false)
       (test_world replace_box None) =
     (Throw (McpError InvalidParams msg), test_world replace_box None)).
Proof.
  split.
  - destruct (toolBulkLabelEmails test_gmail
                (mkBulkLabelArgs (Some "in:inbox") (Some ["Project-Y"]) (Some "swap") None false)
                (test_world replace_box None)) as [r w'] eqn:Hrun.
    exists r, w'. split; [reflexivity |].
    split; [apply (proj1 (bulk_label_calls_are_shaped _ _ _ _ _ Hrun)) |].
    vm_compute in Hrun. inversion Hrun. reflexivity.
  - destruct (toolBulkLabelEmails test_gmail
                (mkBulkLabelArgs (Some "in:inbox") (Some []) None None false)
                (test_world replace_box None)) as [r w'] eqn:Hrun.
    destruct (proj2 (bulk_label_calls_are_shaped _ _ _ _ _ Hrun)
                ltac:(right; reflexivity)) as (-> & msg & ->).
    exists msg. reflexivity.
Defined.

(** ** [toolLabelEmailsByQuery] *)

(** X11. [toolLabelEmailsByQuery] rejects a missing query, and a call
    that names neither a label name nor a label id, with an InvalidParams
    error before any call. When it reports labelled emails it has, after
    resolving the label, listed one page of the query (of a size within
    1..500) and issued one batch-modify call that adds the one target
    label to exactly the listed messages and removes nothing; the count
    it reports is their number. A label name that the mailbox knows
    decides the target label, whatever label id comes with it. In a dry
    run no call changes messages. *)
Theorem label_by_query_labels_the_page (gmail : Gmail) (args : LabelByQueryArgs)
    (w : World gmail) r w' :
  toolLabelEmailsByQuery gmail args w = (r, w') ->
  (truthy_str (lq_query args) = false \/
   (truthy_str (lq_label_name args) = false /\ truthy_str (lq_label_id args) = false) ->
   w' = w /\ exists msg, r = Throw (McpError InvalidParams msg)) /\
  (forall qry name target n,
     r = Ret (LQLabeled qry name target n) ->
     exists w1 l size,
       logged_since (fun c => modifies_messages c = false) w w1 /\
       1 <= size <= 500 /\
       messages_list gmail (mbox gmail w1) (mkListParams qry size None) = inr l /\
       n = Z.of_nat (length (default [] (messages l))) /\
       calls gmail w' =
         CBatchModify (mkModify (map id (default [] (messages l))) (Some [target]) None)
         :: CList (mkListParams qry size None) :: calls gmail w1 /\
       (forall ls known,
          truthy_str (lq_label_name args) = true ->
          labels_list gmail (mbox gmail w) = inr (Some ls) ->
          List.find (fun lb => String.eqb (lbl_name lb)
                                 (default EmptyString (lq_label_name args))) ls = Some known ->
          target = lbl_id known)) /\
  (lq_dry_run args = true -> logged_since (fun c => modifies_messages c = false) w w').
Proof.
  intros Hrun. split; [| split].
  - intros Hbad. unfold toolLabelEmailsByQuery in Hrun.
    destruct (truthy_str (lq_query args)) eqn:Hq; simpl in Hrun.
    + destruct Hbad as [Hbad | [Hn Hi]]; [discriminate |].
      rewrite Hn, Hi in Hrun. simpl in Hrun. inversion Hrun; subst.
      split; [reflexivity | eexists; reflexivity].
    + inversion Hrun; subst. split; [reflexivity | eexists; reflexivity].
  - intros qry name target n ->. unfold toolLabelEmailsByQuery in Hrun.
    destruct (negb (truthy_str (lq_query args))); [discriminate |].
    destruct (negb _ && negb _); [discriminate |]. cbv zeta in Hrun.
    apply bind_ret in Hrun as ([] & w0 & Hauth & Hrun).
    assert (w0 = w) as ->.
    { unfold getGmail in Hauth. destruct (unauthorized gmail w); inversion Hauth; reflexivity. }
    apply bind_ret in Hrun as (tgt & w1 & Hlabel & Hrun).
    apply bind_ret in Hrun as (l & w2 & Hlist & Hrun).
    unfold list_messages, read_call in Hlist.
    destruct (messages_list gmail (mbox gmail w1) _) as [msg | l'] eqn:El;
      simpl in Hlist; inversion Hlist; subst l' w2. clear Hlist.
    destruct (_ =? _)%nat; [discriminate |].
    destruct (lq_dry_run args); [discriminate |].
    apply bind_ret in Hrun as ([] & w3 & Hmod & Hrun).
    inversion Hrun; subst. clear Hrun.
    unfold batchModify in Hmod. apply write_call_world in Hmod as [m ->].
    exists w1, l, (Z.max 1 (Z.min 500 (default 100 (lq_max args)))).
    split.
    { destruct (truthy_str (lq_label_name args)).
      - assert (dry_inv w w1) as [_ Hlog]; [| exact Hlog].
        eapply (dry_inv_label w); [| exact Hlabel].
        split; [reflexivity | apply logged_since_refl].
      - inversion Hlabel; subst. apply logged_since_refl. }
    split; [lia |]. split; [exact El |].
    split; [rewrite length_map; reflexivity |]. split; [reflexivity |].
    intros ls known Hname Hls Hfind. rewrite Hname in Hlabel.
    unfold find_or_create_label, mbind, M_bind, list_labels, read_call in Hlabel.
    rewrite Hls in Hlabel. cbv beta iota delta [lift_err] in Hlabel.
    change (option_bind _ _ ?f (Some ls)) with (f ls) in Hlabel.
    rewrite Hfind in Hlabel. inversion Hlabel. reflexivity.
  - intros Hdry.
    assert (stable (dry_inv w) (toolLabelEmailsByQuery gmail args)) as Hst.
    { unfold toolLabelEmailsByQuery.
      destruct (negb (truthy_str (lq_query args))); [apply stable_throw |].
      destruct (negb _ && negb _); [apply stable_throw |]. cbv zeta.
      apply stable_bind; [apply stable_getGmail |]. intros _.
      apply stable_bind.
      { destruct (truthy_str (lq_label_name args)); [apply dry_inv_label | apply stable_ret]. }
      intros tgt. apply stable_bind; [apply dry_inv_read; reflexivity |]. intros l.
      destruct (_ =? _)%nat; [apply stable_ret |]. rewrite Hdry. apply stable_ret. }
    apply (Hst w r w'); [| exact Hrun].
    split; [reflexivity | apply logged_since_refl].
Qed.

Lemma label_by_query_labels_the_page_witness :
  let w := test_world labelled_box None in
  (exists w',
     toolLabelEmailsByQuery test_gmail
       (mkLabelByQueryArgs (Some "is:old") (Some "B") (Some "Label_other") (Some 1000) false) w
       = (Ret (LQLabeled "is:old" (Some "B") "Label_7" 3), w') /\
     List.filter mutating (calls test_gmail w') =
       [CBatchModify (mkModify ["a"; "b"; "c"] (Some ["Label_7"]) None)]) /\
  (exists msg,
     toolLabelEmailsByQuery test_gmail
       (mkLabelByQueryArgs (Some "is:old") None (Some EmptyString) None false) w
       = (Throw (McpError InvalidParams msg), w)) /\
  (exists r w',
     toolLabelEmailsByQuery test_gmail
       (mkLabelByQueryArgs (Some "is:old") (Some "New") None None true) w = (r, w') /\
     logged_since (fun c => modifies_messages c = false) w w').
Proof.
  cbv zeta. split; [| split].
  - assert (exists w',
              toolLabelEmailsByQuery test_gmail
                (mkLabelByQueryArgs (Some "is:old") (Some "B") (Some "Label_other")
                   (Some 1000) false) (test_world labelled_box None)
              = (Ret (LQLabeled "is:old" (Some "B") "Label_7" 3), w')) as [w' Hrun]
      by (eexists; vm_compute; reflexivity).
    exists w'. split; [exact Hrun |].
    destruct (proj1 (proj2 (label_by_query_labels_the_page _ _ _ _ _ Hrun)) _ _ _ _ eq_refl)
      as (w1 & l & size & _ & _ & _ & _ & Hcalls & _).
    vm_compute in Hrun. inversion Hrun. reflexivity.
  - destruct (toolLabelEmailsByQuery test_gmail
                (mkLabelByQueryArgs (Some "is:old") None (Some EmptyString) None false)
                (test_world labelled_box None)) as [r w'] eqn:Hrun.
    destruct (proj1 (label_by_query_labels_the_page _ _ _ _ _ Hrun)
                ltac:(right; split; reflexivity)) as (-> & msg & ->).
    exists msg. reflexivity.
  - destruct (toolLabelEmailsByQuery test_gmail
                (mkLabelByQueryArgs (Some "is:old") (Some "New") None None true)
                (test_world labelled_box None)) as [r w'] eqn:Hrun.
    exists r, w'. split; [reflexivity |].
    apply (proj2 (proj2 (label_by_query_labels_the_page _ _ _ _ _ Hrun))). reflexivity.
Defined.

(** ** Export and import of the rules *)

Section ImportFacts.

Context {gmail : Gmail} (disk : Disk).

Lemma toolImport_ok (path : string) (merge : bool) (fs : Fs disk) (w : World gmail)
    (data : ImportData) (imported : list Rule) :
  path <> EmptyString ->
  read_json disk fs path = inr data ->
  imp_rules data = Some imported ->
  let rs := if merge then (stored_rules w ++ imported)%list else imported in
  toolImportAutoLabelingRules gmail disk (Some path) merge fs w =
  (Ret (mkImportPayload path (Z.of_nat (length imported)) (Z.of_nat (length rs)) merge
          (if truthy_str (imp_version data) then default EmptyString (imp_version data)
           else "Unknown")),
   set_rules_file gmail (Some (mkConfig "1.0.0" (clock gmail w) (Some rs))) w).
Proof.
  intros Hp Hread Hrules.
  assert (negb (truthy_str (Some path)) = false) as Ht.
  { unfold truthy_str. destruct (String.eqb_spec path EmptyString); [contradiction | reflexivity]. }
  unfold toolImportAutoLabelingRules. rewrite Ht.
  cbv zeta. change (default EmptyString (Some path)) with path.
  rewrite Hread, Hrules.
  destruct merge; reflexivity.
Qed.

End ImportFacts.

(** X12. Importing a file that holds a rule array replaces the stored
    rule list by the imported rules, or, with [merge], appends them to
    it: the stored list is then as long as the imported one, or as both
    together, as the payload reports, and the mailbox is not touched. A
    missing path is an InvalidParams error, a file that cannot be read or
    parsed an InternalError carrying the message, a file without a rule
    array an InvalidRequest error; none of them changes the world. *)
Theorem import_replaces_or_appends (gmail : Gmail) (disk : Disk) (path : string)
    (merge : bool) (fs : Fs disk) (w : World gmail) :
  path <> EmptyString ->
  (forall data imported,
     read_json disk fs path = inr data ->
     imp_rules data = Some imported ->
     exists p w',
       toolImportAutoLabelingRules gmail disk (Some path) merge fs w = (Ret p, w') /\
       stored_rules w' = (if merge then stored_rules w ++ imported else imported)%list /\
       rules_imported p = Z.of_nat (length imported) /\
       imp_total_rules p =
         (if merge then Z.of_nat (length (stored_rules w)) + Z.of_nat (length imported)
          else Z.of_nat (length imported)) /\
       imp_total_rules p = Z.of_nat (length (stored_rules w')) /\
       mbox gmail w' = mbox gmail w /\ calls gmail w' = calls gmail w) /\
  (forall msg,
     read_json disk fs path = inl msg ->
     toolImportAutoLabelingRules gmail disk (Some path) merge fs w =
     (Throw (McpError InternalError ("Failed to import rules: " ++ msg)), w)) /\
  (forall data,
     read_json disk fs path = inr data -> imp_rules data = None ->
     toolImportAutoLabelingRules gmail disk (Some path) merge fs w =
     (Throw (McpError InvalidRequest invalid_import_message), w)) /\
  (exists msg,
     toolImportAutoLabelingRules gmail disk None merge fs w =
     (Throw (McpError InvalidParams msg), w) /\
     toolImportAutoLabelingRules gmail disk (Some EmptyString) merge fs w =
     (Throw (McpError InvalidParams msg), w)).
Proof.
  intros Hp.
  assert (negb (truthy_str (Some path)) = false) as Ht.
  { unfold truthy_str. destruct (String.eqb_spec path EmptyString); [contradiction | reflexivity]. }
  split; [| split; [| split]].
  - intros data imported Hread Hrules.
    pose proof (toolImport_ok disk path merge fs w data imported Hp Hread Hrules) as H.
    cbv zeta in H. eexists. eexists. split; [exact H |].
    cbn [rules_imported imp_total_rules]. rewrite stored_after_save.
    split; [reflexivity |]. split; [reflexivity |].
    split; [destruct merge; [rewrite length_app; lia | reflexivity] |].
    split; [reflexivity |]. split; reflexivity.
  - intros msg Hread. unfold toolImportAutoLabelingRules. rewrite Ht.
    cbv zeta. change (default EmptyString (Some path)) with path.
    rewrite Hread. reflexivity.
  - intros data Hread Hrules. unfold toolImportAutoLabelingRules. rewrite Ht.
    cbv zeta. change (default EmptyString (Some path)) with path.
    rewrite Hread, Hrules. reflexivity.
  - eexists. split; reflexivity.
Qed.

Lemma import_replaces_or_appends_witness :
  let fs := [("rules.json", mkImportData None (Some [empty_rule; broken_rule]));
             ("notes.json", mkImportData (Some "2.0") None)] in
  let w := test_world plain_box (rule_file three_rules) in
  (exists p w',
     toolImportAutoLabelingRules test_gmail test_disk (Some "rules.json") true fs w
       = (Ret p, w') /\
     stored_rules w' = [rule_A; rule_B; rule_C; empty_rule; broken_rule] /\
     imp_total_rules p = 5 /\ imported_version p = "Unknown") /\
  (exists p w',
     toolImportAutoLabelingRules test_gmail test_disk (Some "rules.json") false fs w
       = (Ret p, w') /\
     stored_rules w' = [empty_rule; broken_rule]) /\
  toolImportAutoLabelingRules test_gmail test_disk (Some "missing.json") false fs w =
    (Throw (McpError InternalError
              "Failed to import rules: ENOENT: no such file or directory"), w) /\
  toolImportAutoLabelingRules test_gmail test_disk (Some "notes.json") false fs w =
    (Throw (McpError InvalidRequest invalid_import_message), w).
Proof.
  cbv zeta.
  set (fs := [("rules.json", mkImportData None (Some [empty_rule; broken_rule]));
              ("notes.json", mkImportData (Some "2.0") None)]).
  set (w := test_world plain_box (rule_file three_rules)).
  split; [| split; [| split]].
  - destruct (proj1 (import_replaces_or_appends test_gmail test_disk "rules.json" true fs w
                       ltac:(discriminate)) _ _ eq_refl eq_refl)
      as (p & w' & Hrun & Hst & _ & Htot & _).
    exists p, w'. split; [exact Hrun |]. split; [exact Hst |]. split; [exact Htot |].
    vm_compute in Hrun. inversion Hrun. reflexivity.
  - destruct (proj1 (import_replaces_or_appends test_gmail test_disk "rules.json" false fs w
                       ltac:(discriminate)) _ _ eq_refl eq_refl)
      as (p & w' & Hrun & Hst & _).
    exists p, w'. split; [exact Hrun | exact Hst].
  - apply (proj1 (proj2 (import_replaces_or_appends test_gmail test_disk "missing.json" false
                           fs w ltac:(discriminate)))).
    reflexivity.
  - apply (proj1 (proj2 (proj2 (import_replaces_or_appends test_gmail test_disk "notes.json"
                                  false fs w ltac:(discriminate)))) (mkImportData (Some "2.0") None));
      reflexivity.
Defined.

(** X13. An export leaves the stored rules, the mailbox and the call log
    as they were and reports the number of stored rules; it writes to the
    given path, or to a dated backup file of the configuration directory
    when no path is given. On a disk that reads back what was written,
    importing the exported file without [merge] gives back the stored
    rule list as it was, and importing it with [merge] doubles it. A
    failing write makes the export throw. *)
Theorem export_then_import_restores (gmail : Gmail) (disk : Disk) (file_path : option string)
    (fs : Fs disk) (w : World gmail) :
  (forall fs0 p d fs1,
     write_json disk fs0 p d = (inr tt, fs1) ->
     read_json disk fs1 p = inr (mkImportData (Some (ex_version d)) (Some (ex_rules d)))) ->
  (forall p w1 fs1,
     toolExportAutoLabelingRules gmail disk file_path fs w = ((Ret p, w1), fs1) ->
     w1 = w /\
     rules_exported p = Z.of_nat (length (stored_rules w)) /\
     export_path p =
       (if truthy_str file_path then default EmptyString file_path
        else in_config_dir disk
               ("auto-labeling-rules-backup-" ++ before_T (clock gmail w) ++ ".json")) /\
     (export_path p <> EmptyString ->
      (exists q w2,
         toolImportAutoLabelingRules gmail disk (Some (export_path p)) false fs1 w = (Ret q, w2)
         /\ stored_rules w2 = stored_rules w) /\
      (exists q w2,
         toolImportAutoLabelingRules gmail disk (Some (export_path p)) true fs1 w = (Ret q, w2)
         /\ stored_rules w2 = (stored_rules w ++ stored_rules w)%list))) /\
  (forall e w1 fs1,
     toolExportAutoLabelingRules gmail disk file_path fs w = ((Throw e, w1), fs1) ->
     w1 = w /\ exists msg path d, e = JsError msg /\ write_json disk fs path d = (inl msg, fs1)).
Proof.
  intros Hlaw. split.
  - intros p w1 fs1. unfold toolExportAutoLabelingRules. rewrite load_stored. cbv zeta.
    destruct (write_json disk fs _ _) as [[msg | []] fs'] eqn:Hw; [discriminate |].
    intros H. injection H as Hp Hw1 Hfs. subst p w1 fs'.
    split; [reflexivity |]. split; [reflexivity |]. split; [reflexivity |].
    cbn [export_path]. intros Hne.
    apply Hlaw in Hw. cbn [ex_version ex_rules] in Hw.
    split; eexists; eexists.
    + split; [apply (toolImport_ok disk _ false fs1 w _ _ Hne Hw eq_refl) | reflexivity].
    + split; [apply (toolImport_ok disk _ true fs1 w _ _ Hne Hw eq_refl) | reflexivity].
  - intros e w1 fs1. unfold toolExportAutoLabelingRules. rewrite load_stored. cbv zeta.
    destruct (write_json disk fs _ _) as [[msg | []] fs'] eqn:Hw; [| discriminate].
    intros H. injection H as He Hw1 Hfs. subst e w1 fs'. split; [reflexivity |].
    eexists. eexists. eexists. split; [reflexivity | exact Hw].
Qed.

Lemma export_then_import_restores_witness :
  let w := test_world plain_box (rule_file three_rules) in
  exists p fs1 q w2,
    toolExportAutoLabelingRules test_gmail test_disk None [] w = ((Ret p, w), fs1) /\
    export_path p = "/srv/mcp-gmail/auto-labeling-rules-backup-2024-01-01.json" /\
    rules_exported p = 3 /\
    toolImportAutoLabelingRules test_gmail test_disk (Some (export_path p)) false fs1 w
      = (Ret q, w2) /\
    stored_rules w2 = three_rules.
Proof.
  cbv zeta.
  assert (forall fs0 p d fs1,
            write_json test_disk fs0 p d = (inr tt, fs1) ->
            read_json test_disk fs1 p =
              inr (mkImportData (Some (ex_version d)) (Some (ex_rules d)))) as Hlaw.
  { intros fs0 p d fs1 H. simpl in H. inversion H; subst. simpl.
    rewrite String.eqb_refl. reflexivity. }
  destruct (toolExportAutoLabelingRules test_gmail test_disk None []
              (test_world plain_box (rule_file three_rules))) as [[r w1] fs1] eqn:Hrun.
  assert (exists p, r = Ret p) as [p ->]
    by (vm_compute in Hrun; inversion Hrun; eexists; reflexivity).
  destruct (proj1 (export_then_import_restores test_gmail test_disk None []
                     (test_world plain_box (rule_file three_rules)) Hlaw) p w1 fs1 Hrun)
    as (-> & Hcount & Hpath & Himport).
  destruct (proj1 (Himport ltac:(rewrite Hpath; vm_compute; discriminate)))
    as (q & w2 & Himp & Hst).
  exists p, fs1, q, w2. split; [reflexivity |].
  split; [rewrite Hpath; vm_compute; reflexivity |].
  split; [exact Hcount |]. split; [exact Himp | exact Hst].
Defined.

(** ** The text of a message *)

Section ExtractFacts.

Variable decodeBase64Url : string -> string.
Variable mime : string.

(** Induction on a payload and the payloads of its parts. *)
Lemma Payload_parts_ind (P : Payload -> Prop) :
  (forall mt data, P (mkPayload mt data None)) ->
  (forall mt data ps, Forall P ps -> P (mkPayload mt data (Some ps))) ->
  forall p, P p.
Proof.
  intros Hnone Hsome.
  fix IH 1. intros [mt data [ps |]]; [| apply Hnone].
  apply Hsome. induction ps as [| part rest IHrest]; constructor; [apply IH | exact IHrest].
Qed.

Lemma first_text_found (extract : Payload -> string) (ps : list Payload) :
  first_text extract ps <> EmptyString ->
  exists part, In part ps /\ first_text extract ps = extract part /\
               extract part <> EmptyString.
Proof.
  induction ps as [| part rest IH]; cbn [first_text]; [congruence |].
  unfold truthy_str. destruct (String.eqb_spec (extract part) EmptyString) as [He | He];
    cbn [negb].
  - intros H. destruct (IH H) as (q & Hin & Heq & Hne).
    exists q. split; [right; exact Hin | split; assumption].
  - intros _. exists part. split; [left; reflexivity | split; [reflexivity | exact He]].
Qed.

Lemma first_text_finds (extract : Payload -> string) (ps : list Payload) part :
  In part ps -> extract part <> EmptyString -> first_text extract ps <> EmptyString.
Proof.
  induction ps as [| p rest IH]; [intros [] |].
  intros Hin Hne. cbn [first_text]. unfold truthy_str.
  destruct (String.eqb_spec (extract p) EmptyString) as [He | He]; cbn [negb];
    [| exact He].
  destruct Hin as [-> | Hin]; [contradiction | exact (IH Hin Hne)].
Qed.

Lemma extract_of_type_unfold (p : Payload) :
  extract_of_type decodeBase64Url mime p =
  if has_body_of mime p then decodeBase64Url (default EmptyString (body_data p))
  else match parts p with
       | Some l => first_text (extract_of_type decodeBase64Url mime) l
       | None => EmptyString
       end.
Proof. destruct p; reflexivity. Qed.

Lemma extract_sound (p : Payload) :
  extract_of_type decodeBase64Url mime p <> EmptyString ->
  exists q, searched mime p q /\
            decodes_to decodeBase64Url mime q (extract_of_type decodeBase64Url mime p).
Proof.
  induction p as [mt data | mt data ps IH] using Payload_parts_ind;
    rewrite extract_of_type_unfold;
    destruct (has_body_of mime (mkPayload _ _ _)) eqn:Hhit.
  - intros _. eexists. split; [apply searched_here | split; [exact Hhit | reflexivity]].
  - cbn [parts]. congruence.
  - intros _. eexists. split; [apply searched_here | split; [exact Hhit | reflexivity]].
  - cbn [parts]. intros Hne.
    destruct (first_text_found _ _ Hne) as (part & Hin & Heq & Hpart).
    destruct (proj1 (List.Forall_forall _ _) IH part Hin Hpart) as (q & Hq & Hdec).
    exists q. split; [exact (searched_part mime _ ps part q Hhit eq_refl Hin Hq) |].
    rewrite Heq. exact Hdec.
Qed.

Lemma extract_complete (p q : Payload) text :
  searched mime p q -> decodes_to decodeBase64Url mime q text -> text <> EmptyString ->
  extract_of_type decodeBase64Url mime p <> EmptyString.
Proof.
  intros Hs [Hhit ->] Hne. induction Hs as [p | p ps part q Hp Hps Hin Hs IH];
    rewrite extract_of_type_unfold.
  - rewrite Hhit. exact Hne.
  - rewrite Hp, Hps. exact (first_text_finds _ ps part Hin (IH Hhit Hne)).
Qed.

End ExtractFacts.

(** X14. The plain text that [extractEmailContent] gives for a message
    is the decoded body of a text/plain part that the search comes to,
    going down through the parts of payloads that have no text/plain body
    themselves; it is empty exactly when every such part decodes to the
    empty text, and when there is no payload. The same holds of the HTML
    content and the text/html parts, and [hasHtml] says whether the HTML
    content is not empty. *)
Theorem extracted_text_is_a_part_body (decodeBase64Url : string -> string)
    (payload : option Payload) :
  let found mime text :=
    (text <> EmptyString ->
     exists root q, payload = Some root /\ searched mime root q /\
                    decodes_to decodeBase64Url mime q text) /\
    (text = EmptyString ->
     forall root q body, payload = Some root -> searched mime root q ->
                         decodes_to decodeBase64Url mime q body -> body = EmptyString) in
  let c := extractEmailContent decodeBase64Url payload in
  found "text/plain" (plainText c) /\ found "text/html" (htmlContent c) /\
  (hasHtml c = true <-> htmlContent c <> EmptyString).
Proof.
  cbv zeta. unfold extractEmailContent. cbn [plainText htmlContent hasHtml].
  assert (forall mime,
            let text := match payload with
                        | None => EmptyString
                        | Some p => extract_of_type decodeBase64Url mime p
                        end in
            (text <> EmptyString ->
             exists root q, payload = Some root /\ searched mime root q /\
                            decodes_to decodeBase64Url mime q text) /\
            (text = EmptyString ->
             forall root q body, payload = Some root -> searched mime root q ->
                                 decodes_to decodeBase64Url mime q body ->
                                 body = EmptyString)) as Hfound.
  { intros mime. cbv zeta. destruct payload as [p |].
    - split.
      + intros Hne. destruct (extract_sound decodeBase64Url mime p Hne) as (q & Hq & Hdec).
        exists p, q. auto.
      + intros Hempty root q body [= <-] Hq Hdec.
        destruct (String.eqb_spec body EmptyString) as [| Hne]; [assumption |].
        exfalso. exact (extract_complete decodeBase64Url mime p q body Hq Hdec Hne Hempty).
    - split; [congruence | intros _ root q body [=]]. }
  split; [exact (Hfound "text/plain") |]. split; [exact (Hfound "text/html") |].
  unfold truthy_str. destruct (String.eqb_spec (extractHtmlContent decodeBase64Url payload)
                                 EmptyString) as [-> | Hne]; cbn [negb].
  - split; [discriminate | congruence].
  - split; [intros _; exact Hne | reflexivity].
Qed.

Lemma extracted_text_is_a_part_body_witness :
  let c := extractEmailContent plain_decoder (Some multipart_example) in
  plainText c = "notes" /\ htmlContent c = "<p>hi</p>" /\ hasHtml c = true /\
  (exists root q, Some multipart_example = Some root /\ searched "text/plain" root q /\
                  decodes_to plain_decoder "text/plain" q (plainText c)) /\
  extractPlainText plain_decoder
    (Some (mkPayload (Some "text/plain") (Some "-") (Some [multipart_example])))
    = EmptyString.
Proof.
  cbv zeta.
  pose proof (extracted_text_is_a_part_body plain_decoder (Some multipart_example)) as H.
  cbv zeta in H. destruct H as ((Hplain & _) & _ & Hhas).
  split; [reflexivity |]. split; [reflexivity |].
  split; [apply Hhas; vm_compute; discriminate |].
  split; [apply Hplain; vm_compute; discriminate | reflexivity].
Defined.

(** ** The days parameter *)

Section DaysFacts.

Local Ltac to_props :=
  repeat first
    [ rewrite andb_true_iff in * | rewrite orb_true_iff in *
    | rewrite andb_false_iff in * | rewrite orb_false_iff in *
    | rewrite N.leb_le in * | rewrite N.leb_gt in *
    | rewrite N.ltb_lt in * | rewrite N.ltb_ge in *
    | rewrite N.eqb_eq in * | rewrite N.eqb_neq in * ].

Local Ltac units := unfold plain, is_space, is_digit in *; to_props; lia.

Lemma lower_ascii_cases c :
  (65 <= c <= 90 /\ lower_ascii c = c + 32)%N \/
  ((c < 65 \/ 90 < c) /\ lower_ascii c = c)%N.
Proof.
  unfold lower_ascii. destruct ((65 <=? c) && (c <=? 90))%N eqn:E; to_props.
  - left. split; [lia | reflexivity].
  - right. split; [lia | reflexivity].
Qed.

Lemma digit_unit c :
  is_digit c = true ->
  lower_ascii c = c /\ is_space c = false /\ plain c = true /\
  c <> 45%N /\ c <> 100%N /\ c <> 115%N.
Proof.
  intros H. destruct (lower_ascii_cases c) as [[Hr He] | [Hr He]];
    (split; [try exact He; exfalso; units |]); repeat split; units.
Qed.

Lemma space_unit c :
  is_space c = true ->
  lower_ascii c = c /\ is_digit c = false /\ plain c = true /\ c <> 115%N.
Proof.
  intros H. destruct (lower_ascii_cases c) as [[Hr He] | [Hr He]];
    (split; [try exact He; exfalso; units |]); repeat split; units.
Qed.

Lemma lower_ascii_class c :
  is_digit (lower_ascii c) = is_digit c /\ is_space (lower_ascii c) = is_space c.
Proof.
  destruct (lower_ascii_cases c) as [[Hr ->] | [Hr ->]]; [| split; reflexivity].
  split.
  - transitivity false; [| symmetry]; units.
  - transitivity false; [| symmetry]; units.
Qed.

Lemma lower_ascii_plain c : plain (lower_ascii c) = true -> plain c = true.
Proof.
  destruct (lower_ascii_cases c) as [[Hr ->] | [Hr ->]]; [intros _; units | trivial].
Qed.

Lemma lower_ascii_letter c :
  c <> 45%N -> c <> 100%N -> c <> 68%N ->
  lower_ascii c <> 45%N /\ lower_ascii c <> 100%N.
Proof. destruct (lower_ascii_cases c) as [[Hr ->] | [Hr ->]]; lia. Qed.

Lemma strip_one a c r p : a <> c -> strip_prefix (a :: p) (c :: r) = None.
Proof. intros H. cbn [strip_prefix]. now apply N.eqb_neq in H as ->. Qed.

Lemma strip_prefix_app p s : strip_prefix p (p ++ s) = Some s.
Proof.
  induction p as [| a p IH]; [destruct s; reflexivity |].
  cbn [app strip_prefix]. now rewrite N.eqb_refl.
Qed.

Lemma lower_spaces ws : forallb is_space ws = true -> map lower_ascii ws = ws.
Proof.
  induction ws as [| c ws IH]; [reflexivity |]. cbn [forallb map].
  intros [Hc Hws]%andb_true_iff. rewrite (proj1 (space_unit c Hc)), (IH Hws). reflexivity.
Qed.

Lemma lower_digits ds : forallb is_digit ds = true -> map lower_ascii ds = ds.
Proof.
  induction ds as [| c ds IH]; [reflexivity |]. cbn [forallb map].
  intros [Hc Hds]%andb_true_iff. rewrite (proj1 (digit_unit c Hc)), (IH Hds). reflexivity.
Qed.

Lemma spaces_plain ws : forallb is_space ws = true -> forallb plain ws = true.
Proof.
  induction ws as [| c ws IH]; [reflexivity |]. cbn [forallb].
  intros [Hc Hws]%andb_true_iff.
  rewrite (proj1 (proj2 (proj2 (space_unit c Hc)))), (IH Hws). reflexivity.
Qed.

Lemma digits_plain ds : forallb is_digit ds = true -> forallb plain ds = true.
Proof.
  induction ds as [| c ds IH]; [reflexivity |]. cbn [forallb].
  intros [Hc Hds]%andb_true_iff.
  rewrite (proj1 (proj2 (proj2 (digit_unit c Hc)))), (IH Hds). reflexivity.
Qed.

Lemma lowered_plain s : forallb plain (map lower_ascii s) = true -> forallb plain s = true.
Proof.
  induction s as [| c s IH]; [reflexivity |]. cbn [forallb map].
  intros [Hc Hs]%andb_true_iff. rewrite (lower_ascii_plain c Hc), (IH Hs). reflexivity.
Qed.

Lemma lower_starts s :
  starts_with is_digit (map lower_ascii s) = starts_with is_digit s.
Proof. destruct s as [| c s]; [reflexivity |]. apply (proj1 (lower_ascii_class c)). Qed.

Lemma trimStart_spaces ws s :
  forallb is_space ws = true -> trimStart (ws ++ s) = trimStart s.
Proof.
  induction ws as [| c ws IH]; [reflexivity |]. cbn [forallb app trimStart].
  intros [Hc Hws]%andb_true_iff. rewrite Hc. exact (IH Hws).
Qed.

Lemma trimStart_kept c s : is_space c = false -> trimStart (c :: s) = c :: s.
Proof. intros Hc. cbn [trimStart]. now rewrite Hc. Qed.

Lemma trimEnd_kept c s : is_space c = false -> trimEnd (c :: s) = c :: trimEnd s.
Proof. intros Hc. cbn [trimEnd]. rewrite Hc. destruct (trimEnd s); reflexivity. Qed.

Lemma trimEnd_app a s : trimEnd s <> [] -> trimEnd (a ++ s) = (a ++ trimEnd s)%list.
Proof.
  intros Hs. induction a as [| c a IH]; [reflexivity |].
  cbn [app trimEnd]. rewrite IH.
  destruct (a ++ trimEnd s)%list eqn:Hcat; [| reflexivity].
  apply app_eq_nil in Hcat as [_ Hcat]. contradiction.
Qed.

Lemma trimEnd_digits ds s :
  forallb is_digit ds = true -> trimEnd (ds ++ s) = (ds ++ trimEnd s)%list.
Proof.
  induction ds as [| c ds IH]; [reflexivity |]. cbn [forallb].
  intros [Hc Hds]%andb_true_iff. cbn [app].
  rewrite trimEnd_kept by apply (digit_unit c Hc). now rewrite (IH Hds).
Qed.

Lemma trimEnd_starts s :
  starts_with is_digit s = false -> starts_with is_digit (trimEnd s) = false.
Proof.
  destruct s as [| c s]; [reflexivity |]. cbn [starts_with trimEnd]. intros Hc.
  destruct (trimEnd s); [destruct (is_space c); [reflexivity | exact Hc] | exact Hc].
Qed.

Lemma leading_digits_app ds s :
  forallb is_digit ds = true -> starts_with is_digit s = false ->
  leading_digits (ds ++ s) = ds.
Proof.
  intros Hds Hs. induction ds as [| c ds IH].
  - destruct s as [| c s]; [reflexivity |]. cbn [app leading_digits].
    cbn [starts_with] in Hs. now rewrite Hs.
  - cbn [forallb] in Hds. apply andb_true_iff in Hds as [Hc Hds].
    cbn [app leading_digits]. rewrite Hc, (IH Hds). reflexivity.
Qed.

(** The decimal numeral of a number is read back as the number. *)
Lemma pretty_N_go_digits (x : N) :
  forall s, forallb is_digit (units_of s) = true ->
            forallb is_digit (units_of (pretty_N_go x s)) = true /\
            parse_digits 0 (units_of (pretty_N_go x s)) =
              parse_digits (Z.of_N x) (units_of s).
Proof.
  induction (N.lt_wf_0 x) as [x _ IH]. intros s Hs.
  destruct (N.eq_dec x 0%N) as [-> | Hx].
  - rewrite pretty_N_go_0. split; [exact Hs | reflexivity].
  - rewrite pretty_N_go_step by lia.
    assert (x `mod` 10 < 10)%N as Hlt by (apply N.mod_lt; lia).
    assert (forall m, (m < 10)%N ->
                      is_digit (char_code (pretty_N_char m)) = true /\
                      Z.of_N (char_code (pretty_N_char m)) - 48 = Z.of_N m) as Hchar.
    { intros m Hm.
      assert (m = 0 \/ m = 1 \/ m = 2 \/ m = 3 \/ m = 4 \/ m = 5 \/ m = 6 \/ m = 7 \/
              m = 8 \/ m = 9)%N as Hcase by lia.
      repeat (destruct Hcase as [-> | Hcase]; [split; reflexivity |]).
      rewrite Hcase. split; reflexivity. }
    destruct (Hchar _ Hlt) as [Hd Hv].
    destruct (IH (x `div` 10)%N ltac:(apply N.div_lt; lia)
                 (String (pretty_N_char (x `mod` 10)) s)) as [Hall Hval].
    { change (units_of (String ?c s)) with (char_code c :: units_of s).
      cbn [forallb]. now rewrite Hd, Hs. }
    split; [exact Hall |]. rewrite Hval.
    change (units_of (String ?c s)) with (char_code c :: units_of s).
    cbn [parse_digits]. rewrite Hv.
    f_equal. rewrite (N.div_mod x 10) at 3 by lia. lia.
Qed.

Lemma pretty_N_digits (n : N) :
  exists c ds, units_of (pretty n) = c :: ds /\ is_digit c = true /\
               forallb is_digit ds = true /\ parseInt10 (units_of (pretty n)) = Z.of_N n.
Proof.
  unfold pretty, pretty_N, parseInt10. destruct (decide (n = 0%N)) as [-> | Hn].
  - eexists. eexists. repeat split; reflexivity.
  - destruct (pretty_N_go_digits n EmptyString eq_refl) as [Hall Hval].
    change (units_of EmptyString) with (@nil N) in Hval. cbn [parse_digits] in Hval.
    destruct (units_of (pretty_N_go n EmptyString)) as [| c ds] eqn:Hgo.
    + cbn [parse_digits] in Hval. lia.
    + cbn [forallb] in Hall. apply andb_true_iff in Hall as [Hc Hds].
      exists c, ds. repeat split; assumption.
Qed.

Lemma gap_then_digit gap c r :
  forallb is_space gap = true -> is_digit c = true ->
  strip_prefix (units_of "s") (gap ++ c :: r) = None /\
  trimStart (gap ++ c :: r) = c :: r.
Proof.
  intros Hgap Hc. split.
  - change (units_of "s") with [115%N].
    destruct gap as [| g gap]; cbn [app]; apply strip_one.
    + intros E. symmetry in E. revert E. apply (digit_unit c Hc).
    + cbn [forallb] in Hgap. apply andb_true_iff in Hgap as [Hg _].
      intros E. symmetry in E. revert E. apply (space_unit g Hg).
  - rewrite trimStart_spaces by exact Hgap.
    apply trimStart_kept, (digit_unit c Hc).
Qed.

Lemma replace_days_word lw gap c r :
  days_word lw gap -> is_digit c = true ->
  replace_days (lw ++ gap ++ c :: r) = c :: r /\
  strip_prefix (units_of "--") (lw ++ gap ++ c :: r) = None /\
  trimStart (lw ++ gap ++ c :: r) = (lw ++ gap ++ c :: r)%list.
Proof.
  intros [[-> ->] | [[-> | ->] Hgap]] Hc.
  - cbn [app]. unfold replace_days.
    change (units_of "day") with [100; 97; 121]%N.
    change (units_of "--") with [45; 45]%N.
    assert (100%N <> c /\ 45%N <> c) as [Hd Hdash]
      by (split; intros E; symmetry in E; revert E; apply (digit_unit c Hc)).
    rewrite (strip_one _ c r _ Hd).
    split; [reflexivity |].
    split; [apply strip_one, Hdash | apply trimStart_kept, (digit_unit c Hc)].
  - destruct (gap_then_digit gap c r Hgap Hc) as [Hs Ht].
    split; [| split; reflexivity].
    unfold replace_days. rewrite strip_prefix_app. unfold replace_prefix.
    rewrite Hs. exact Ht.
  - destruct (gap_then_digit gap c r Hgap Hc) as [Hs Ht].
    split; [| split; reflexivity].
    unfold replace_days.
    change (units_of "days" ++ gap ++ c :: r)%list
      with (units_of "day" ++ (units_of "s" ++ (gap ++ c :: r)))%list.
    rewrite strip_prefix_app. unfold replace_prefix. rewrite strip_prefix_app.
    exact Ht.
Qed.

End DaysFacts.

(** X15. [parseDaysParameter] always gives a number of days from 1 to
    30, and 7 for no parameter and for the empty string. For a case
    conversion that converts ASCII and white space unit by unit, as
    [toLowerCase] does: a decimal numeral, after white space (that of
    Unicode included), an optional [--] and an optional word [day] or
    [days] in any case with white space after it, and before ASCII or
    white space that does not begin with a digit, is read as its number,
    brought into that range; and a string of ASCII and white space that
    begins with a code unit other than white space, a digit, a dash or
    the letter d gives the default of 7. *)
Theorem days_parameter_is_read_and_clamped (toLowerCase : list N -> list N) :
  (forall daysStr, 1 <= parseDaysParameter toLowerCase daysStr <= 30) /\
  parseDaysParameter toLowerCase None = 7 /\
  parseDaysParameter toLowerCase (Some []) = 7 /\
  (converts_plain_text toLowerCase ->
   (forall (n : N) (ws dashes word gap suf : list N),
      forallb is_space ws = true ->
      dashes = [] \/ dashes = units_of "--" ->
      days_word (map lower_ascii word) gap ->
      forallb plain suf = true ->
      starts_with is_digit suf = false ->
      parseDaysParameter toLowerCase
        (Some (ws ++ dashes ++ word ++ gap ++ units_of (pretty n) ++ suf)%list) =
      Z.max 1 (Z.min 30 (Z.of_N n))) /\
   (forall c rest,
      forallb plain (c :: rest) = true ->
      is_space c = false -> is_digit c = false ->
      ~ In c (units_of "-dD") ->
      parseDaysParameter toLowerCase (Some (c :: rest)) = 7)).
Proof.
  split; [| split; [reflexivity | split; [reflexivity |]]].
  { intros [[| c s] |]; cbn [parseDaysParameter]; [lia | | lia].
    cbv zeta. destruct (leading_digits _); lia. }
  intros Hlower. split.
  - intros n ws dashes word gap suf Hws Hdashes Hword Hplain Hsuf.
    destruct (pretty_N_digits n) as (c & ds & Hp & Hc & Hds & Hval).
    assert (forallb is_digit (units_of (pretty n)) = true) as Hall
      by (rewrite Hp; cbn [forallb]; now rewrite Hc, Hds).
    set (tail := trimEnd (map lower_ascii suf)).
    assert (starts_with is_digit tail = false) as Htail
      by (apply trimEnd_starts; rewrite lower_starts; exact Hsuf).
    assert (map lower_ascii gap = gap /\ forallb plain gap = true) as [Hgap Hgp].
    { destruct Hword as [[_ ->] | [_ Hg]]; [split; reflexivity |].
      split; [apply lower_spaces, Hg | apply spaces_plain, Hg]. }
    assert (map lower_ascii dashes = dashes /\ forallb plain dashes = true) as [Hlow Hdp]
      by (destruct Hdashes as [-> | ->]; split; reflexivity).
    assert (forallb plain word = true) as Hwp.
    { apply lowered_plain.
      destruct Hword as [[-> _] | [[-> | ->] _]]; reflexivity. }
    assert (toLowerCase (ws ++ dashes ++ word ++ gap ++ units_of (pretty n) ++ suf)%list =
            (ws ++ dashes ++ map lower_ascii word ++ gap ++ units_of (pretty n) ++
               map lower_ascii suf)%list) as Hl.
    { rewrite Hlower.
      - rewrite !map_app, (lower_spaces ws Hws), Hlow, Hgap, (lower_digits _ Hall).
        reflexivity.
      - rewrite !forallb_app, (spaces_plain ws Hws), Hdp, Hwp, Hgp,
          (digits_plain _ Hall), Hplain. reflexivity. }
    assert (trim (toLowerCase (ws ++ dashes ++ word ++ gap ++ units_of (pretty n) ++ suf)%list) =
            (dashes ++ map lower_ascii word ++ gap ++ c :: (ds ++ tail))%list) as Htrim.
    { rewrite Hl. unfold trim. rewrite (trimStart_spaces ws _ Hws).
      assert (trimEnd (units_of (pretty n) ++ map lower_ascii suf)%list =
              (c :: (ds ++ tail))%list) as Hend
        by (rewrite (trimEnd_digits _ _ Hall), Hp; reflexivity).
      assert (trimStart (dashes ++ map lower_ascii word ++ gap ++ units_of (pretty n) ++
                           map lower_ascii suf)%list =
              (dashes ++ map lower_ascii word ++ gap ++ units_of (pretty n) ++
                 map lower_ascii suf)%list) as ->.
      { rewrite Hp. cbn [app].
        destruct (replace_days_word (map lower_ascii word) gap c
                    (ds ++ map lower_ascii suf)%list Hword Hc) as (_ & _ & Hstart).
        destruct Hdashes as [-> | ->]; [exact Hstart | reflexivity]. }
      set (body := (units_of (pretty n) ++ map lower_ascii suf)%list) in *.
      rewrite !app_assoc, trimEnd_app by (rewrite Hend; discriminate).
      rewrite Hend, <- !app_assoc. reflexivity. }
    destruct (replace_days_word (map lower_ascii word) gap c (ds ++ tail)%list Hword Hc)
      as (Hdays & Hnone & _).
    assert (replace_prefix (units_of "--")
              (dashes ++ map lower_ascii word ++ gap ++ c :: (ds ++ tail))%list =
            (map lower_ascii word ++ gap ++ c :: (ds ++ tail))%list) as Hclean.
    { unfold replace_prefix. destruct Hdashes as [-> | ->].
      - cbn [app]. rewrite Hnone. reflexivity.
      - rewrite strip_prefix_app. reflexivity. }
    assert (exists u s, (ws ++ dashes ++ word ++ gap ++ units_of (pretty n) ++ suf)%list = u :: s)
      as (u & s & Hs).
    { destruct (ws ++ dashes ++ word ++ gap ++ units_of (pretty n) ++ suf)%list eqn:E;
        [| eauto].
      do 4 (apply app_eq_nil in E as [_ E]). rewrite Hp in E. discriminate. }
    rewrite Hs in Htrim |- *. cbn [parseDaysParameter]. cbv zeta.
    rewrite Htrim, Hclean, Hdays.
    change (c :: (ds ++ tail))%list with ((c :: ds) ++ tail)%list.
    rewrite <- Hp, (leading_digits_app _ _ Hall Htail).
    rewrite Hp in Hval |- *. rewrite Hval. reflexivity.
  - intros c rest Hplain Hspace Hdigit Hother.
    assert (c <> 45%N /\ c <> 100%N /\ c <> 68%N) as (H1 & H2 & H3)
      by (repeat split; intros ->; apply Hother; cbn; tauto).
    destruct (lower_ascii_letter c H1 H2 H3) as [Hdash Hd].
    destruct (lower_ascii_class c) as [Hcd Hcs].
    cbn [parseDaysParameter]. cbv zeta. rewrite (Hlower _ Hplain).
    cbn [map]. unfold trim.
    rewrite trimStart_kept by (rewrite Hcs; exact Hspace).
    rewrite trimEnd_kept by (rewrite Hcs; exact Hspace).
    unfold replace_prefix. change (units_of "--") with [45; 45]%N.
    rewrite strip_one by (intros E; apply Hdash; symmetry; exact E). cbn [default].
    unfold replace_days. change (units_of "day") with [100; 97; 121]%N.
    rewrite strip_one by (intros E; apply Hd; symmetry; exact E).
    cbn [leading_digits]. rewrite Hcd, Hdigit. reflexivity.
Qed.

Lemma days_parameter_is_read_and_clamped_witness :
  converts_plain_text (map lower_ascii) /\
  parseDaysParameter (map lower_ascii) (Some (units_of "  --Days 45 ago")) = 30 /\
  parseDaysParameter (map lower_ascii) (Some (units_of "3d")) = 3 /\
  parseDaysParameter (map lower_ascii) (Some (units_of "0")) = 1 /\
  parseDaysParameter (map lower_ascii) (Some (160%N :: units_of "12")) = 12 /\
  parseDaysParameter (map lower_ascii) (Some (units_of "last week")) = 7.
Proof.
  assert (converts_plain_text (map lower_ascii)) as Hlower by (intros s _; reflexivity).
  destruct (days_parameter_is_read_and_clamped (map lower_ascii)) as (_ & _ & _ & Hrest).
  destruct (Hrest Hlower) as [Hread Hother].
  split; [exact Hlower |]. split; [| split; [| split; [| split]]].
  - exact (Hread 45%N (units_of "  ") (units_of "--") (units_of "Days") (units_of " ")
             (units_of " ago") eq_refl (or_intror eq_refl)
             (or_intror (conj (or_intror eq_refl) eq_refl)) eq_refl eq_refl).
  - exact (Hread 3%N [] [] [] [] (units_of "d") eq_refl
             (or_introl eq_refl) (or_introl (conj eq_refl eq_refl)) eq_refl eq_refl).
  - exact (Hread 0%N [] [] [] [] [] eq_refl
             (or_introl eq_refl) (or_introl (conj eq_refl eq_refl)) eq_refl eq_refl).
  - exact (Hread 12%N [160%N] [] [] [] [] eq_refl
             (or_introl eq_refl) (or_introl (conj eq_refl eq_refl)) eq_refl eq_refl).
  - apply Hother; [reflexivity | reflexivity | reflexivity |].
    cbn. intros [H | [H | [H | []]]]; discriminate H.
Defined.
